(** * rps-network: link extraction, breadth-first crawl and graph assembly

    A shallow embedding of the repository's scripts:
    - [get_links_from_single_page] (scrape_rps.py, scrape_to_duckdb.py) and
      [CrawlManager._get_links_from_page] (deprecated/full_network_scraper.py),
    - [CrawlManager.crawl] (deprecated/full_network_scraper.py),
    - [create_graph_from_duckdb] (visualize_from_db.py),
    - [create_single_page_link_graph] (scrape_rps.py, scrape_to_duckdb.py),
    - the labels and colours of [visualize_graph] (visualize_from_db.py),
    together with the part of Python's [urllib.parse] they call. *)

From Stdlib Require Import ZArith Lia Ascii String List Permutation Sorted.
From stdpp Require Import base option list gmap strings.

Open Scope string_scope.
Open Scope Z_scope.

(** ** Python [str] helpers

    A Python [str] is modelled as a Rocq [string]; the model covers the
    one-byte code points.  An empty string is falsy. *)
Module PyStr.

Definition truthy (s : string) : bool :=
  match s with EmptyString => false | String _ _ => true end.

(** [c in s] *)
Fixpoint contains (c : ascii) (s : string) : bool :=
  match s with
  | EmptyString => false
  | String a s' => if Ascii.eqb a c then true else contains c s'
  end.

(** [s.partition(c)] without the separator: the text before the first
    character satisfying [p], and the text from that character on (empty when
    there is none). *)
Fixpoint break_at (p : ascii -> bool) (s : string) : string * string :=
  match s with
  | EmptyString => (EmptyString, EmptyString)
  | String a s' =>
      if p a then (EmptyString, s)
      else let '(l, r) := break_at p s' in (String a l, r)
  end.

(** [s.split(c, 1)] when [c in s]; [None] when [c] does not occur. *)
Definition split_once (c : ascii) (s : string) : option (string * string) :=
  match break_at (Ascii.eqb c) s with
  | (l, String _ r) => Some (l, r)
  | (_, EmptyString) => None
  end.

(** [s.split(c)]: never the empty list. *)
Fixpoint split (c : ascii) (s : string) : list string :=
  match s with
  | EmptyString => [EmptyString]
  | String a s' =>
      if Ascii.eqb a c then EmptyString :: split c s'
      else match split c s' with
           | [] => [String a EmptyString]
           | w :: ws => String a w :: ws
           end
  end.

(** [c.join(l)] *)
Fixpoint join (c : ascii) (l : list string) : string :=
  match l with
  | [] => EmptyString
  | [w] => w
  | w :: ws => w ++ String c (join c ws)
  end.

(** Cut at the last occurrence of [c]: the text up to and including it, and
    the text after it; the first part is empty when [c] does not occur. *)
Fixpoint rbreak (c : ascii) (s : string) : string * string :=
  match s with
  | EmptyString => (EmptyString, EmptyString)
  | String a s' =>
      let '(h, t) := rbreak c s' in
      if truthy h then (String a h, t)
      else if Ascii.eqb a c then (String a EmptyString, s')
      else (EmptyString, s)
  end.

Definition is_upper (a : ascii) : bool :=
  let n := nat_of_ascii a in (Nat.leb 65 n && Nat.leb n 90)%bool.
Definition is_lower (a : ascii) : bool :=
  let n := nat_of_ascii a in (Nat.leb 97 n && Nat.leb n 122)%bool.
Definition is_digit (a : ascii) : bool :=
  let n := nat_of_ascii a in (Nat.leb 48 n && Nat.leb n 57)%bool.

(** [a.isascii() and a.isalpha()] *)
Definition is_ascii_alpha (a : ascii) : bool := (is_upper a || is_lower a)%bool.

Definition lower_char (a : ascii) : ascii :=
  if is_upper a then ascii_of_nat (nat_of_ascii a + 32) else a.

(** [s.lower()] *)
Fixpoint lower (s : string) : string :=
  match s with
  | EmptyString => EmptyString
  | String a s' => String (lower_char a) (lower s')
  end.

Fixpoint forallb (p : ascii -> bool) (s : string) : bool :=
  match s with
  | EmptyString => true
  | String a s' => (p a && forallb p s')%bool
  end.

(** [s.lstrip(chars)] with [chars] given as a predicate. *)
Fixpoint lstrip (p : ascii -> bool) (s : string) : string :=
  match s with
  | EmptyString => EmptyString
  | String a s' => if p a then lstrip p s' else s
  end.

Fixpoint rev_acc (s acc : string) : string :=
  match s with
  | EmptyString => acc
  | String a s' => rev_acc s' (String a acc)
  end.

(** [s.strip(chars)] *)
Definition strip (p : ascii -> bool) (s : string) : string :=
  rev_acc (lstrip p (rev_acc (lstrip p s) EmptyString)) EmptyString.

(** [s.replace(c, "")] for every character [c] satisfying [p]. *)
Fixpoint remove (p : ascii -> bool) (s : string) : string :=
  match s with
  | EmptyString => EmptyString
  | String a s' => if p a then remove p s' else String a (remove p s')
  end.

(** [a != c], the test behind [c not in s]. *)
Definition lacks (c : ascii) (a : ascii) : bool := negb (Ascii.eqb a c).

(** [s[:2] == "//"] *)
Definition starts_slashslash (s : string) : bool :=
  match s with
  | String "/" (String "/" _) => true
  | _ => false
  end.

(** [s[:1] == "/"] *)
Definition starts_slash (s : string) : bool :=
  match s with
  | String "/" _ => true
  | _ => false
  end.

End PyStr.

(** ** The part of [urllib.parse] (CPython 3.11) used by the scripts

    [urlsplit], [urlparse], [urlunsplit], [urlunparse] and [urljoin] follow
    the library's code statement by statement.  [None] stands for the
    [ValueError] the library raises on a malformed bracketed host.  On one-byte
    code points [_checknetloc] never raises, so it is left out. *)
Module UrlParse.
Import PyStr.

Definition uses_relative : list string :=
  [""; "ftp"; "http"; "gopher"; "nntp"; "imap"; "wais"; "file"; "https";
   "shttp"; "mms"; "prospero"; "rtsp"; "rtspu"; "sftp"; "svn"; "svn+ssh";
   "ws"; "wss"].

Definition uses_netloc : list string :=
  [""; "ftp"; "http"; "gopher"; "nntp"; "telnet"; "imap"; "wais"; "file";
   "mms"; "https"; "shttp"; "snews"; "prospero"; "rtsp"; "rtspu"; "rsync";
   "svn"; "svn+ssh"; "sftp"; "nfs"; "git"; "git+ssh"; "ws"; "wss"].

Definition uses_params : list string :=
  [""; "ftp"; "hdl"; "prospero"; "http"; "imap"; "https"; "shttp"; "rtsp";
   "rtspu"; "sip"; "sips"; "mms"; "sftp"; "tel"].

(** [s in l] for a list of strings *)
Definition mem (s : string) (l : list string) : bool :=
  existsb (String.eqb s) l.

Definition scheme_char (a : ascii) : bool :=
  (is_lower a || is_upper a || is_digit a
   || Ascii.eqb a "+" || Ascii.eqb a "-" || Ascii.eqb a ".")%bool.

(** [_WHATWG_C0_CONTROL_OR_SPACE]: code points 0 to 32. *)
Definition c0_control_or_space (a : ascii) : bool :=
  Nat.leb (nat_of_ascii a) 32.

(** [_UNSAFE_URL_BYTES_TO_REMOVE]: tab, carriage return, line feed. *)
Definition unsafe_url_byte (a : ascii) : bool :=
  let n := nat_of_ascii a in
  (Nat.eqb n 9 || Nat.eqb n 13 || Nat.eqb n 10)%bool.

Definition netloc_delim (a : ascii) : bool :=
  (Ascii.eqb a "/" || Ascii.eqb a "?" || Ascii.eqb a "#")%bool.

Record SplitResult : Type := mkSplit {
  s_scheme : string; s_netloc : string; s_path : string;
  s_query : string; s_fragment : string }.

Record ParseResult : Type := mkParse {
  scheme : string; netloc : string; path : string;
  params : string; query : string; fragment : string }.

(** The scheme test at the head of [urlsplit]: a scheme is split off when a
    colon occurs after a non-empty run of scheme characters that starts with
    a letter. *)
Definition split_scheme (url dflt : string) : string * string :=
  match split_once ":" url with
  | Some (String a pre, post) =>
      if (is_ascii_alpha a && forallb scheme_char (String a pre))%bool
      then (lower (String a pre), post)
      else (dflt, url)
  | _ => (dflt, url)
  end.

(** [_splitnetloc(url, 2)] *)
Definition _splitnetloc (url : string) : string * string :=
  match url with
  | String _ (String _ rest) => break_at netloc_delim rest
  | _ => (EmptyString, EmptyString)
  end.

(** [url, x = url.split(c, 1)] when [c in url], else [x = ''] *)
Definition cut (c : ascii) (url : string) : string * string :=
  match split_once c url with
  | Some p => p
  | None => (url, EmptyString)
  end.

Section Parse.

(** Whether [_check_bracketed_netloc] accepts a netloc that holds both
    brackets (it parses an IPv6 or IPvFuture literal). *)
Variable check_bracketed_netloc : string -> bool.

Definition split_netloc_checked (url : string) : option (string * string) :=
  if starts_slashslash url then
    let '(nl, rest) := _splitnetloc url in
    let lb := contains "[" nl in
    let rb := contains "]" nl in
    if ((lb && negb rb) || (rb && negb lb))%bool then None
    else if (lb && rb)%bool then
      if check_bracketed_netloc nl then Some (nl, rest) else None
    else Some (nl, rest)
  else Some (EmptyString, url).

Definition urlsplit (url dflt : string) : option SplitResult :=
  let url := lstrip c0_control_or_space url in
  let dflt := strip c0_control_or_space dflt in
  let url := remove unsafe_url_byte url in
  let dflt := remove unsafe_url_byte dflt in
  let '(sch, url) := split_scheme url dflt in
  match split_netloc_checked url with
  | None => None
  | Some (nl, url) =>
      let '(url, frag) := cut "#" url in
      let '(url, qry) := cut "?" url in
      Some (mkSplit sch nl url qry frag)
  end.

(** The caller guarantees a semicolon in [url]. *)
Definition _splitparams (url : string) : string * string :=
  if contains "/" url then
    let '(h, t) := rbreak "/" url in
    match split_once ";" t with
    | None => (url, EmptyString)
    | Some (a, b) => (h ++ a, b)
    end
  else cut ";" url.

Definition urlparse (url dflt : string) : option ParseResult :=
  match urlsplit url dflt with
  | None => None
  | Some r =>
      let '(p, prm) :=
        if (mem (s_scheme r) uses_params && contains ";" (s_path r))%bool
        then _splitparams (s_path r)
        else (s_path r, EmptyString) in
      Some (mkParse (s_scheme r) (s_netloc r) p prm (s_query r) (s_fragment r))
  end.

End Parse.

Definition urlunsplit (sch nl url qry frag : string) : string :=
  let url :=
    if (truthy nl
        || (truthy sch && mem sch uses_netloc && negb (starts_slashslash url)))%bool
    then
      let url := if (truthy url && negb (starts_slash url))%bool
                 then String "/" url else url in
      "//" ++ nl ++ url
    else url in
  let url := if truthy sch then sch ++ ":" ++ url else url in
  let url := if truthy qry then url ++ "?" ++ qry else url in
  if truthy frag then url ++ "#" ++ frag else url.

Definition urlunparse (r : ParseResult) : string :=
  let url := if truthy (params r) then path r ++ ";" ++ params r else path r in
  urlunsplit (scheme r) (netloc r) url (query r) (fragment r).

(** [base_parts]: the base path's segments without a last non-directory one. *)
Definition base_parts (bpath : string) : list string :=
  let parts := split "/" bpath in
  if truthy (List.last parts EmptyString) then removelast parts else parts.

(** [segments[1:-1] = filter(None, segments[1:-1])] *)
Definition squeeze (segments : list string) : list string :=
  match segments with
  | x :: ((_ :: _) as rest) =>
      (x :: List.filter truthy (removelast rest) ++ [List.last rest EmptyString])%list
  | _ => segments
  end.

(** The loop over [segments] that fills [resolved_path]. *)
Fixpoint resolve (segments resolved : list string) : list string :=
  match segments with
  | [] => resolved
  | seg :: rest =>
      if String.eqb seg ".." then resolve rest (removelast resolved)
      else if String.eqb seg "." then resolve rest resolved
      else resolve rest (resolved ++ [seg])%list
  end.

Definition resolved_path (segments : list string) : string :=
  let r := resolve segments [] in
  let lst := List.last segments EmptyString in
  let r := if (String.eqb lst "." || String.eqb lst "..")%bool
           then (r ++ [EmptyString])%list else r in
  let joined := join "/" r in
  if truthy joined then joined else "/".

Section Join.

Variable check_bracketed_netloc : string -> bool.

(** [urljoin] once both arguments are parsed; [url] is the second argument as
    given. *)
Definition urljoin_parsed (b u : ParseResult) (url : string) : string :=
  if (negb (String.eqb (scheme u) (scheme b))
      || negb (mem (scheme u) uses_relative))%bool
  then url
  else if (mem (scheme u) uses_netloc && truthy (netloc u))%bool
  then urlunparse u
  else
    let nl := if mem (scheme u) uses_netloc then netloc b else netloc u in
    if (negb (truthy (path u)) && negb (truthy (params u)))%bool
    then
      let qry := if truthy (query u) then query u else query b in
      urlunparse (mkParse (scheme u) nl (path b) (params b) qry (fragment u))
    else
      let segments :=
        if starts_slash (path u) then split "/" (path u)
        else squeeze (base_parts (path b) ++ split "/" (path u))%list in
      urlunparse (mkParse (scheme u) nl (resolved_path segments)
                          (params u) (query u) (fragment u)).

Definition urljoin (base url : string) : option string :=
  if negb (truthy base) then Some url
  else if negb (truthy url) then Some base
  else
    match urlparse check_bracketed_netloc base EmptyString with
    | None => None
    | Some b =>
        match urlparse check_bracketed_netloc url (scheme b) with
        | None => None
        | Some u => Some (urljoin_parsed b u url)
        end
    end.

End Join.

End UrlParse.

(** ** Link extraction: [get_links_from_single_page]

    scrape_rps.py, scrape_to_duckdb.py and
    [CrawlManager._get_links_from_page] share this body. *)
Module Scraper.
Import PyStr UrlParse.

Section Links.

Variable check_bracketed_netloc : string -> bool.

(** [list(links)]: the order in which Python iterates over a set. *)
Variable list_of_set : gset string -> list string.

(** The body of the loop over the anchors, for one [href].  The outer [None]
    is a [ValueError] of [urljoin] or [urlparse]; [Some None] is a link the
    scheme-and-netloc test drops; [Some (Some clean_url)] is added to
    [links]. *)
Definition clean_link (url href : string) : option (option string) :=
  match urljoin check_bracketed_netloc url href with
  | None => None
  | Some absolute_url =>
      match urlparse check_bracketed_netloc absolute_url EmptyString with
      | None => None
      | Some parsed_url =>
          if (mem (scheme parsed_url) ["http"; "https"]
              && truthy (netloc parsed_url))%bool
          then
            match urljoin check_bracketed_netloc absolute_url (path parsed_url) with
            | None => None
            | Some clean_url => Some (Some clean_url)
            end
          else Some None
      end
  end.

(** [for a_tag in soup.find_all('a', href=True): ... links.add(clean_url)] *)
Fixpoint collect_links (url : string) (hrefs : list string)
    (links : gset string) : option (gset string) :=
  match hrefs with
  | [] => Some links
  | href :: rest =>
      match clean_link url href with
      | None => None
      | Some None => collect_links url rest links
      | Some (Some clean_url) => collect_links url rest (links ∪ {[clean_url]})
      end
  end.

(** [response] is what [requests.get] followed by [raise_for_status] gives:
    [None] for a [RequestException], otherwise the [href] values of the page's
    anchors in document order.  The result is [None] when a [ValueError]
    escapes the function. *)
Definition get_links_from_single_page (response : option (list string))
    (url : string) : option (list string) :=
  match response with
  | None => Some []
  | Some hrefs =>
      match collect_links url hrefs ∅ with
      | None => None
      | Some links => Some (list_of_set links)
      end
  end.

Definition _get_links_from_page := get_links_from_single_page.

End Links.

End Scraper.

(** ** [networkx.DiGraph], as far as the scripts use it

    The only node attribute ever set is [depth]; a node added by [add_edge]
    alone has none. *)
Module Nx.

Record DiGraph : Type := mkGraph {
  nodes : gmap string (option Z);
  edges : gset (string * string) }.

Definition empty : DiGraph := mkGraph ∅ ∅.

(** [n in graph] *)
Definition has_node (g : DiGraph) (n : string) : bool :=
  bool_decide (is_Some (nodes g !! n)).

(** [graph.add_node(n, depth=d)]; also [graph.nodes[n]['depth'] = d] for a
    node of the graph. *)
Definition add_node_depth (g : DiGraph) (n : string) (d : Z) : DiGraph :=
  mkGraph (<[n := Some d]> (nodes g)) (edges g).

(** [graph.add_node(n)] *)
Definition add_node (g : DiGraph) (n : string) : DiGraph :=
  if has_node g n then g else mkGraph (<[n := None]> (nodes g)) (edges g).

(** [graph.add_edge(u, v)] *)
Definition add_edge (g : DiGraph) (u v : string) : DiGraph :=
  let g := add_node (add_node g u) v in
  mkGraph (nodes g) (edges g ∪ {[(u, v)]}).

(** [graph.nodes[n].get('depth')] *)
Definition depth (g : DiGraph) (n : string) : option Z :=
  match nodes g !! n with
  | Some (Some d) => Some d
  | _ => None
  end.

End Nx.

(** ** Graph assembly: [create_graph_from_duckdb] (visualize_from_db.py) *)
Module Visualize.
Import Nx.

(** A row of [website_links] as fetched; [crawl_depth] is [None] when the row
    has two columns only. *)
Record Row : Type := mkRow {
  source_url : string;
  target_url : string;
  crawl_depth : option Z }.

(** The body of [for row in data]. *)
Definition add_row (graph : DiGraph) (row : Row) : DiGraph :=
  let source_url := source_url row in
  let target_url := target_url row in
  let crawl_depth := default 0 (crawl_depth row) in
  let graph :=
    if negb (has_node graph source_url)
    then add_node_depth graph source_url crawl_depth
    else graph in
  let graph :=
    if negb (has_node graph target_url) then
      if negb (has_node graph target_url)
      then add_node_depth graph target_url (crawl_depth + 1)
      else
        match nodes graph !! target_url with
        | Some (Some current_target_depth) =>
            if crawl_depth + 1 <? current_target_depth
            then add_node_depth graph target_url (crawl_depth + 1)
            else graph
        | _ => add_node_depth graph target_url (crawl_depth + 1)
        end
    else graph in
  add_edge graph source_url target_url.

(** [data] is the result of the query; the database errors are not
    modelled. *)
Definition create_graph_from_duckdb (data : list Row) (start_url : string)
    : DiGraph :=
  let graph := fold_left add_row data Nx.empty in
  if has_node graph start_url then add_node_depth graph start_url 0
  else graph.

(** The depths at which the rows observe a node: the recorded depth where it
    is the source, one more where it is the target. *)
Definition observed_depths (data : list Row) (n : string) : list Z :=
  flat_map (fun row =>
    let d := default 0 (crawl_depth row) in
    (if String.eqb (source_url row) n then [d] else []) ++
    (if String.eqb (target_url row) n then [d + 1] else []))%list data.

(** The depths at which the rows observe a node as a target. *)
Definition target_depths (data : list Row) (n : string) : list Z :=
  flat_map (fun row =>
    if String.eqb (target_url row) n
    then [default 0 (crawl_depth row) + 1] else []) data.

Definition minimum (l : list Z) : option Z :=
  match l with
  | [] => None
  | x :: xs => Some (fold_left Z.min xs x)
  end.

End Visualize.

(** ** The breadth-first crawl: [CrawlManager] (deprecated/full_network_scraper.py) *)
Module Crawler.
Import Nx Visualize.

(** The fields of [CrawlManager] that [crawl] reads or writes.
    [website_links] is the table the edges are inserted into.  [added] and
    [fetched] are ghost logs, most recent first, of the arguments of
    [visited_urls.add] and of [_get_links_from_page]. *)
Record CrawlManager : Type := mkCrawl {
  visited_urls : gset string;
  urls_to_visit : list (string * Z);
  graph : DiGraph;
  website_links : list Row;
  added : list string;
  fetched : list string }.

(** [CrawlManager.__init__] *)
Definition init (start_url : string) : CrawlManager :=
  mkCrawl ∅ [(start_url, 0)] Nx.empty [] [] [].

(** [self.urls_to_visit.popleft()] leaves [rest] in the queue. *)
Definition with_queue (st : CrawlManager) (rest : list (string * Z))
    : CrawlManager :=
  mkCrawl (visited_urls st) rest (graph st) (website_links st)
          (added st) (fetched st).

(** The state when a [ValueError] leaves [_get_links_from_page]: the URL is
    marked visited and is a node of the graph. *)
Definition interrupted (st : CrawlManager) (current_url : string)
    (current_depth : Z) : CrawlManager :=
  mkCrawl (visited_urls st ∪ {[current_url]}) (urls_to_visit st)
          (add_node_depth (graph st) current_url current_depth)
          (website_links st) (current_url :: added st)
          (current_url :: fetched st).

(** The loop [for link in found_links] of [crawl], on the graph, the rows to
    insert and the queue; [visited] does not change in the loop. *)
Fixpoint process_links (visited : gset string) (current_url : string)
    (current_depth : Z) (found_links : list string)
    (g : DiGraph) (links_to_insert : list Row) (queue : list (string * Z))
    : DiGraph * list Row * list (string * Z) :=
  match found_links with
  | [] => (g, links_to_insert, queue)
  | link :: rest =>
      let g := add_edge g current_url link in
      let links_to_insert :=
        (links_to_insert ++ [mkRow current_url link (Some current_depth)])%list in
      let queue :=
        if bool_decide (link ∈ visited) then queue
        else (queue ++ [(link, current_depth + 1)])%list in
      process_links visited current_url current_depth rest g links_to_insert queue
  end.

(** The state after the iteration that crawls [current_url] and finds
    [found_links]; [st] is the state once the entry is popped.  The insertion
    into [website_links] is taken to succeed: [crawl] catches a
    [duckdb.Error] and goes on, with nothing but the table affected. *)
Definition visit (st : CrawlManager) (current_url : string) (current_depth : Z)
    (found_links : list string) : CrawlManager :=
  let visited := visited_urls st ∪ {[current_url]} in
  let g := add_node_depth (graph st) current_url current_depth in
  let '(g, links_to_insert, queue) :=
    process_links visited current_url current_depth found_links g []
                  (urls_to_visit st) in
  mkCrawl visited queue g (website_links st ++ links_to_insert)%list
          (current_url :: added st) (current_url :: fetched st).

(** The entries the loop over [found_links] appends to the queue. *)
Definition new_entries (visited : gset string) (current_depth : Z)
    (found_links : list string) : list (string * Z) :=
  map (fun link => (link, current_depth + 1))
      (List.filter (fun link => negb (bool_decide (link ∈ visited))) found_links).

(** The edges the loop over [found_links] adds to the graph. *)
Definition new_edges (current_url : string) (found_links : list string)
    : gset (string * string) :=
  list_to_set (map (pair current_url) found_links).

Inductive step_result : Type :=
  | Running (st : CrawlManager)   (* the loop goes on *)
  | Raised (st : CrawlManager)    (* a ValueError left [crawl] *)
  | Done.                         (* [urls_to_visit] is empty: the loop ends *)

Inductive crawl_result : Type :=
  | Finished (st : CrawlManager)
  | Crashed (st : CrawlManager)
  | OutOfFuel.

Section Crawl.

Variable check_bracketed_netloc : string -> bool.
Variable list_of_set : gset string -> list string.

(** [requests.get]: the response to the [k]-th request (from 0) for a URL;
    [None] is a [RequestException]. *)
Variable net : string -> nat -> option (list string).

Variable max_depth : Z.

(** [self._get_links_from_page(url)] when [url] was requested [k] times before. *)
Definition page_links (url : string) (k : nat) : option (list string) :=
  Scraper._get_links_from_page check_bracketed_netloc list_of_set (net url k) url.

(** One iteration of [while self.urls_to_visit]. *)
Definition crawl_step (st : CrawlManager) : step_result :=
  match urls_to_visit st with
  | [] => Done
  | (current_url, current_depth) :: rest =>
      let st := with_queue st rest in
      if (bool_decide (current_url ∈ visited_urls st)
          || (max_depth <? current_depth))%bool
      then Running st
      else
        match page_links current_url
                (count_occ string_dec (fetched st) current_url) with
        | None => Raised (interrupted st current_url current_depth)
        | Some found_links =>
            Running (visit st current_url current_depth found_links)
        end
  end.

(** [crawl]: the loop, with a bound on the number of iterations. *)
Fixpoint crawl (fuel : nat) (st : CrawlManager) : crawl_result :=
  match fuel with
  | O => OutOfFuel
  | S fuel' =>
      match crawl_step st with
      | Done => Finished st
      | Raised st' => Crashed st'
      | Running st' => crawl fuel' st'
      end
  end.

(** The state after [n] iterations, when the loop gets that far. *)
Fixpoint run (n : nat) (st : CrawlManager) : option CrawlManager :=
  match n with
  | O => Some st
  | S n' =>
      match crawl_step st with
      | Running st' => run n' st'
      | _ => None
      end
  end.

Definition reachable (start_url : string) (st : CrawlManager) : Prop :=
  exists n, run n (init start_url) = Some st.

(** The links of a page at its first request; none when a [ValueError]
    escapes. *)
Definition first_links (url : string) : list string :=
  default [] (page_links url 0).

(** A bound on the iterations an entry can cause: itself, and the entries of
    the links of its page while the depth allows. *)
Fixpoint weight (k : nat) (url : string) : nat :=
  match k with
  | O => 1
  | S k' => S (list_sum (map (weight k') (first_links url)))
  end.

Definition entry_weight (e : string * Z) : nat :=
  weight (Z.to_nat (max_depth + 1 - snd e)) (fst e).

Definition queue_weight (st : CrawlManager) : nat :=
  list_sum (map entry_weight (urls_to_visit st)).

(** What holds of every state of a crawl: a URL is requested only once it is
    marked visited, the two logs have no repetition, [added] lists the
    visited set, an edge leaves a requested URL for a link of its page, and
    the URLs requested are the URLs marked visited. *)
Record crawl_inv (st : CrawlManager) : Prop := mkInv {
  inv_fetched_visited : forall u, u ∈ fetched st -> u ∈ visited_urls st;
  inv_fetched_nodup : NoDup (fetched st);
  inv_added_nodup : NoDup (added st);
  inv_added_visited : forall u, u ∈ added st <-> u ∈ visited_urls st;
  inv_edges : forall u v, (u, v) ∈ edges (graph st) ->
                u ∈ fetched st /\ v ∈ first_links u;
  inv_logs : fetched st = added st }.

End Crawl.

(** The pending URLs. *)
Definition pending (st : CrawlManager) : list string :=
  map fst (urls_to_visit st).

(** *** The properties the specification states of the frontier, as
    predicates on a state of the crawl *)

(** Spec 4.2: pending and visited are disjoint, and no URL is pending twice. *)
Definition frontier_disjoint (st : CrawlManager) : Prop :=
  (forall u, u ∈ pending st -> u ∉ visited_urls st) /\ NoDup (pending st).

(** Spec 7: a URL whose first request failed has been requested again. *)
Definition retried_after_failure (net : string -> nat -> option (list string))
    (st : CrawlManager) : Prop :=
  forall u, u ∈ fetched st -> net u 0%nat = None ->
    (1 < count_occ string_dec (fetched st) u)%nat.

(** Spec 8.4: the graph of the crawl of [a -> b, c] and [b -> d] with
    [maxDepth = 1] has the nodes [a], [b], [c] and the edges [(a, b)],
    [(a, c)] only. *)
Definition excludes_beyond_max_depth (a b c : string) (g : DiGraph) : Prop :=
  dom (nodes g) = {[a; b; c]} /\ edges g = {[(a, b); (a, c)]}.

(** Spec 7 and 8.6: when the request for the URL at the head of the queue
    fails, the crawl ends normally and has requested every URL that was
    pending behind it within the depth bound. *)
Definition failure_isolated (check_bracketed_netloc : string -> bool)
    (list_of_set : gset string -> list string)
    (net : string -> nat -> option (list string)) (max_depth : Z)
    (st : CrawlManager) : Prop :=
  forall u d rest,
    urls_to_visit st = (u, d) :: rest ->
    (u ∉ visited_urls st) -> d <= max_depth -> net u 0%nat = None ->
    exists fuel f,
      crawl check_bracketed_netloc list_of_set net max_depth fuel st
        = Finished f /\
      forall v e, (v, e) ∈ rest -> e <= max_depth -> v ∈ fetched f.

End Crawler.

(** ** Sample inputs *)
Module Samples.
Import Nx Visualize Crawler.

(** No bracketed host occurs below; the check is never consulted. *)
Definition any_bracketed_netloc (_ : string) : bool := true.

Definition seed : string := "http://example.com/".
Definition page_a : string := "http://example.com/a".
Definition page_b : string := "http://example.com/b".
Definition page_c : string := "http://example.com/c".
Definition page_d : string := "http://example.com/d".

(** The rows a crawl of [seed -> a, b] and [a -> b] writes, fetched in
    another order than the one of insertion. *)
Definition shuffled_rows : list Row :=
  [ mkRow page_a page_b (Some 1);
    mkRow seed page_a (Some 0);
    mkRow seed page_b (Some 0) ].

(** Page [a] links to [b] and [c], page [b] links to [d]; [c] and [d] have no
    links; nothing else answers. *)
Definition small_site (url : string) (k : nat) : option (list string) :=
  if String.eqb url page_a then Some [page_b; page_c]
  else if String.eqb url page_b then Some [page_d]
  else if String.eqb url page_c then Some []
  else if String.eqb url page_d then Some []
  else None.

(** Page [a] links to [b] and [c], which link to each other. *)
Definition triangle_site (url : string) (k : nat) : option (list string) :=
  if String.eqb url page_a then Some [page_b; page_c]
  else if String.eqb url page_b then Some [page_c]
  else if String.eqb url page_c then Some [page_b]
  else None.

(** The first request for page [a] fails, any later one would give a page
    linking to [b]. *)
Definition flaky_site (url : string) (k : nat) : option (list string) :=
  if String.eqb url page_a then
    match k with O => None | S _ => Some [page_b] end
  else if String.eqb url page_b then Some []
  else None.

(** Page [a] links to [b] and [c]; the request for [b] fails. *)
Definition broken_site (url : string) (k : nat) : option (list string) :=
  if String.eqb url page_a then Some [page_b; page_c]
  else if String.eqb url page_c then Some [page_d]
  else None.

(** Page [a] links to [b], [c] and [d]; the request for [c] fails, and page
    [b] has an anchor whose href opens a bracket and never closes it. *)
Definition unlucky_site (url : string) (k : nat) : option (list string) :=
  if String.eqb url page_a then Some [page_b; page_c; page_d]
  else if String.eqb url page_b then Some ["http://[::1"]
  else if String.eqb url page_d then Some []
  else None.

(** Page [a] has an anchor whose href opens a bracket and never closes it:
    [urljoin] raises a [ValueError] on it. *)
Definition malformed_site (url : string) (k : nat) : option (list string) :=
  if String.eqb url page_a then Some [page_b; "http://[::1"]
  else if String.eqb url page_b then Some [page_a]
  else None.

End Samples.


(** ** What the rows of [website_links] say *)
Module Rows.
Import Nx Visualize.

(** The links the rows record, as pairs. *)
Definition row_edges (data : list Row) : gset (string * string) :=
  list_to_set (map (fun row => (source_url row, target_url row)) data).

(** The URLs the rows mention. *)
Definition row_nodes (data : list Row) : gset string :=
  list_to_set (flat_map (fun row => [source_url row; target_url row]) data).

(** Every node of the graph carries a [depth] attribute. *)
Definition attributed (g : DiGraph) : Prop :=
  forall n, nodes g !! n <> Some None.

End Rows.

(** ** The crawl as a breadth-first search *)
Module Bfs.
Import Nx Visualize Crawler Rows.

(** The rows [crawl] inserts for the links of a page. *)
Definition new_rows (current_url : string) (current_depth : Z)
    (found_links : list string) : list Row :=
  map (fun link => mkRow current_url link (Some current_depth)) found_links.

(** The queue is in the order of the depths. *)
Definition by_depth (a b : string * Z) : Prop := snd a <= snd b.

(** A walk of [k] edges. *)
Inductive walk (E : gset (string * string)) (u : string)
    : string -> nat -> Prop :=
  | walk_here : walk E u u 0
  | walk_step (v w : string) (k : nat) :
      walk E u v k -> (v, w) ∈ E -> walk E u w (S k).

(** What holds of every state of a crawl from [start_url]: the queue is
    sorted by depth, spans two levels at most and starts no lower than the
    depth of any crawled URL; the URLs with a [depth] attribute are the
    crawled ones; the edges are the rows; an entry of the queue comes from
    an edge; an edge leaves its target crawled no deeper than one level
    below, or pending at that level, or beyond the bound; a crawled URL but
    the first has an edge from the level above. *)
Record bfs_inv (max_depth : Z) (start_url : string) (st : CrawlManager)
    : Prop := mkBfs {
  bfs_sorted : StronglySorted by_depth (urls_to_visit st);
  bfs_span : forall a b,
    a ∈ urls_to_visit st -> b ∈ urls_to_visit st -> snd b <= snd a + 1;
  bfs_nonneg : forall a, a ∈ urls_to_visit st -> 0 <= snd a;
  bfs_crawled : forall u, u ∈ visited_urls st ->
    exists d, depth (graph st) u = Some d /\ 0 <= d <= max_depth /\
      forall a, a ∈ urls_to_visit st -> d <= snd a;
  bfs_uncrawled : forall u, u ∉ visited_urls st -> depth (graph st) u = None;
  bfs_nodes : forall n, has_node (graph st) n = true <->
    n ∈ visited_urls st \/ exists u, (u, n) ∈ edges (graph st);
  bfs_edges : edges (graph st) = row_edges (website_links st);
  bfs_rows : forall row, row ∈ website_links st ->
    exists d, crawl_depth row = Some d /\
      depth (graph st) (source_url row) = Some d;
  bfs_start :
    depth (graph st) start_url = Some 0 \/
    (visited_urls st = ∅ /\ website_links st = [] /\ nodes (graph st) = ∅ /\
     (urls_to_visit st = [(start_url, 0)] \/ urls_to_visit st = []));
  bfs_origin : forall n e, (n, e) ∈ urls_to_visit st ->
    (n = start_url /\ e = 0 /\ visited_urls st = ∅) \/
    exists u, (u, n) ∈ edges (graph st) /\ depth (graph st) u = Some (e - 1);
  bfs_relax : forall u v d,
    (u, v) ∈ edges (graph st) -> depth (graph st) u = Some d ->
    (exists e, depth (graph st) v = Some e /\ e <= d + 1) \/
    ((v ∉ visited_urls st) /\
     ((v, d + 1) ∈ urls_to_visit st \/ max_depth < d + 1));
  bfs_parent : forall v e,
    depth (graph st) v = Some e -> v <> start_url ->
    exists u, (u, v) ∈ edges (graph st) /\ depth (graph st) u = Some (e - 1) }.

End Bfs.

(** ** The crawl and the graph rebuilt from its rows *)
Module Replay.
Import Nx Visualize Crawler Rows.

(** The first depth at which the rows observe a URL. *)
Definition first_observed (data : list Row) (n : string) : option Z :=
  head (observed_depths data n).

(** What holds of the rows of a crawl from [start_url], in the order of
    insertion: the rows observe a crawled URL first at the depth of its
    crawl; a URL observed and not crawled is pending at the depth of its
    first observation, or lies beyond the bound; a pending URL not crawled
    was observed no deeper than its entry; the start URL is the source of a
    row when there is one. *)
Record replay_inv (max_depth : Z) (start_url : string) (st : CrawlManager)
    : Prop := mkReplay {
  replay_crawled : forall n d,
    n <> start_url -> depth (graph st) n = Some d ->
    first_observed (website_links st) n = Some d;
  replay_pending : forall n e,
    n ∉ visited_urls st -> first_observed (website_links st) n = Some e ->
    (n, e) ∈ urls_to_visit st \/ max_depth < e;
  replay_entry : forall n e,
    (n, e) ∈ urls_to_visit st -> n ∉ visited_urls st ->
    (n = start_url /\ visited_urls st = ∅) \/
    exists e0, first_observed (website_links st) n = Some e0 /\ e0 <= e;
  replay_start :
    website_links st = [] \/ exists v, (start_url, v) ∈ edges (graph st) }.

End Replay.

(** ** The graph of one page: [create_single_page_link_graph] *)

(** scrape_rps.py *)
Module ScrapeRps.
Import Nx.

Section SinglePage.

Variable check_bracketed_netloc : string -> bool.
Variable list_of_set : gset string -> list string.

(** [response] is as for [get_links_from_single_page]; the result is [None]
    when a [ValueError] escapes. *)
Definition create_single_page_link_graph (response : option (list string))
    (target_url : string) : option DiGraph :=
  let graph := Nx.empty in
  let graph := add_node graph target_url in
  match Scraper.get_links_from_single_page check_bracketed_netloc list_of_set
          response target_url with
  | None => None
  | Some extracted_links =>
      match extracted_links with
      | [] => Some graph
      | _ =>
          Some (fold_left
                  (fun graph link =>
                     let graph := add_node graph link in
                     add_edge graph target_url link)
                  extracted_links graph)
      end
  end.

End SinglePage.

End ScrapeRps.

(** scrape_to_duckdb.py *)
Module ScrapeToDuckdb.
Import Nx Visualize.

Section SinglePage.

Variable check_bracketed_netloc : string -> bool.
Variable list_of_set : gset string -> list string.

(** The body of [for link in extracted_links], on the graph and
    [data_to_insert]; a row has the two columns of the table. *)
Definition record_link (target_url : string) (acc : DiGraph * list Row)
    (link : string) : DiGraph * list Row :=
  let '(graph, data_to_insert) := acc in
  let graph := add_node graph link in
  let graph := add_edge graph target_url link in
  (graph, (data_to_insert ++ [mkRow target_url link None])%list).

(** [website_links] is the table before the call; [insert_ok] tells whether
    [conn.executemany] succeeds, a [duckdb.Error] being caught and leaving
    the table as it was.  The result is the graph returned and the table
    after the call, or [None] when a [ValueError] escapes. *)
Definition create_single_page_link_graph (response : option (list string))
    (target_url : string) (website_links : list Row) (insert_ok : bool)
    : option (DiGraph * list Row) :=
  let graph := Nx.empty in
  let graph := add_node graph target_url in
  match Scraper.get_links_from_single_page check_bracketed_netloc list_of_set
          response target_url with
  | None => None
  | Some extracted_links =>
      match extracted_links with
      | [] => Some (graph, website_links)
      | _ =>
          let '(graph, data_to_insert) :=
            fold_left (record_link target_url) extracted_links (graph, []) in
          Some (graph,
                if insert_ok then (website_links ++ data_to_insert)%list
                else website_links)
      end
  end.

End SinglePage.

End ScrapeToDuckdb.

(** ** Node labels: [visualize_graph] (visualize_from_db.py) *)
Module Render.
Import PyStr UrlParse.

(** [s[:n]] *)
Definition prefix (n : nat) (s : string) : string := substring 0 n s.

Section Label.

Variable check_bracketed_netloc : string -> bool.

(** [display_label] for the node [node_id]; [None] is a [ValueError] of
    [urlparse]. *)
Definition display_label (node_id : string) : option string :=
  match urlparse check_bracketed_netloc node_id EmptyString with
  | None => None
  | Some parsed_url =>
      let domain_part := netloc parsed_url in
      let path_part := path parsed_url in
      let path_part :=
        if (20 <? String.length path_part)%nat
        then prefix 15 path_part ++ "..." else path_part in
      let display_label := domain_part ++ path_part in
      Some (if (40 <? String.length display_label)%nat
            then prefix 37 display_label ++ "..." else display_label)
  end.

End Label.

(** [depth = data.get('depth', 0)] *)
Definition node_depth (graph : Nx.DiGraph) (node_id : string) : Z :=
  default 0 (Nx.depth graph node_id).

(** The colour of the node [node_id] at [depth]. *)
Definition node_color (start_url node_id : string) (depth : Z) : string :=
  if String.eqb node_id start_url then "red"
  else if depth =? 1 then "#ADD8E6"
  else if depth =? 2 then "#87CEEB"
  else if depth =? 3 then "#6A5ACD"
  else "lightblue".

End Render.

(** ** The pages within reach of the start URL *)
Module Reach.

(** A walk of [k] links, [links url] being the links of the page [url]. *)
Inductive link_walk (links : string -> list string) (u : string)
    : string -> nat -> Prop :=
  | link_walk_here : link_walk links u u 0
  | link_walk_step (v w : string) (k : nat) :
      link_walk links u v k -> w ∈ links v -> link_walk links u w (S k).

End Reach.

(** * Properties *)

Import PyStr UrlParse Scraper Nx Visualize Crawler Samples.

(** ** Graph assembly *)

(** C1 (failing input).  On [shuffled_rows], node [b] is first met as the
    target of a row of depth 1 and keeps depth 2, although the row
    [seed -> b] of depth 0 observes it at depth 1: the depth assigned is the
    one of the first row that mentions the node, not the minimum. *)
Theorem first_seen_depth_wins :
  depth (create_graph_from_duckdb shuffled_rows seed) page_b = Some 2 /\
  minimum (target_depths shuffled_rows page_b) = Some 1 /\
  minimum (observed_depths shuffled_rows page_b) = Some 1.
Proof. vm_compute. repeat split; reflexivity. Qed.

(** C7 (failing input).  On [shuffled_rows], the graph has the edge
    [seed -> b] with the seed at depth 0 and [b] at depth 2, more than one
    below its source. *)
Theorem edge_depth_gap :
  let g := create_graph_from_duckdb shuffled_rows seed in
  (seed, page_b) ∈ edges g /\
  depth g seed = Some 0 /\ depth g page_b = Some 2 /\ ~ (2 <= 0 + 1).
Proof.
  cbv zeta. split; [ | split; [ | split ] ].
  - apply (bool_decide_unpack _). vm_compute. exact I.
  - vm_compute. reflexivity.
  - vm_compute. reflexivity.
  - lia.
Qed.

(** The seed, when it is a node, ends at depth 0. *)
Lemma seed_depth_zero (data : list Row) (start_url : string) :
  has_node (create_graph_from_duckdb data start_url) start_url = true ->
  depth (create_graph_from_duckdb data start_url) start_url = Some 0.
Proof.
  unfold create_graph_from_duckdb.
  destruct (has_node (fold_left add_row data Nx.empty) start_url) eqn:E.
  - intros _. unfold depth, add_node_depth. simpl.
    rewrite lookup_insert_eq. reflexivity.
  - rewrite E. discriminate.
Qed.

(** ** Link extraction on single hrefs *)

(** C5 (failing input).  An accepted href with an empty path keeps its
    fragment: [urljoin(absolute_url, '')] returns [absolute_url] as it is. *)
Theorem fragment_kept_on_empty_path (check : string -> bool) :
  clean_link check "http://example.com/" "http://example.com#top"
    = Some (Some "http://example.com#top") /\
  (path <$> urlparse check "http://example.com#top" "") = Some "" /\
  (fragment <$> urlparse check "http://example.com#top" "") = Some "top".
Proof. vm_compute. repeat split; reflexivity. Qed.

(** C8 (failing input).  A path that begins with two slashes is read by
    [urljoin] as a network location: the key produced for
    [http://example.com//cdn.example.org//x] is [http://cdn.example.org//x],
    and the key produced for that one is [http://x]. *)
Theorem normalization_not_idempotent (check : string -> bool) :
  clean_link check "http://example.com/" "http://example.com//cdn.example.org//x"
    = Some (Some "http://cdn.example.org//x") /\
  clean_link check "http://example.com/" "http://cdn.example.org//x"
    = Some (Some "http://x").
Proof. vm_compute. split; reflexivity. Qed.

(** ** Strings: what the pieces of a cut are made of *)

Lemma append_nil (y : string) : "" ++ y = y.
Proof. reflexivity. Qed.

Lemma append_cons (a : ascii) (x y : string) :
  String a x ++ y = String a (x ++ y).
Proof. reflexivity. Qed.

Section StringFacts.

Variable q : ascii -> bool.

Lemma forallb_app (x y : string) :
  PyStr.forallb q (x ++ y) = (PyStr.forallb q x && PyStr.forallb q y)%bool.
Proof.
  induction x as [|a x IH].
  - reflexivity.
  - rewrite append_cons. cbn [PyStr.forallb]. rewrite IH. apply andb_assoc.
Qed.

Lemma break_at_app (p : ascii -> bool) (s : string) :
  (break_at p s).1 ++ (break_at p s).2 = s.
Proof.
  induction s as [|a s IH]; cbn [break_at].
  - reflexivity.
  - destruct (p a); [reflexivity|].
    destruct (break_at p s) as [l r]. cbn [fst snd] in *.
    rewrite append_cons, IH. reflexivity.
Qed.

Lemma forallb_break_at (p : ascii -> bool) (s : string) :
  PyStr.forallb q s = true ->
  PyStr.forallb q (break_at p s).1 = true /\
  PyStr.forallb q (break_at p s).2 = true.
Proof.
  intros H. rewrite <- (break_at_app p s), forallb_app in H.
  apply andb_true_iff in H. exact H.
Qed.

Lemma forallb_remove (s : string) :
  PyStr.forallb (fun a => negb (q a)) (PyStr.remove q s) = true.
Proof.
  induction s as [|a s IH]; cbn [PyStr.remove PyStr.forallb]; [reflexivity|].
  destruct (q a) eqn:E; [exact IH|]. cbn [PyStr.forallb]. rewrite E, IH.
  reflexivity.
Qed.

Lemma remove_id (s : string) :
  PyStr.forallb (fun a => negb (q a)) s = true -> PyStr.remove q s = s.
Proof.
  induction s as [|a s IH]; cbn [PyStr.remove PyStr.forallb]; [reflexivity|].
  intros H. apply andb_true_iff in H as [Ha Hs].
  destruct (q a); [discriminate|]. rewrite (IH Hs). reflexivity.
Qed.

Lemma forallb_remove_keep (p : ascii -> bool) (s : string) :
  PyStr.forallb q s = true -> PyStr.forallb q (PyStr.remove p s) = true.
Proof.
  induction s as [|a s IH]; cbn [PyStr.remove PyStr.forallb]; [reflexivity|].
  intros H. apply andb_true_iff in H as [Ha Hs].
  destruct (p a); [exact (IH Hs)|]. cbn [PyStr.forallb].
  rewrite Ha, (IH Hs). reflexivity.
Qed.

Lemma forallb_lstrip (p : ascii -> bool) (s : string) :
  PyStr.forallb q s = true -> PyStr.forallb q (lstrip p s) = true.
Proof.
  induction s as [|a s IH]; cbn [lstrip PyStr.forallb]; [reflexivity|].
  intros H. destruct (p a); [|exact H].
  apply andb_true_iff in H as [_ Hs]. exact (IH Hs).
Qed.

Lemma rbreak_app (c : ascii) (s : string) :
  (rbreak c s).1 ++ (rbreak c s).2 = s.
Proof.
  induction s as [|a s IH]; cbn [rbreak]; [reflexivity|].
  destruct (rbreak c s) as [h t]. cbn [fst snd] in IH.
  destruct (truthy h) eqn:Eh; cbn [fst snd].
  - rewrite append_cons, IH. reflexivity.
  - destruct h; [|discriminate]. rewrite append_nil in IH. subst t.
    destruct (Ascii.eqb a c); reflexivity.
Qed.

Lemma forallb_rbreak (c : ascii) (s : string) :
  PyStr.forallb q s = true ->
  PyStr.forallb q (rbreak c s).1 = true /\
  PyStr.forallb q (rbreak c s).2 = true.
Proof.
  intros H. rewrite <- (rbreak_app c s), forallb_app in H.
  apply andb_true_iff in H. exact H.
Qed.

Lemma forallb_split (c : ascii) (s : string) :
  PyStr.forallb q s = true ->
  Forall (fun w => PyStr.forallb q w = true) (PyStr.split c s).
Proof.
  induction s as [|a s IH]; cbn [PyStr.split PyStr.forallb].
  - intros _. constructor; [reflexivity|constructor].
  - intros H. apply andb_true_iff in H as [Ha Hs]. specialize (IH Hs).
    destruct (Ascii.eqb a c).
    + constructor; [reflexivity|exact IH].
    + destruct (PyStr.split c s) as [|w ws].
      * constructor; [cbn [PyStr.forallb]; rewrite Ha; reflexivity|constructor].
      * inversion IH as [|? ? Hw Hws]; subst.
        constructor; [cbn [PyStr.forallb]; rewrite Ha, Hw; reflexivity|exact Hws].
Qed.

Lemma forallb_join (c : ascii) (l : list string) :
  q c = true ->
  Forall (fun w => PyStr.forallb q w = true) l ->
  PyStr.forallb q (join c l) = true.
Proof.
  intros Hc. induction l as [|w ws IH]; intros H; cbn [join].
  - reflexivity.
  - inversion H as [|? ? Hw Hws]; subst. destruct ws as [|w' ws'].
    + exact Hw.
    + rewrite forallb_app, Hw. cbn [PyStr.forallb andb]. rewrite Hc.
      apply (IH Hws).
Qed.

End StringFacts.


Lemma contains_lacks (c : ascii) (s : string) :
  contains c s = negb (PyStr.forallb (lacks c) s).
Proof.
  induction s as [|a s IH]; cbn [contains PyStr.forallb]; [reflexivity|].
  unfold lacks at 1. destruct (Ascii.eqb a c); [reflexivity|exact IH].
Qed.

Lemma lacks_contains (c : ascii) (s : string) :
  PyStr.forallb (lacks c) s = true <-> contains c s = false.
Proof.
  rewrite contains_lacks. destruct (PyStr.forallb (lacks c) s); cbn; split; congruence.
Qed.

Lemma break_at_fst_none (p : ascii -> bool) (s : string) :
  PyStr.forallb (fun a => negb (p a)) (break_at p s).1 = true.
Proof.
  induction s as [|a s IH]; cbn [break_at]; [reflexivity|].
  destruct (p a) eqn:E; [reflexivity|].
  destruct (break_at p s) as [l r]. cbn [fst PyStr.forallb] in *.
  rewrite E, IH. reflexivity.
Qed.

Lemma break_at_snd_head (p : ascii -> bool) (s : string) :
  match (break_at p s).2 with
  | EmptyString => True
  | String a _ => p a = true
  end.
Proof.
  induction s as [|a s IH]; cbn [break_at]; [exact I|].
  destruct (p a) eqn:E; [exact E|].
  destruct (break_at p s) as [l r]. exact IH.
Qed.

Lemma break_at_none (p : ascii -> bool) (s : string) :
  PyStr.forallb (fun a => negb (p a)) s = true -> break_at p s = (s, "").
Proof.
  induction s as [|a s IH]; cbn [break_at PyStr.forallb]; [reflexivity|].
  intros H. apply andb_true_iff in H as [Ha Hs].
  destruct (p a); [discriminate|]. rewrite (IH Hs). reflexivity.
Qed.

Lemma break_at_head (p : ascii -> bool) (a : ascii) (s : string) :
  p a = false ->
  exists l, (break_at p (String a s)).1 = String a l.
Proof.
  intros E. cbn [break_at]. rewrite E. destruct (break_at p s) as [l r].
  exists l. reflexivity.
Qed.

Lemma lacks_sym (c a : ascii) : negb (Ascii.eqb c a) = lacks c a.
Proof. unfold lacks. rewrite Ascii.eqb_sym. reflexivity. Qed.

Lemma forallb_ext (p q : ascii -> bool) (s : string) :
  (forall a, p a = q a) -> PyStr.forallb p s = PyStr.forallb q s.
Proof.
  intros H. induction s as [|a s IH]; cbn [PyStr.forallb]; [reflexivity|].
  rewrite H, IH. reflexivity.
Qed.

(** *** [cut]: the two sides of the first [c] *)

Lemma cut_none (c : ascii) (s : string) :
  contains c s = false -> cut c s = (s, "").
Proof.
  intros H. apply lacks_contains in H. unfold cut, split_once.
  rewrite break_at_none; [reflexivity|].
  rewrite (forallb_ext _ (lacks c)); [exact H|]. intros a. apply lacks_sym.
Qed.

Lemma cut_forallb (q : ascii -> bool) (c : ascii) (s : string) :
  PyStr.forallb q s = true ->
  PyStr.forallb q (cut c s).1 = true /\ PyStr.forallb q (cut c s).2 = true.
Proof.
  intros H. unfold cut, split_once.
  destruct (forallb_break_at q (Ascii.eqb c) s H) as [Hl Hr].
  destruct (break_at (Ascii.eqb c) s) as [l [|a r]]; cbn [fst snd] in *.
  - split; [exact H|reflexivity].
  - split; [exact Hl|]. cbn [PyStr.forallb] in Hr.
    apply andb_true_iff in Hr as [_ Hr]. exact Hr.
Qed.

Lemma cut_fst_lacks (c : ascii) (s : string) :
  contains c (cut c s).1 = false.
Proof.
  apply lacks_contains. unfold cut, split_once.
  pose proof (break_at_fst_none (Ascii.eqb c) s) as H.
  rewrite (forallb_ext _ (lacks c)) in H by (intros a; apply lacks_sym).
  destruct (break_at (Ascii.eqb c) s) as [l [|a r]] eqn:E; cbn [fst] in *.
  - pose proof (break_at_app (Ascii.eqb c) s) as Ha. rewrite E in Ha.
    cbn [fst snd] in Ha. rewrite <- Ha.
    rewrite forallb_app, H. reflexivity.
  - exact H.
Qed.

(** The head of the piece before [c]: the head of [s] when it is not [c],
    and nothing when it is. *)
Lemma cut_fst_head (c a : ascii) (s : string) :
  (cut c (String a s)).1 =
    if Ascii.eqb c a then EmptyString else String a (cut c s).1.
Proof.
  unfold cut, split_once. cbn [break_at].
  destruct (Ascii.eqb c a); [reflexivity|].
  destruct (break_at (Ascii.eqb c) s) as [l [|b r]]; reflexivity.
Qed.

Lemma starts_slash_inv (s : string) :
  starts_slash s = true -> exists r, s = String "/" r.
Proof.
  destruct s as [|a r]; [discriminate|]. cbn [starts_slash]. intros H.
  exists r. destruct a as [[] [] [] [] [] [] [] []]; try discriminate.
  reflexivity.
Qed.

Lemma starts_slashslash_inv (s : string) :
  starts_slashslash s = true -> exists r, s = String "/" (String "/" r).
Proof.
  destruct s as [|a [|b r]]; cbn [starts_slashslash]; intros H.
  - discriminate.
  - destruct a as [[] [] [] [] [] [] [] []]; discriminate.
  - exists r. destruct a as [[] [] [] [] [] [] [] []]; try discriminate.
    destruct b as [[] [] [] [] [] [] [] []]; try discriminate. reflexivity.
Qed.

(** *** The scheme test on a string that starts with a slash *)

Lemma split_scheme_slash (s d : string) :
  starts_slash s = true -> split_scheme s d = (d, s).
Proof.
  intros H. apply starts_slash_inv in H as [r ->]. rename r into s.
  unfold split_scheme, split_once.
  destruct (break_at_head (Ascii.eqb ":") "/" s eq_refl) as [l El].
  destruct (break_at (Ascii.eqb ":") (String "/" s)) as [l' r].
  cbn [fst] in El. subst l'. destruct r; reflexivity.
Qed.

Lemma split_scheme_forallb (q : ascii -> bool) (s d : string) :
  PyStr.forallb q s = true -> PyStr.forallb q (split_scheme s d).2 = true.
Proof.
  intros H. unfold split_scheme, split_once.
  destruct (forallb_break_at q (Ascii.eqb ":") s H) as [_ Hr].
  destruct (break_at (Ascii.eqb ":") s) as [l [|a r]]; cbn [fst snd] in *.
  - exact H.
  - destruct l as [|b l]; [exact H|].
    destruct (is_ascii_alpha b && PyStr.forallb scheme_char (String b l))%bool.
    + cbn [snd]. cbn [PyStr.forallb] in Hr.
      apply andb_true_iff in Hr as [_ Hr]. exact Hr.
    + exact H.
Qed.

(** *** The network location *)

Lemma split_netloc_checked_shape (check : string -> bool)
    (q : ascii -> bool) (url nl rest : string) :
  split_netloc_checked check url = Some (nl, rest) ->
  (PyStr.forallb q url = true ->
   PyStr.forallb q nl = true /\ PyStr.forallb q rest = true) /\
  PyStr.forallb (fun a => negb (netloc_delim a)) nl = true /\
  (truthy nl = true ->
   match rest with
   | EmptyString => True
   | String a _ => netloc_delim a = true
   end).
Proof.
  unfold split_netloc_checked.
  destruct (starts_slashslash url) eqn:Ess.
  - apply starts_slashslash_inv in Ess as [u0 ->].
    cbn [_splitnetloc].
    pose proof (break_at_fst_none netloc_delim u0) as Hn.
    pose proof (break_at_snd_head netloc_delim u0) as Hh.
    pose proof (forallb_break_at q netloc_delim u0) as Hq.
    destruct (break_at netloc_delim u0) as [l r]. cbn [fst snd] in *.
    intros H.
    assert (E : nl = l /\ rest = r).
    { destruct ((contains "[" l && negb (contains "]" l))
                || (contains "]" l && negb (contains "[" l)))%bool;
        [discriminate|].
      destruct (contains "[" l && contains "]" l)%bool.
      - destruct (check l); [|discriminate]. injection H as <- <-. split; reflexivity.
      - injection H as <- <-. split; reflexivity. }
    destruct E as [-> ->]. split; [|split].
    + intros Hu. cbn [PyStr.forallb] in Hu.
      apply andb_true_iff in Hu as [_ Hu]. apply andb_true_iff in Hu as [_ Hu].
      exact (Hq Hu).
    + exact Hn.
    + intros _. exact Hh.
  - intros H. injection H as <- <-. split; [|split].
    + intros Hu. split; [reflexivity|exact Hu].
    + reflexivity.
    + discriminate.
Qed.

Lemma forallb_impl (p q : ascii -> bool) (s : string) :
  (forall a, p a = true -> q a = true) ->
  PyStr.forallb p s = true -> PyStr.forallb q s = true.
Proof.
  intros H. induction s as [|a s IH]; cbn [PyStr.forallb]; [reflexivity|].
  intros Hs. apply andb_true_iff in Hs as [Ha Hs].
  rewrite (H a Ha), (IH Hs). reflexivity.
Qed.

Lemma netloc_delim_cases (a : ascii) :
  netloc_delim a = true -> a = "/"%char \/ a = "?"%char \/ a = "#"%char.
Proof.
  unfold netloc_delim. intros H.
  apply orb_true_iff in H as [H|H]; [apply orb_true_iff in H as [H|H]|];
    apply Ascii.eqb_eq in H; auto.
Qed.

Lemma not_delim_lacks (c : ascii) (s : string) :
  netloc_delim c = true ->
  PyStr.forallb (fun a => negb (netloc_delim a)) s = true ->
  contains c s = false.
Proof.
  intros Hc H. apply lacks_contains. revert H. apply forallb_impl.
  intros a Ha. unfold lacks. destruct (Ascii.eqb a c) eqn:E; [|reflexivity].
  apply Ascii.eqb_eq in E. subst a. rewrite Hc in Ha. discriminate.
Qed.

(** *** [urlsplit]: what the path and the network location are made of *)

Lemma urlsplit_shape (check : string -> bool) (url d : string) (r : SplitResult) :
  urlsplit check url d = Some r ->
  contains "?" (s_path r) = false /\
  contains "#" (s_path r) = false /\
  PyStr.forallb (fun a => negb (unsafe_url_byte a)) (s_path r) = true /\
  contains "?" (s_netloc r) = false /\
  (truthy (s_netloc r) = true ->
   s_path r = "" \/ starts_slash (s_path r) = true).
Proof.
  unfold urlsplit.
  pose proof (forallb_remove unsafe_url_byte (lstrip c0_control_or_space url))
    as Hsafe.
  set (u0 := PyStr.remove unsafe_url_byte (lstrip c0_control_or_space url)) in *.
  set (d' := PyStr.remove unsafe_url_byte (strip c0_control_or_space d)).
  pose proof (split_scheme_forallb _ u0 d' Hsafe) as Hs1.
  destruct (split_scheme u0 d') as [sch u1]. cbn [snd] in Hs1.
  destruct (split_netloc_checked check u1) as [[nl u2]|] eqn:En; [|discriminate].
  destruct (split_netloc_checked_shape check
              (fun a => negb (unsafe_url_byte a)) u1 nl u2 En)
    as (Hq & Hnl & Hhead).
  destruct (Hq Hs1) as [_ Hs2].
  pose proof (cut_forallb (fun a => negb (unsafe_url_byte a)) "#" u2 Hs2)
    as [Hs3 _].
  pose proof (cut_fst_lacks "#" u2) as Hh3.
  pose proof (cut_fst_head "#") as Hc3.
  destruct (cut "#" u2) as [u3 frag] eqn:E3. cbn [fst] in *.
  pose proof (cut_forallb (fun a => negb (unsafe_url_byte a)) "?" u3 Hs3)
    as [Hs4 _].
  pose proof (cut_fst_lacks "?" u3) as Hq4.
  apply lacks_contains in Hh3.
  pose proof (cut_forallb (lacks "#") "?" u3 Hh3) as [Hh4 _].
  apply lacks_contains in Hh4.
  pose proof (cut_fst_head "?") as Hc4.
  destruct (cut "?" u3) as [u4 qry] eqn:E4. cbn [fst] in *.
  intros H. injection H as <-. cbn [s_path s_netloc].
  split; [exact Hq4|]. split; [exact Hh4|]. split; [exact Hs4|].
  split; [apply (not_delim_lacks "?" nl eq_refl Hnl)|].
  intros Ht. specialize (Hhead Ht).
  destruct u2 as [|a u2].
  - vm_compute in E3. injection E3 as <- <-.
    vm_compute in E4. injection E4 as <- <-. left. reflexivity.
  - specialize (Hc3 a u2). rewrite E3 in Hc3. cbn [fst] in Hc3.
    apply netloc_delim_cases in Hhead as [-> | [-> | ->]]; cbn in Hc3; subst u3.
    + specialize (Hc4 "/"%char (cut "#" u2).1). rewrite E4 in Hc4.
      cbn in Hc4. subst u4. right. reflexivity.
    + specialize (Hc4 "?"%char (cut "#" u2).1). rewrite E4 in Hc4.
      cbn in Hc4. subst u4. left. reflexivity.
    + vm_compute in E4. injection E4 as <- <-. left. reflexivity.
Qed.

(** *** [_splitparams] and [urlparse] *)

Lemma split_once_cut (c : ascii) (s a b : string) :
  split_once c s = Some (a, b) -> cut c s = (a, b).
Proof. intros H. unfold cut. rewrite H. reflexivity. Qed.

Lemma splitparams_forallb (q : ascii -> bool) (s : string) :
  PyStr.forallb q s = true ->
  PyStr.forallb q (_splitparams s).1 = true /\
  PyStr.forallb q (_splitparams s).2 = true.
Proof.
  intros H. unfold _splitparams. destruct (contains "/" s).
  - destruct (forallb_rbreak q "/" s H) as [Hh Ht].
    destruct (rbreak "/" s) as [h t]. cbn [fst snd] in *.
    destruct (split_once ";" t) as [[a b]|] eqn:E; cbn [fst snd].
    + pose proof (cut_forallb q ";" t Ht) as Hc.
      rewrite (split_once_cut _ _ _ _ E) in Hc. cbn [fst snd] in Hc.
      destruct Hc as [Ha Hb]. split; [|exact Hb].
      rewrite forallb_app, Hh, Ha. reflexivity.
    + split; [exact H|reflexivity].
  - apply cut_forallb, H.
Qed.

Lemma rbreak_slash_head (s : string) :
  starts_slash s = true -> starts_slash (rbreak "/" s).1 = true.
Proof.
  intros H. apply starts_slash_inv in H as [r ->]. cbn [rbreak].
  destruct (rbreak "/" r) as [h t]. destruct (truthy h); reflexivity.
Qed.

Lemma splitparams_slash (s : string) :
  starts_slash s = true -> starts_slash (_splitparams s).1 = true.
Proof.
  intros H. unfold _splitparams.
  pose proof (rbreak_slash_head s H) as Hh.
  destruct (starts_slash_inv s H) as [r ->].
  change (contains "/" (String "/" r)) with true. cbv iota.
  destruct (rbreak "/" (String "/" r)) as [h t]. cbn [fst] in Hh.
  destruct (split_once ";" t) as [[a b]|]; cbn [fst].
  - apply starts_slash_inv in Hh as [h' ->]. reflexivity.
  - reflexivity.
Qed.

Lemma urlparse_shape (check : string -> bool) (url d : string) (r : ParseResult) :
  urlparse check url d = Some r ->
  contains "?" (path r) = false /\
  contains "#" (path r) = false /\
  PyStr.forallb (fun a => negb (unsafe_url_byte a)) (path r) = true /\
  contains "?" (netloc r) = false /\
  contains "?" (params r) = false /\
  (truthy (netloc r) = true -> path r = "" \/ starts_slash (path r) = true).
Proof.
  unfold urlparse.
  destruct (urlsplit check url d) as [sr|] eqn:Es; [|discriminate].
  destruct (urlsplit_shape check url d sr Es) as (Hq & Hh & Hs & Hn & Hp).
  apply lacks_contains in Hq. apply lacks_contains in Hh.
  pose proof (splitparams_forallb _ (s_path sr) Hq) as [Hq1 Hq2].
  pose proof (splitparams_forallb _ (s_path sr) Hh) as [Hh1 _].
  pose proof (splitparams_forallb _ (s_path sr) Hs) as [Hs1 _].
  pose proof (splitparams_slash (s_path sr)) as Hsl.
  destruct (mem (s_scheme sr) uses_params && contains ";" (s_path sr))%bool eqn:Eb.
  - destruct (_splitparams (s_path sr)) as [p prm]. cbn [fst snd] in *.
    intros H. injection H as <-. cbn [path netloc params].
    split; [apply lacks_contains, Hq1|]. split; [apply lacks_contains, Hh1|].
    split; [exact Hs1|]. split; [exact Hn|].
    split; [apply lacks_contains, Hq2|].
    intros Ht. destruct (Hp Ht) as [E|E].
    + rewrite E in Eb. rewrite andb_false_r in Eb. discriminate.
    + right. apply Hsl, E.
  - intros H. injection H as <-. cbn [path netloc params].
    split; [apply lacks_contains, Hq|]. split; [apply lacks_contains, Hh|].
    split; [exact Hs|]. split; [exact Hn|]. split; [reflexivity|exact Hp].
Qed.

(** *** Parsing a path again, as [urljoin] does with its second argument *)

Lemma http_or_https (sch : string) :
  mem sch ["http"; "https"] = true -> sch = "http" \/ sch = "https".
Proof.
  unfold mem. cbn [existsb]. intros H.
  apply orb_true_iff in H as [H|H]; [left; apply String.eqb_eq, H|].
  apply orb_true_iff in H as [H|H]; [right; apply String.eqb_eq, H|discriminate].
Qed.

Lemma split_netloc_of_path (check : string -> bool) (P nl rest : string) :
  split_netloc_checked check P = Some (nl, rest) ->
  starts_slash P = true -> contains "?" P = false -> contains "#" P = false ->
  truthy nl = false -> P <> "//" -> starts_slash rest = true.
Proof.
  intros H Hs Hq Hh Hn Hne.
  unfold split_netloc_checked in H.
  destruct (starts_slashslash P) eqn:Ess.
  - apply starts_slashslash_inv in Ess as [R ->]. cbn [_splitnetloc] in H.
    pose proof (break_at_app netloc_delim R) as Ha.
    pose proof (break_at_snd_head netloc_delim R) as Hd.
    destruct (break_at netloc_delim R) as [l r]. cbn [fst snd] in *.
    assert (E : nl = l /\ rest = r).
    { destruct ((contains "[" l && negb (contains "]" l))
                || (contains "]" l && negb (contains "[" l)))%bool;
        [discriminate|].
      destruct (contains "[" l && contains "]" l)%bool.
      - destruct (check l); [|discriminate]. injection H as <- <-. split; reflexivity.
      - injection H as <- <-. split; reflexivity. }
    destruct E as [-> ->]. destruct l; [|discriminate].
    rewrite append_nil in Ha. subst r.
    destruct R as [|a R]; [contradiction Hne; reflexivity|].
    apply netloc_delim_cases in Hd as [-> | [-> | ->]].
    + reflexivity.
    + discriminate.
    + discriminate.
  - injection H as <- <-. exact Hs.
Qed.

Lemma urlparse_of_path (check : string -> bool) (P sch : string) (u : ParseResult) :
  starts_slash P = true ->
  contains "?" P = false -> contains "#" P = false ->
  PyStr.forallb (fun a => negb (unsafe_url_byte a)) P = true ->
  mem sch ["http"; "https"] = true ->
  urlparse check P sch = Some u ->
  scheme u = sch /\ query u = "" /\ fragment u = "" /\
  contains "?" (netloc u) = false /\
  contains "?" (path u) = false /\
  contains "?" (params u) = false /\
  (truthy (netloc u) = false -> P <> "//" -> starts_slash (path u) = true).
Proof.
  intros Hs Hq Hh Hsafe Hsch.
  unfold urlparse, urlsplit.
  assert (E1 : lstrip c0_control_or_space P = P).
  { destruct (starts_slash_inv P Hs) as [r ->]. reflexivity. }
  rewrite E1, (remove_id unsafe_url_byte P Hsafe).
  assert (E2 : PyStr.remove unsafe_url_byte (strip c0_control_or_space sch) = sch
               /\ mem sch uses_params = true).
  { destruct (http_or_https sch Hsch) as [-> | ->]; split; reflexivity. }
  destruct E2 as [E2 E3]. rewrite E2, (split_scheme_slash P sch Hs).
  destruct (split_netloc_checked check P) as [[nl rest]|] eqn:En; [|discriminate].
  destruct (split_netloc_checked_shape check (lacks "?") P nl rest En)
    as (Hq1 & _ & _).
  destruct (split_netloc_checked_shape check (lacks "#") P nl rest En)
    as (Hh1 & _ & _).
  apply lacks_contains in Hq. apply lacks_contains in Hh.
  destruct (Hq1 Hq) as [Hqn Hqr]. destruct (Hh1 Hh) as [_ Hhr].
  apply lacks_contains in Hhr. rewrite (cut_none "#" rest Hhr).
  pose proof Hqr as Hqr'. apply lacks_contains in Hqr'.
  rewrite (cut_none "?" rest Hqr'). cbn [s_scheme s_path s_netloc s_query s_fragment].
  rewrite E3. cbn [andb].
  pose proof (splitparams_forallb _ rest Hqr) as [Hp1 Hp2].
  pose proof (splitparams_slash rest) as Hsl.
  pose proof (split_netloc_of_path check P nl rest En Hs
                (proj1 (lacks_contains _ _) Hq) (proj1 (lacks_contains _ _) Hh))
    as Hrest.
  destruct (contains ";" rest).
  - destruct (_splitparams rest) as [p prm]. cbn [fst snd] in *.
    intros H. injection H as <-. cbn.
    repeat split; try (apply lacks_contains; assumption).
    intros Hn Hne. apply Hsl, Hrest; assumption.
  - intros H. injection H as <-. cbn.
    repeat split; try (apply lacks_contains; assumption).
    intros Hn Hne. apply Hrest; assumption.
Qed.

(** *** Putting a URL together: no question mark without a query *)

Lemma lacks_append (c : ascii) (x y : string) :
  contains c (x ++ y) = (contains c x || contains c y)%bool.
Proof.
  rewrite !contains_lacks, forallb_app.
  destruct (PyStr.forallb (lacks c) x), (PyStr.forallb (lacks c) y); reflexivity.
Qed.

Lemma urlunparse_lacks_query (r : ParseResult) :
  query r = "" -> fragment r = "" ->
  contains "?" (scheme r) = false -> contains "?" (netloc r) = false ->
  contains "?" (path r) = false -> contains "?" (params r) = false ->
  contains "?" (urlunparse r) = false.
Proof.
  destruct r as [sch nl p prm qry frag]. cbn [query fragment scheme netloc path params].
  intros -> -> Hs Hn Hp Hm. unfold urlunparse, urlunsplit.
  cbn [query fragment scheme netloc path params truthy].
  set (url := if truthy prm then p ++ ";" ++ prm else p).
  assert (Hu : contains "?" url = false).
  { unfold url. destruct (truthy prm); [|exact Hp].
    rewrite !lacks_append, Hp, Hm. reflexivity. }
  clearbody url.
  assert (Hu' : contains "?" (if (truthy url && negb (starts_slash url))%bool
                              then String "/" url else url) = false).
  { destruct (truthy url && negb (starts_slash url))%bool; [|exact Hu].
    cbn [contains]. exact Hu. }
  destruct (truthy nl || truthy sch && mem sch uses_netloc
            && negb (starts_slashslash url))%bool;
    destruct (truthy sch);
    rewrite ?lacks_append, ?Hs, ?Hn, ?Hu, ?Hu'; reflexivity.
Qed.

Lemma Forall_removelast {A : Type} (Q : A -> Prop) (l : list A) :
  Forall Q l -> Forall Q (removelast l).
Proof.
  induction 1 as [|x l Hx Hl IH]; cbn [removelast]; [constructor|].
  destruct l; [constructor|]. constructor; assumption.
Qed.

Lemma resolve_forall (Q : string -> Prop) (segments : list string) :
  forall resolved,
    Forall Q segments -> Forall Q resolved -> Forall Q (resolve segments resolved).
Proof.
  induction segments as [|seg rest IH]; intros resolved Hs Hr; cbn [resolve].
  - exact Hr.
  - inversion Hs as [|? ? Hseg Hrest]; subst.
    destruct (String.eqb seg ".."); [apply IH; [exact Hrest|apply Forall_removelast, Hr]|].
    destruct (String.eqb seg "."); [apply IH; assumption|].
    apply IH; [exact Hrest|]. apply Forall_app. split; [exact Hr|].
    constructor; [exact Hseg|constructor].
Qed.

Lemma resolved_path_lacks_query (segments : list string) :
  Forall (fun w => PyStr.forallb (lacks "?") w = true) segments ->
  contains "?" (resolved_path segments) = false.
Proof.
  intros H. unfold resolved_path.
  set (r := resolve segments []).
  assert (Hr : Forall (fun w => PyStr.forallb (lacks "?") w = true) r).
  { apply resolve_forall; [exact H|constructor]. }
  clearbody r.
  set (r' := if (String.eqb (List.last segments "") "."
                 || String.eqb (List.last segments "") "..")%bool
             then (r ++ [""])%list else r).
  assert (Hr' : Forall (fun w => PyStr.forallb (lacks "?") w = true) r').
  { unfold r'. destruct (_ || _)%bool; [|exact Hr].
    apply Forall_app. split; [exact Hr|]. constructor; [reflexivity|constructor]. }
  clearbody r'.
  pose proof (forallb_join (lacks "?") "/" r' eq_refl Hr') as Hj.
  apply lacks_contains in Hj.
  destruct (truthy (join "/" r')); [exact Hj|reflexivity].
Qed.

(** The key [urljoin] builds from a parsed URL and its own path has no
    question mark, and depends on the scheme and the network location
    only, unless the path is empty or [//]. *)
Lemma urljoin_path_key (check : string -> bool) (b u : ParseResult) :
  mem (scheme b) ["http"; "https"] = true ->
  contains "?" (netloc b) = false ->
  starts_slash (path b) = true ->
  contains "?" (path b) = false -> contains "#" (path b) = false ->
  PyStr.forallb (fun a => negb (unsafe_url_byte a)) (path b) = true ->
  path b <> "//" ->
  urlparse check (path b) (scheme b) = Some u ->
  contains "?" (urljoin_parsed b u (path b)) = false /\
  forall b',
    scheme b' = scheme b -> netloc b' = netloc b ->
    urljoin_parsed b' u (path b) = urljoin_parsed b u (path b).
Proof.
  intros Hsch Hnb Hs Hq Hh Hsafe Hne Hu.
  destruct (urlparse_of_path check (path b) (scheme b) u Hs Hq Hh Hsafe Hsch Hu)
    as (Es & Eq & Ef & Hn & Hp & Hm & Hpath).
  assert (Hrel : mem (scheme b) uses_relative = true
                 /\ mem (scheme b) uses_netloc = true
                 /\ contains "?" (scheme b) = false).
  { destruct (http_or_https _ Hsch) as [E|E]; rewrite E; repeat split; reflexivity. }
  destruct Hrel as (Hrel & Hnet & Hqs).
  unfold urljoin_parsed.
  rewrite Es, String.eqb_refl, Hrel, Hnet. cbn [negb orb andb].
  destruct (truthy (netloc u)) eqn:Et.
  - split.
    + apply urlunparse_lacks_query; try assumption. rewrite Es. exact Hqs.
    + intros b' E1 E2. rewrite E1, String.eqb_refl. reflexivity.
  - specialize (Hpath eq_refl Hne).
    destruct (starts_slash_inv _ Hpath) as [p' Ep]. rewrite Ep.
    cbn [truthy negb andb starts_slash]. rewrite <- Ep.
    split.
    + apply urlunparse_lacks_query; cbn [query fragment scheme netloc path params];
        try assumption.
      apply resolved_path_lacks_query, forallb_split, lacks_contains, Hp.
    + intros b' E1 E2. rewrite E1, String.eqb_refl, E2. reflexivity.
Qed.

Lemma urljoin_unfold (check : string -> bool) (base url : string) (b : ParseResult) :
  truthy base = true -> truthy url = true ->
  urlparse check base "" = Some b ->
  urljoin check base url =
    match urlparse check url (scheme b) with
    | None => None
    | Some u => Some (urljoin_parsed b u url)
    end.
Proof.
  intros Hb Hu Hp. unfold urljoin. rewrite Hb, Hu, Hp. reflexivity.
Qed.

Lemma parsed_netloc_truthy (check : string -> bool) (url : string) (p : ParseResult) :
  urlparse check url "" = Some p -> truthy (netloc p) = true -> truthy url = true.
Proof.
  destruct url; [|reflexivity]. intros H. vm_compute in H. injection H as <-.
  intros Hn. exact Hn.
Qed.

(** C10 (counterexample).  The resolved URL [http://example.com//?q=1] has
    the non-empty path [//], and its key keeps the query. *)
Lemma query_kept_on_double_slash_path :
  ~ (forall url href absolute parsed key,
       urljoin any_bracketed_netloc url href = Some absolute ->
       urlparse any_bracketed_netloc absolute "" = Some parsed ->
       path parsed <> "" ->
       clean_link any_bracketed_netloc url href = Some (Some key) ->
       contains "?" key = false).
Proof.
  intros H.
  specialize (H "http://example.com/" "http://example.com//?q=1"
                "http://example.com//?q=1"
                (mkParse "http" "example.com" "//" "" "q=1" "")
                "http://example.com//?q=1").
  assert (X : contains "?" "http://example.com//?q=1" = false).
  { apply H; [vm_compute; reflexivity..| |vm_compute; reflexivity].
    cbn [path]. discriminate. }
  vm_compute in X. discriminate.
Qed.

(** C10 (amended).  For an accepted href whose resolved URL has a path other
    than the empty one and [//], the key has no question mark, hence no
    query; and an accepted href whose resolved URL has the same scheme,
    network location and path gets the same key, whatever its query. *)
Theorem query_discarded (check : string -> bool)
    (url1 href1 url2 href2 abs1 abs2 : string) (p1 p2 : ParseResult)
    (key : string) :
  urljoin check url1 href1 = Some abs1 ->
  urlparse check abs1 "" = Some p1 ->
  urljoin check url2 href2 = Some abs2 ->
  urlparse check abs2 "" = Some p2 ->
  scheme p2 = scheme p1 -> netloc p2 = netloc p1 -> path p2 = path p1 ->
  path p1 <> "" -> path p1 <> "//" ->
  clean_link check url1 href1 = Some (Some key) ->
  contains "?" key = false /\
  clean_link check url2 href2 = Some (Some key).
Proof.
  intros J1 U1 J2 U2 Es En Ep Hne1 Hne2 Hc.
  unfold clean_link in Hc |- *. rewrite J1, U1 in Hc. rewrite J2, U2.
  destruct (mem (scheme p1) ["http"; "https"] && truthy (netloc p1))%bool
    eqn:Eacc; [|discriminate].
  apply andb_true_iff in Eacc as [Hsch Hnl].
  rewrite Es, En, Hsch, Hnl. cbn [andb].
  destruct (urlparse_shape check abs1 "" p1 U1) as (Hq & Hh & Hsafe & Hqn & _ & Hpath).
  destruct (Hpath Hnl) as [E|Hs]; [contradiction|].
  assert (Ht : truthy (path p1) = true).
  { destruct (starts_slash_inv _ Hs) as [r ->]. reflexivity. }
  rewrite (urljoin_unfold check abs1 (path p1) p1
             (parsed_netloc_truthy check abs1 p1 U1 Hnl) Ht U1) in Hc.
  rewrite Ep.
  assert (Hnl2 : truthy (netloc p2) = true) by (rewrite En; exact Hnl).
  rewrite (urljoin_unfold check abs2 (path p1) p2
             (parsed_netloc_truthy check abs2 p2 U2 Hnl2) Ht U2), Es.
  destruct (urlparse check (path p1) (scheme p1)) as [u|] eqn:Eu; [|discriminate].
  injection Hc as <-.
  destruct (urljoin_path_key check p1 u Hsch Hqn Hs Hq Hh Hsafe Hne2 Eu) as [K1 K2].
  split; [exact K1|]. rewrite (K2 p2 Es En). reflexivity.
Qed.

(** Two hrefs that differ in query and fragment get the key
    [http://example.com/a/b]. *)
Lemma query_discarded_witness :
  contains "?" "http://example.com/a/b" = false /\
  clean_link any_bracketed_netloc "http://example.com/"
    "http://example.com/a/b?y=2#frag" = Some (Some "http://example.com/a/b").
Proof.
  apply (query_discarded any_bracketed_netloc
           "http://example.com/" "http://example.com/a/b?x=1"
           "http://example.com/" "http://example.com/a/b?y=2#frag"
           "http://example.com/a/b?x=1" "http://example.com/a/b?y=2#frag"
           (mkParse "http" "example.com" "/a/b" "" "x=1" "")
           (mkParse "http" "example.com" "/a/b" "" "y=2" "frag")).
  - vm_compute. reflexivity.
  - vm_compute. reflexivity.
  - vm_compute. reflexivity.
  - vm_compute. reflexivity.
  - reflexivity.
  - reflexivity.
  - reflexivity.
  - cbn [path]. discriminate.
  - cbn [path]. discriminate.
  - vm_compute. reflexivity.
Defined.

(** ** The crawl: one iteration *)

Lemma edges_add_node (g : DiGraph) (n : string) : edges (add_node g n) = edges g.
Proof. unfold add_node. destruct (has_node g n); reflexivity. Qed.

Lemma edges_add_edge (g : DiGraph) (u v : string) :
  edges (add_edge g u v) = edges g ∪ {[(u, v)]}.
Proof. unfold add_edge. simpl. rewrite !edges_add_node. reflexivity. Qed.

Lemma new_entries_cons (visited : gset string) (d : Z) (link : string)
    (rest : list string) :
  new_entries visited d (link :: rest) =
    ((if bool_decide (link ∈ visited) then [] else [(link, d + 1)])
       ++ new_entries visited d rest)%list.
Proof.
  unfold new_entries. simpl.
  destruct (bool_decide (link ∈ visited)); reflexivity.
Qed.

Lemma process_links_spec (visited : gset string) (u : string) (d : Z)
    (links : list string) :
  forall g rows queue,
    snd (process_links visited u d links g rows queue)
      = (queue ++ new_entries visited d links)%list /\
    edges (fst (fst (process_links visited u d links g rows queue)))
      = edges g ∪ new_edges u links.
Proof.
  induction links as [|link rest IH]; intros g rows queue;
    cbn [process_links fst snd].
  - split.
    + unfold new_entries. cbn. rewrite app_nil_r. reflexivity.
    + unfold new_edges. cbn. rewrite (right_id_L ∅ (∪)). reflexivity.
  - destruct (IH (add_edge g u link)
                 (rows ++ [mkRow u link (Some d)])%list
                 (if bool_decide (link ∈ visited) then queue
                  else (queue ++ [(link, d + 1)])%list)) as [Hq He].
    split.
    + rewrite Hq, new_entries_cons.
      destruct (bool_decide (link ∈ visited)); cbn [app].
      * reflexivity.
      * rewrite <- app_assoc. reflexivity.
    + rewrite He, edges_add_edge. unfold new_edges. cbn [map list_to_set].
      rewrite (assoc_L (∪)). reflexivity.
Qed.

Lemma visit_fields (st : CrawlManager) (u : string) (d : Z) (links : list string) :
  visited_urls (visit st u d links) = visited_urls st ∪ {[u]} /\
  fetched (visit st u d links) = u :: fetched st /\
  added (visit st u d links) = u :: added st /\
  urls_to_visit (visit st u d links) =
    (urls_to_visit st ++ new_entries (visited_urls st ∪ {[u]}) d links)%list /\
  edges (graph (visit st u d links)) = edges (graph st) ∪ new_edges u links.
Proof.
  unfold visit.
  pose proof (process_links_spec (visited_urls st ∪ {[u]}) u d links
                (add_node_depth (graph st) u d) [] (urls_to_visit st)) as H.
  destruct (process_links (visited_urls st ∪ {[u]}) u d links
              (add_node_depth (graph st) u d) [] (urls_to_visit st))
    as [[g rows] queue].
  simpl in *. destruct H as [Hq He]. repeat split; assumption.
Qed.

Section CrawlProperties.

Variable check : string -> bool.
Variable list_of_set : gset string -> list string.
Variable net : string -> nat -> option (list string).
Variable max_depth : Z.

Local Abbreviation step := (crawl_step check list_of_set net max_depth).
Local Abbreviation links_of := (page_links check list_of_set net).
Local Abbreviation inv := (crawl_inv check list_of_set net).

(** The two ways an iteration goes on: the entry is skipped, or its page is
    requested and its links are processed. *)
Lemma crawl_step_running (st st' : CrawlManager) :
  step st = Running st' ->
  exists u d rest,
    urls_to_visit st = (u, d) :: rest /\
    ((((u ∈ visited_urls st) \/ (max_depth < d)) /\ st' = with_queue st rest) \/
     ((u ∉ visited_urls st) /\ d <= max_depth /\
      exists links,
        links_of u (count_occ string_dec (fetched st) u) = Some links /\
        st' = visit (with_queue st rest) u d links)).
Proof.
  unfold crawl_step.
  destruct (urls_to_visit st) as [|[u d] rest]; [discriminate|].
  intros H. exists u, d, rest. split; [reflexivity|].
  simpl in H.
  destruct (bool_decide (u ∈ visited_urls st)) eqn:Hv; simpl in H.
  - left. apply bool_decide_eq_true in Hv. split; [left; exact Hv|congruence].
  - apply bool_decide_eq_false in Hv.
    destruct (max_depth <? d) eqn:Hd.
    + left. apply Z.ltb_lt in Hd. split; [right; exact Hd|congruence].
    + right. apply Z.ltb_ge in Hd. split; [exact Hv|]. split; [exact Hd|].
      destruct (links_of u (count_occ string_dec (fetched st) u)) as [links|];
        [|discriminate].
      exists links. split; [reflexivity|congruence].
Qed.

Lemma crawl_step_done (st : CrawlManager) :
  step st = Done <-> urls_to_visit st = [].
Proof.
  unfold crawl_step. destruct (urls_to_visit st) as [|[u d] rest].
  - split; reflexivity.
  - split; [|discriminate]. simpl.
    destruct (bool_decide _ || _)%bool; [discriminate|].
    destruct (page_links _ _ _ _ _); discriminate.
Qed.

(** A [ValueError] comes from a page that was fetched. *)
Lemma crawl_step_raised (st st' : CrawlManager) :
  step st = Raised st' ->
  exists u k hrefs,
    net u k = Some hrefs /\ collect_links check u hrefs ∅ = None.
Proof.
  unfold crawl_step.
  destruct (urls_to_visit st) as [|[u d] rest]; [discriminate|]. simpl.
  destruct (bool_decide _ || _)%bool; [discriminate|].
  destruct (page_links _ _ _ _ _) eqn:E; [discriminate|]. intros _.
  unfold page_links, _get_links_from_page, get_links_from_single_page in E.
  destruct (net u (count_occ string_dec (fetched st) u)) as [hrefs|] eqn:N;
    [|discriminate].
  exists u, (count_occ string_dec (fetched st) u), hrefs. split; [exact N|].
  destruct (collect_links check u hrefs ∅); [discriminate|reflexivity].
Qed.

(** *** The invariant *)

Lemma inv_init (start_url : string) : inv (init start_url).
Proof.
  constructor; simpl.
  - intros u H. inversion H.
  - constructor.
  - constructor.
  - intros u. split; intros H; [inversion H|].
    apply not_elem_of_empty in H. contradiction.
  - intros u v H. apply not_elem_of_empty in H. contradiction.
  - reflexivity.
Qed.

Lemma inv_with_queue (st : CrawlManager) (q : list (string * Z)) :
  inv st -> inv (with_queue st q).
Proof. intros [H1 H2 H3 H4 H5 H6]. constructor; simpl; assumption. Qed.

Lemma not_fetched_count (st : CrawlManager) (u : string) :
  inv st -> u ∉ visited_urls st ->
  count_occ string_dec (fetched st) u = 0%nat.
Proof.
  intros Hi Hu. apply count_occ_not_In. intros Hin.
  apply Hu, (inv_fetched_visited _ _ _ _ Hi), list_elem_of_In, Hin.
Qed.

Lemma inv_visit (st : CrawlManager) (u : string) (d : Z) (links : list string) :
  inv st -> u ∉ visited_urls st ->
  links_of u (count_occ string_dec (fetched st) u) = Some links ->
  inv (visit st u d links).
Proof.
  intros Hi Hu Hl.
  rewrite (not_fetched_count st u Hi Hu) in Hl.
  assert (Hfirst : first_links check list_of_set net u = links)
    by (unfold first_links; rewrite Hl; reflexivity).
  destruct Hi as [H1 H2 H3 H4 H5 H6].
  destruct (visit_fields st u d links) as (Ev & Ef & Ea & _ & Ee).
  constructor.
  - rewrite Ev, Ef. intros u' H. apply elem_of_union.
    apply elem_of_cons in H as [->|H].
    + right. apply elem_of_singleton. reflexivity.
    + left. apply H1, H.
  - rewrite Ef. apply NoDup_cons. split; [|exact H2].
    intros H. apply Hu, H1, H.
  - rewrite Ea. apply NoDup_cons. split; [|exact H3].
    intros H. apply Hu, H4, H.
  - rewrite Ev, Ea. intros u'. rewrite elem_of_cons, elem_of_union, elem_of_singleton.
    rewrite H4. tauto.
  - rewrite Ee, Ef. intros a b H. apply elem_of_union in H as [H|H].
    + apply H5 in H as [Ha Hb]. split; [right; exact Ha|exact Hb].
    + unfold new_edges in H. apply elem_of_list_to_set, list_elem_of_fmap in H.
      destruct H as (l & E & Hl'). inversion E; subst a b.
      split; [left|rewrite Hfirst; exact Hl'].
  - rewrite Ef, Ea, H6. reflexivity.
Qed.

Lemma inv_step (st st' : CrawlManager) :
  inv st -> step st = Running st' -> inv st'.
Proof.
  intros Hi Hs. apply crawl_step_running in Hs.
  destruct Hs as (u & d & rest & Hq & [[_ ->]|(Hu & Hd & links & Hl & ->)]).
  - apply inv_with_queue, Hi.
  - apply inv_visit.
    + apply inv_with_queue, Hi.
    + exact Hu.
    + exact Hl.
Qed.

Lemma inv_run (n : nat) :
  forall st st', inv st -> run check list_of_set net max_depth n st = Some st' -> inv st'.
Proof.
  induction n as [|n IH]; intros st st' Hi Hr; simpl in Hr.
  - congruence.
  - destruct (step st) as [st1| |] eqn:Hs; try discriminate.
    apply (IH st1); [apply (inv_step st); assumption|exact Hr].
Qed.

Lemma inv_reachable (start_url : string) (st : CrawlManager) :
  reachable check list_of_set net max_depth start_url st -> inv st.
Proof. intros [n Hr]. apply (inv_run n _ _ (inv_init start_url) Hr). Qed.

End CrawlProperties.

Section CrawlTermination.

Variable check : string -> bool.
Variable list_of_set : gset string -> list string.
Variable net : string -> nat -> option (list string).
Variable max_depth : Z.

Local Abbreviation step := (crawl_step check list_of_set net max_depth).
Local Abbreviation links_of := (page_links check list_of_set net).
Local Abbreviation inv := (crawl_inv check list_of_set net).
Local Abbreviation crawl_loop := (crawl check list_of_set net max_depth).
Local Abbreviation wt := (weight check list_of_set net).
Local Abbreviation ewt := (entry_weight check list_of_set net max_depth).
Local Abbreviation qwt := (queue_weight check list_of_set net max_depth).

Lemma weight_pos (k : nat) (u : string) : (1 <= wt k u)%nat.
Proof. destruct k; cbn [weight]; lia. Qed.

Lemma list_sum_app_map {A : Type} (f : A -> nat) (l1 l2 : list A) :
  list_sum (map f (l1 ++ l2)) = (list_sum (map f l1) + list_sum (map f l2))%nat.
Proof. rewrite map_app, list_sum_app. reflexivity. Qed.

Lemma entry_weight_pair (u : string) (d : Z) :
  ewt (u, d) = wt (Z.to_nat (max_depth + 1 - d)) u.
Proof. reflexivity. Qed.

Lemma list_sum_cons (x : nat) (l : list nat) :
  list_sum (x :: l) = (x + list_sum l)%nat.
Proof. reflexivity. Qed.

(** The entries appended for a page weigh at most what its links weigh one
    level down. *)
Lemma new_entries_weight (visited : gset string) (d : Z) (links : list string) :
  (list_sum (map ewt (new_entries visited d links))
   <= list_sum (map (wt (Z.to_nat (max_depth + 1 - (d + 1)))) links))%nat.
Proof.
  induction links as [|link rest IH].
  - unfold new_entries. simpl. lia.
  - rewrite new_entries_cons. destruct (bool_decide (link ∈ visited)).
    + cbn [app map]. rewrite list_sum_cons. lia.
    + cbn [app map]. rewrite !list_sum_cons.
      rewrite entry_weight_pair. lia.
Qed.

(** Every iteration that goes on lowers the weight of the queue. *)
Lemma queue_weight_step (st st' : CrawlManager) :
  inv st -> step st = Running st' -> (qwt st' < qwt st)%nat.
Proof.
  intros Hi Hs. apply crawl_step_running in Hs.
  destruct Hs as (u & d & rest & Hq & [[_ ->]|(Hu & Hd & links & Hl & ->)]);
    unfold queue_weight; rewrite Hq; cbn [map]; rewrite list_sum_cons.
  - cbn [with_queue urls_to_visit]. pose proof (weight_pos (Z.to_nat (max_depth + 1 - d)) u).
    rewrite entry_weight_pair. lia.
  - destruct (visit_fields (with_queue st rest) u d links) as (_ & _ & _ & Eq & _).
    rewrite Eq. cbn [with_queue urls_to_visit visited_urls].
    rewrite list_sum_app_map.
    pose proof (new_entries_weight (visited_urls st ∪ {[u]}) d links) as Hn.
    rewrite (not_fetched_count _ _ _ st u Hi Hu) in Hl.
    rewrite entry_weight_pair.
    replace (Z.to_nat (max_depth + 1 - d))
      with (S (Z.to_nat (max_depth + 1 - (d + 1)))) by lia.
    cbn [weight]. unfold first_links. rewrite Hl. cbn [default from_option].
    change (id links) with links.
    lia.
Qed.

(** The loop ends: with more fuel than the weight of the queue, [crawl]
    returns. *)
Lemma crawl_terminates (fuel : nat) :
  forall st, inv st -> (qwt st < fuel)%nat -> crawl_loop fuel st <> OutOfFuel.
Proof.
  induction fuel as [|fuel IH]; intros st Hi Hw; [lia|].
  cbn [crawl]. destruct (step st) as [st'|st'|] eqn:Hs; try discriminate.
  apply IH.
  - apply (inv_step check list_of_set net max_depth st); assumption.
  - pose proof (queue_weight_step st st' Hi Hs). lia.
Qed.

(** *** What the end of the loop tells *)

Lemma step_visited_mono (st st' : CrawlManager) :
  step st = Running st' -> visited_urls st ⊆ visited_urls st'.
Proof.
  intros Hs. apply crawl_step_running in Hs.
  destruct Hs as (u & d & rest & Hq & [[_ ->]|(Hu & Hd & links & Hl & ->)]).
  - reflexivity.
  - destruct (visit_fields (with_queue st rest) u d links) as (Ev & _).
    rewrite Ev. cbn [with_queue visited_urls]. apply union_subseteq_l.
Qed.

Lemma crawl_finished_visited (fuel : nat) :
  forall st f, crawl_loop fuel st = Finished f -> visited_urls st ⊆ visited_urls f.
Proof.
  induction fuel as [|fuel IH]; intros st f H; [discriminate|].
  cbn [crawl] in H. destruct (step st) as [st'|st'|] eqn:Hs; try discriminate.
  - transitivity (visited_urls st').
    + apply step_visited_mono, Hs.
    + apply IH, H.
  - injection H as <-. reflexivity.
Qed.

(** When the loop ends, every entry that was pending within the depth bound
    has its URL visited. *)
Lemma crawl_finished_pending (fuel : nat) :
  forall st f, crawl_loop fuel st = Finished f ->
  forall v e, (v, e) ∈ urls_to_visit st -> e <= max_depth -> v ∈ visited_urls f.
Proof.
  induction fuel as [|fuel IH]; intros st f H v e Hin He; [discriminate|].
  cbn [crawl] in H. destruct (step st) as [st'|st'|] eqn:Hs; try discriminate.
  - pose proof (crawl_finished_visited fuel st' f H) as Hmono.
    apply crawl_step_running in Hs.
    destruct Hs as (u & d & rest & Hq & [[Hskip ->]|(Hu & Hd & links & Hl & ->)]);
      rewrite Hq in Hin; apply elem_of_cons in Hin as [Heq|Hin].
    + injection Heq as -> ->. apply Hmono. cbn [with_queue visited_urls].
      destruct Hskip as [Hv|Hlt]; [exact Hv|lia].
    + apply (IH _ _ H v e); [exact Hin|exact He].
    + injection Heq as -> ->. apply Hmono.
      destruct (visit_fields (with_queue st rest) u d links) as (Ev & _).
      rewrite Ev. apply elem_of_union. right. apply elem_of_singleton. reflexivity.
    + apply (IH _ _ H v e); [|exact He].
      destruct (visit_fields (with_queue st rest) u d links) as (_ & _ & _ & Eq & _).
      rewrite Eq. apply elem_of_app. left. exact Hin.
  - apply crawl_step_done in Hs. rewrite Hs in Hin. inversion Hin.
Qed.

(** When a [ValueError] ends the crawl, it comes from a fetched page. *)
Lemma crawl_crashed (fuel : nat) :
  forall st f, crawl_loop fuel st = Crashed f ->
  exists u k hrefs,
    net u k = Some hrefs /\ collect_links check u hrefs ∅ = None.
Proof.
  induction fuel as [|fuel IH]; intros st f H; [discriminate|].
  cbn [crawl] in H. destruct (step st) as [st'|st'|] eqn:Hs; try discriminate.
  - apply (IH _ _ H).
  - apply (crawl_step_raised _ _ _ _ _ _ Hs).
Qed.

End CrawlTermination.

Section CrawlClaims.

Variable check : string -> bool.
Variable list_of_set : gset string -> list string.
Variable net : string -> nat -> option (list string).
Variable max_depth : Z.

Local Abbreviation step := (crawl_step check list_of_set net max_depth).
Local Abbreviation links_of := (page_links check list_of_set net).
Local Abbreviation inv := (crawl_inv check list_of_set net).
Local Abbreviation crawl_loop := (crawl check list_of_set net max_depth).
Local Abbreviation run_loop := (run check list_of_set net max_depth).
Local Abbreviation reach := (reachable check list_of_set net max_depth).

Lemma crawl_step_raised_state (st st' : CrawlManager) :
  step st = Raised st' ->
  exists u d rest,
    urls_to_visit st = (u, d) :: rest /\ (u ∉ visited_urls st) /\
    st' = interrupted (with_queue st rest) u d.
Proof.
  unfold crawl_step.
  destruct (urls_to_visit st) as [|[u d] rest]; [discriminate|].
  cbn [with_queue visited_urls fetched].
  destruct (bool_decide (u ∈ visited_urls st)) eqn:Hv; [discriminate|].
  apply bool_decide_eq_false in Hv.
  destruct (max_depth <? d); [discriminate|]. cbn [orb].
  destruct (page_links _ _ _ _ _); [discriminate|].
  intros H. injection H as <-. exists u, d, rest. repeat split. exact Hv.
Qed.

Lemma crawl_finished_run (fuel : nat) :
  forall st f, crawl_loop fuel st = Finished f -> exists n, run_loop n st = Some f.
Proof.
  induction fuel as [|fuel IH]; intros st f H; [discriminate|].
  cbn [crawl] in H. destruct (step st) as [st'|st'|] eqn:Hs; try discriminate.
  - destruct (IH _ _ H) as [n Hn]. exists (S n). cbn [run]. rewrite Hs. exact Hn.
  - injection H as <-. exists 0%nat. reflexivity.
Qed.

Lemma crawl_crashed_run (fuel : nat) :
  forall st f, crawl_loop fuel st = Crashed f ->
  exists n st1, run_loop n st = Some st1 /\ step st1 = Raised f.
Proof.
  induction fuel as [|fuel IH]; intros st f H; [discriminate|].
  cbn [crawl] in H. destruct (step st) as [st'|st'|] eqn:Hs; try discriminate.
  - destruct (IH _ _ H) as (n & st1 & Hn & Hr).
    exists (S n), st1. cbn [run]. rewrite Hs. split; assumption.
  - injection H as <-. exists 0%nat, st. split; [reflexivity|exact Hs].
Qed.

Lemma failed_fetch_no_links (url : string) (k : nat) :
  net url k = None -> links_of url k = Some [].
Proof.
  intros H. unfold page_links, _get_links_from_page, get_links_from_single_page.
  rewrite H. reflexivity.
Qed.

(** C6.  Whatever the pages link to and however often a URL is discovered
    and enqueued, the crawl requests each URL at most once: in every state
    of the loop, and in the state [crawl] ends with, a URL occurs at most
    once in the log of the requests. *)
Theorem each_url_fetched_at_most_once (start_url : string) :
  (forall n st, run_loop n (init start_url) = Some st ->
     forall u, (count_occ string_dec (fetched st) u <= 1)%nat) /\
  (forall fuel f,
     crawl_loop fuel (init start_url) = Finished f \/
     crawl_loop fuel (init start_url) = Crashed f ->
     forall u, (count_occ string_dec (fetched f) u <= 1)%nat).
Proof.
  assert (Hrun : forall n st, run_loop n (init start_url) = Some st ->
                 NoDup (fetched st)).
  { intros n st Hr. apply (inv_fetched_nodup check list_of_set net).
    apply (inv_run check list_of_set net max_depth n (init start_url));
      [apply inv_init|exact Hr]. }
  split.
  - intros n st Hr. apply NoDup_count_occ, NoDup_ListNoDup, (Hrun n), Hr.
  - intros fuel f [H|H]; apply NoDup_count_occ, NoDup_ListNoDup.
    + destruct (crawl_finished_run fuel _ _ H) as [n Hn]. apply (Hrun n), Hn.
    + destruct (crawl_crashed_run fuel _ _ H) as (n & st1 & Hn & Hr).
      apply crawl_step_raised_state in Hr.
      destruct Hr as (u & d & rest & _ & Hu & ->).
      cbn [interrupted with_queue fetched].
      assert (Hi : inv st1).
      { apply (inv_run check list_of_set net max_depth n (init start_url));
          [apply inv_init|exact Hn]. }
      apply NoDup_cons. split; [|apply (Hrun n), Hn].
      intros Hin. apply Hu, (inv_fetched_visited _ _ _ _ Hi), Hin.
Qed.

(** C3 (amended).  A URL enters the visited set at most once: the log of
    [visited_urls.add] has no repetition and lists the visited set, and an
    entry whose URL is visited when it is dequeued is dropped without a
    request.  The only gate on enqueueing is the visited set: every link of
    a crawled page that is not visited is appended to the queue, whether or
    not it is pending already. *)
Theorem visited_entered_once (start_url : string) (st : CrawlManager) :
  reach start_url st ->
  NoDup (added st) /\
  (forall u, u ∈ added st <-> u ∈ visited_urls st) /\
  (forall u d rest,
     urls_to_visit st = (u, d) :: rest -> u ∈ visited_urls st ->
     step st = Running (with_queue st rest)) /\
  (forall u d rest links,
     urls_to_visit st = (u, d) :: rest -> u ∉ visited_urls st ->
     d <= max_depth -> links_of u 0 = Some links ->
     exists st', step st = Running st' /\
       visited_urls st' = visited_urls st ∪ {[u]} /\
       urls_to_visit st' =
         (rest ++ new_entries (visited_urls st ∪ {[u]}) d links)%list).
Proof.
  intros Hr. pose proof (inv_reachable _ _ _ _ _ _ Hr) as Hi.
  split; [apply (inv_added_nodup _ _ _ _ Hi)|].
  split; [apply (inv_added_visited _ _ _ _ Hi)|].
  split.
  - intros u d rest Hq Hu. unfold crawl_step. rewrite Hq.
    cbn [with_queue visited_urls].
    rewrite (bool_decide_eq_true_2 _ Hu). reflexivity.
  - intros u d rest links Hq Hu Hd Hl.
    exists (visit (with_queue st rest) u d links). split.
    + unfold crawl_step. rewrite Hq. cbn [with_queue visited_urls fetched].
      rewrite (bool_decide_eq_false_2 _ Hu).
      replace (max_depth <? d) with false by (symmetry; apply Z.ltb_ge; exact Hd).
      cbn [orb]. rewrite (not_fetched_count _ _ _ st u Hi Hu), Hl. reflexivity.
    + destruct (visit_fields (with_queue st rest) u d links)
        as (Ev & _ & _ & Eq & _).
      split; assumption.
Qed.

(** C4 (amended).  A failed request is not retried: it yields the empty list
    of links, and a URL whose request failed is visited, was requested
    exactly once in every later state of the crawl, and has no outgoing
    edge. *)
Theorem failed_fetch_is_terminal (start_url : string) (st : CrawlManager)
    (u : string) :
  reach start_url st -> u ∈ fetched st -> net u 0%nat = None ->
  links_of u 0 = Some [] /\
  count_occ string_dec (fetched st) u = 1%nat /\
  u ∈ visited_urls st /\
  (forall v, (u, v) ∉ edges (graph st)).
Proof.
  intros Hr Hf Hn. pose proof (inv_reachable _ _ _ _ _ _ Hr) as Hi.
  pose proof (failed_fetch_no_links u 0 Hn) as Hl.
  split; [exact Hl|]. split; [|split].
  - pose proof (proj1 (NoDup_count_occ string_dec (fetched st))
                  (proj1 (NoDup_ListNoDup _) (inv_fetched_nodup _ _ _ _ Hi)) u)
      as Hle.
    pose proof (proj1 (count_occ_In string_dec (fetched st) u)
                  (proj1 (list_elem_of_In _ _) Hf)) as Hge.
    lia.
  - apply (inv_fetched_visited _ _ _ _ Hi), Hf.
  - intros v Hv. apply (inv_edges _ _ _ _ Hi) in Hv as [_ Hv].
    unfold first_links in Hv. rewrite Hl in Hv. inversion Hv.
Qed.

(** A page whose request fails contributes the empty list of links, the
    iteration goes on with the other entries of the queue untouched, and the
    loop ends: normally, with the URL of every sibling entry within the
    depth bound requested, or by a [ValueError] raised for an href of some
    page that was fetched. *)
Lemma failed_fetch_outcomes (start_url : string) (st : CrawlManager)
    (u : string) (d : Z) (rest : list (string * Z)) :
  reach start_url st ->
  urls_to_visit st = (u, d) :: rest -> u ∉ visited_urls st -> d <= max_depth ->
  net u 0%nat = None ->
  links_of u 0 = Some [] /\
  exists st',
    step st = Running st' /\
    urls_to_visit st' = rest /\
    u ∈ visited_urls st' /\
    edges (graph st') = edges (graph st) /\
    exists n, forall fuel, (n <= fuel)%nat ->
      match crawl_loop fuel st with
      | Finished f =>
          forall v e, (v, e) ∈ rest -> e <= max_depth ->
            v ∈ visited_urls f /\ v ∈ fetched f
      | Crashed f =>
          exists v k hrefs,
            net v k = Some hrefs /\ collect_links check v hrefs ∅ = None
      | OutOfFuel => False
      end.
Proof.
  intros Hr Hq Hu Hd Hn. pose proof (inv_reachable _ _ _ _ _ _ Hr) as Hi.
  pose proof (failed_fetch_no_links u 0 Hn) as Hl.
  split; [exact Hl|].
  exists (visit (with_queue st rest) u d []).
  assert (Hs : step st = Running (visit (with_queue st rest) u d [])).
  { unfold crawl_step. rewrite Hq. cbn [with_queue visited_urls fetched].
    rewrite (bool_decide_eq_false_2 _ Hu).
    replace (max_depth <? d) with false by (symmetry; apply Z.ltb_ge; exact Hd).
    cbn [orb]. rewrite (not_fetched_count _ _ _ st u Hi Hu), Hl. reflexivity. }
  destruct (visit_fields (with_queue st rest) u d []) as (Ev & _ & _ & Eq & Ee).
  split; [exact Hs|]. split; [|split; [|split]].
  - rewrite Eq. cbn [with_queue urls_to_visit]. unfold new_entries.
    cbn [List.filter map]. apply app_nil_r.
  - rewrite Ev. apply elem_of_union. right. apply elem_of_singleton. reflexivity.
  - rewrite Ee. cbn [with_queue graph]. unfold new_edges. cbn [map list_to_set].
    apply (right_id_L ∅ (∪)).
  - exists (S (queue_weight check list_of_set net max_depth st)).
    intros fuel Hfuel.
    pose proof (crawl_terminates check list_of_set net max_depth fuel st Hi) as Ht.
    destruct (crawl_loop fuel st) as [f|f|] eqn:Hc.
    + intros v e Hin He.
      assert (Hv : v ∈ visited_urls f).
      { apply (crawl_finished_pending check list_of_set net max_depth fuel st f
                 Hc v e); [|exact He].
        rewrite Hq. apply elem_of_cons. right. exact Hin. }
      split; [exact Hv|].
      destruct (crawl_finished_run fuel st f Hc) as [n Hrun].
      pose proof (inv_run check list_of_set net max_depth n st f Hi Hrun) as Hf.
      rewrite (inv_logs _ _ _ _ Hf). apply (inv_added_visited _ _ _ _ Hf), Hv.
    + apply (crawl_crashed check list_of_set net max_depth fuel st f Hc).
    + apply Ht; [lia|reflexivity].
Qed.


End CrawlClaims.

(** *** Running the loop on given pages *)

Section CrawlRun.

Variable check : string -> bool.
Variable list_of_set : gset string -> list string.
Variable net : string -> nat -> option (list string).
Variable max_depth : Z.

Local Abbreviation step := (crawl_step check list_of_set net max_depth).
Local Abbreviation links_of := (page_links check list_of_set net).
Local Abbreviation crawl_loop := (crawl check list_of_set net max_depth).

Lemma crawl_S (fuel : nat) (st : CrawlManager) :
  crawl_loop (S fuel) st =
    match step st with
    | Done => Finished st
    | Raised st' => Crashed st'
    | Running st' => crawl_loop fuel st'
    end.
Proof. reflexivity. Qed.

Lemma crawl_step_visit (st : CrawlManager) (u : string) (d : Z)
    (rest : list (string * Z)) (k : nat) (links : list string) :
  urls_to_visit st = (u, d) :: rest ->
  bool_decide (u ∈ visited_urls st) = false ->
  (max_depth <? d) = false ->
  count_occ string_dec (fetched st) u = k ->
  links_of u k = Some links ->
  step st = Running (visit (with_queue st rest) u d links).
Proof.
  intros Hq Hv Hd Hk Hl. unfold crawl_step. rewrite Hq.
  cbn [with_queue visited_urls fetched]. rewrite Hv, Hd, Hk, Hl. reflexivity.
Qed.

Lemma crawl_step_skip (st : CrawlManager) (u : string) (d : Z)
    (rest : list (string * Z)) :
  urls_to_visit st = (u, d) :: rest ->
  (bool_decide (u ∈ visited_urls st) || (max_depth <? d))%bool = true ->
  step st = Running (with_queue st rest).
Proof.
  intros Hq Hs. unfold crawl_step. rewrite Hq.
  cbn [with_queue visited_urls]. rewrite Hs. reflexivity.
Qed.

(** The links [_get_links_from_page] returns for a page whose hrefs are all
    accepted: the set of their keys, in the order Python lists the set. *)
Lemma page_links_of_hrefs (url : string) (k : nat) (hrefs : list string)
    (links : gset string) :
  net url k = Some hrefs -> collect_links check url hrefs ∅ = Some links ->
  links_of url k = Some (list_of_set links).
Proof.
  intros Hn Hc. unfold page_links, _get_links_from_page,
    get_links_from_single_page. rewrite Hn, Hc. reflexivity.
Qed.

End CrawlRun.

(** Decides a closed proposition by evaluating its decision procedure. *)
Ltac by_evaluation := apply (bool_decide_unpack _); vm_compute; exact I.

Lemma permutation_pair {A : Type} (l : list A) (x y : A) :
  l ≡ₚ [x; y] -> l = [x; y] \/ l = [y; x].
Proof.
  intros H. symmetry in H. apply Permutation_length_2_inv in H.
  destruct H as [H|H]; [left|right]; exact H.
Qed.

(** C2 (amended).  With [maxDepth = 1], seed [a], page [a] linking to [b]
    and [c], page [b] linking to [d] and page [c] without links, [crawl]
    ends after requesting [a], [b] and [c]; [d] is never requested, but the
    links of the pages crawled at depth 1 are recorded: the graph has the
    nodes [a], [b], [c], [d] and the edges [(a, b)], [(a, c)], [(b, d)], and
    [d] carries no depth. *)
Theorem links_of_last_level_recorded (check : string -> bool)
    (list_of_set : gset string -> list string)
    (net : string -> nat -> option (list string)) :
  (forall s, list_of_set s ≡ₚ elements s) ->
  net page_a 0%nat = Some [page_b; page_c] ->
  net page_b 0%nat = Some [page_d] ->
  net page_c 0%nat = Some [] ->
  exists f,
    crawl check list_of_set net 1 5 (init page_a) = Finished f /\
    dom (nodes (graph f)) = {[page_a; page_b; page_c; page_d]} /\
    edges (graph f) = {[(page_a, page_b); (page_a, page_c); (page_b, page_d)]} /\
    visited_urls f = {[page_a; page_b; page_c]} /\
    (page_d ∉ fetched f) /\
    depth (graph f) page_d = None.
Proof.
  intros Hperm Ha Hb Hc.
  assert (La : page_links check list_of_set net page_a 0 = Some [page_b; page_c]
            \/ page_links check list_of_set net page_a 0 = Some [page_c; page_b]).
  { pose proof (page_links_of_hrefs check list_of_set net page_a 0 _
                  ({[page_b]} ∪ {[page_c]}) Ha) as H.
    rewrite H by by_evaluation.
    destruct (permutation_pair (list_of_set ({[page_b]} ∪ {[page_c]}))
                page_b page_c) as [E|E].
    - rewrite Hperm. vm_compute. apply perm_swap.
    - left. rewrite E. reflexivity.
    - right. rewrite E. reflexivity. }
  assert (Lb : page_links check list_of_set net page_b 0 = Some [page_d]).
  { pose proof (page_links_of_hrefs check list_of_set net page_b 0 _
                  {[page_d]} Hb) as H.
    rewrite H by by_evaluation. f_equal.
    apply Permutation_singleton_r. rewrite Hperm. vm_compute. reflexivity. }
  assert (Lc : page_links check list_of_set net page_c 0 = Some []).
  { pose proof (page_links_of_hrefs check list_of_set net page_c 0 _ ∅ Hc) as H.
    rewrite H by by_evaluation. f_equal.
    apply Permutation_nil_r. rewrite Hperm. vm_compute. reflexivity. }
  destruct La as [La|La].
  - set (s0 := init page_a).
    set (s1 := visit (with_queue s0 []) page_a 0 [page_b; page_c]).
    set (s2 := visit (with_queue s1 [(page_c, 1)]) page_b 1 [page_d]).
    set (s3 := visit (with_queue s2 [(page_d, 2)]) page_c 1 []).
    set (s4 := with_queue s3 []).
    assert (E0 : crawl_step check list_of_set net 1 s0 = Running s1).
    { apply (crawl_step_visit check list_of_set net 1 s0 page_a 0 [] 0%nat);
        [vm_compute; reflexivity .. | exact La]. }
    assert (E1 : crawl_step check list_of_set net 1 s1 = Running s2).
    { apply (crawl_step_visit check list_of_set net 1 s1 page_b 1 [(page_c, 1)] 0%nat);
        [vm_compute; reflexivity .. | exact Lb]. }
    assert (E2 : crawl_step check list_of_set net 1 s2 = Running s3).
    { apply (crawl_step_visit check list_of_set net 1 s2 page_c 1 [(page_d, 2)] 0%nat);
        [vm_compute; reflexivity .. | exact Lc]. }
    assert (E3 : crawl_step check list_of_set net 1 s3 = Running s4).
    { apply (crawl_step_skip check list_of_set net 1 s3 page_d 2 []);
        vm_compute; reflexivity. }
    assert (E4 : crawl_step check list_of_set net 1 s4 = Done).
    { apply crawl_step_done. reflexivity. }
    exists s4. split.
    + rewrite crawl_S, E0, crawl_S, E1, crawl_S, E2, crawl_S, E3, crawl_S, E4.
      reflexivity.
    + repeat split; by_evaluation.
  - set (s0 := init page_a).
    set (s1 := visit (with_queue s0 []) page_a 0 [page_c; page_b]).
    set (s2 := visit (with_queue s1 [(page_b, 1)]) page_c 1 []).
    set (s3 := visit (with_queue s2 []) page_b 1 [page_d]).
    set (s4 := with_queue s3 []).
    assert (E0 : crawl_step check list_of_set net 1 s0 = Running s1).
    { apply (crawl_step_visit check list_of_set net 1 s0 page_a 0 [] 0%nat);
        [vm_compute; reflexivity .. | exact La]. }
    assert (E1 : crawl_step check list_of_set net 1 s1 = Running s2).
    { apply (crawl_step_visit check list_of_set net 1 s1 page_c 1 [(page_b, 1)] 0%nat);
        [vm_compute; reflexivity .. | exact Lc]. }
    assert (E2 : crawl_step check list_of_set net 1 s2 = Running s3).
    { apply (crawl_step_visit check list_of_set net 1 s2 page_b 1 [] 0%nat);
        [vm_compute; reflexivity .. | exact Lb]. }
    assert (E3 : crawl_step check list_of_set net 1 s3 = Running s4).
    { apply (crawl_step_skip check list_of_set net 1 s3 page_d 2 []);
        vm_compute; reflexivity. }
    assert (E4 : crawl_step check list_of_set net 1 s4 = Done).
    { apply crawl_step_done. reflexivity. }
    exists s4. split.
    + rewrite crawl_S, E0, crawl_S, E1, crawl_S, E2, crawl_S, E3, crawl_S, E4.
      reflexivity.
    + repeat split; by_evaluation.
Qed.

(** *** The sample crawls *)

Lemma observe_state (P : CrawlManager -> bool) (o : option CrawlManager) :
  from_option P false o = true -> exists st, o = Some st /\ P st = true.
Proof. destruct o as [st|]; [intros H; exists st; split; [reflexivity|exact H]|discriminate]. Qed.

Lemma observe_finished (P : CrawlManager -> bool) (r : crawl_result) :
  match r with Finished f => P f | _ => false end = true ->
  exists f, r = Finished f /\ P f = true.
Proof. destruct r as [f|f|]; [intros H; exists f; split; [reflexivity|exact H]|discriminate..]. Qed.

(** C2 (counterexample).  On [small_site] with [maxDepth = 1] the crawl
    ends with [d] among the nodes of the graph. *)
Lemma depth_two_node_in_graph :
  ~ (forall fuel f,
       crawl any_bracketed_netloc elements small_site 1 fuel (init page_a)
         = Finished f ->
       excludes_beyond_max_depth page_a page_b page_c (graph f)).
Proof.
  intros H.
  destruct (observe_finished
              (fun f => bool_decide (page_d ∈ dom (nodes (graph f))))
              (crawl any_bracketed_netloc elements small_site 1 5 (init page_a)))
    as (f & E & X); [vm_compute; reflexivity|].
  destruct (H 5%nat f E) as [Hdom _].
  apply bool_decide_eq_true in X. rewrite Hdom in X.
  apply (bool_decide_pack _) in X. vm_compute in X. exact X.
Qed.

(** The crawl of [small_site] meets the hypotheses above, with the order
    [elements] lists a set in. *)
Lemma links_of_last_level_recorded_witness :
  small_site page_a 0%nat = Some [page_b; page_c] /\
  small_site page_b 0%nat = Some [page_d] /\
  small_site page_c 0%nat = Some [] /\
  exists f,
    crawl any_bracketed_netloc elements small_site 1 5 (init page_a)
      = Finished f /\
    dom (nodes (graph f)) = {[page_a; page_b; page_c; page_d]} /\
    edges (graph f) = {[(page_a, page_b); (page_a, page_c); (page_b, page_d)]} /\
    visited_urls f = {[page_a; page_b; page_c]} /\
    (page_d ∉ fetched f) /\
    depth (graph f) page_d = None.
Proof.
  split; [reflexivity|]. split; [reflexivity|]. split; [reflexivity|].
  apply (links_of_last_level_recorded any_bracketed_netloc elements small_site).
  - intros s. reflexivity.
  - reflexivity.
  - reflexivity.
  - reflexivity.
Defined.

(** C3 (counterexample).  On [triangle_site], after three iterations a
    pending URL is visited, and after two a URL is pending twice. *)
Lemma pending_overlaps_visited :
  ~ (forall n st,
       run any_bracketed_netloc elements triangle_site 2 n (init page_a) = Some st ->
       frontier_disjoint st).
Proof.
  intros H.
  destruct (observe_state
              (fun st => bool_decide (page_b ∈ pending st)
                         && bool_decide (page_b ∈ visited_urls st))%bool
              (run any_bracketed_netloc elements triangle_site 2 3 (init page_a)))
    as (st & E & X); [vm_compute; reflexivity|].
  apply andb_true_iff in X as [Xp Xv].
  apply bool_decide_eq_true in Xp. apply bool_decide_eq_true in Xv.
  destruct (H 3%nat st E) as [Hd _]. apply (Hd page_b Xp Xv).
Qed.

(** On [triangle_site], after two iterations the queue holds the same URL
    twice. *)
Lemma url_pending_twice :
  ~ (forall n st,
       run any_bracketed_netloc elements triangle_site 2 n (init page_a) = Some st ->
       NoDup (pending st)).
Proof.
  intros H.
  destruct (observe_state
              (fun st => bool_decide (pending st = [page_b; page_b]))
              (run any_bracketed_netloc elements triangle_site 2 2 (init page_a)))
    as (st & E & X); [vm_compute; reflexivity|].
  apply bool_decide_eq_true in X. specialize (H 2%nat st E). rewrite X in H.
  apply NoDup_cons in H as [H _]. apply H. left.
Qed.

(** The state of the crawl of [triangle_site] after three iterations: a URL
    is pending and visited, and no URL entered the visited set twice. *)
Lemma visited_entered_once_witness :
  match run any_bracketed_netloc elements triangle_site 2 3 (init page_a) with
  | Some st => NoDup (added st) /\ (page_b ∈ visited_urls st) /\ page_b ∈ pending st
  | None => False
  end.
Proof.
  destruct (observe_state
              (fun st => bool_decide (page_b ∈ pending st)
                         && bool_decide (page_b ∈ visited_urls st))%bool
              (run any_bracketed_netloc elements triangle_site 2 3 (init page_a)))
    as (st & E & X); [vm_compute; reflexivity|].
  rewrite E. apply andb_true_iff in X as [Xp Xv].
  apply bool_decide_eq_true in Xp. apply bool_decide_eq_true in Xv.
  split; [|split; assumption].
  apply (visited_entered_once any_bracketed_netloc elements triangle_site 2
           page_a st).
  exists 3%nat. exact E.
Defined.

(** C4 (counterexample).  On [flaky_site] the first request for [a] fails
    and a second one would succeed; the crawl ends having requested [a]
    once. *)
Lemma failed_fetch_not_retried :
  ~ (forall fuel f,
       crawl any_bracketed_netloc elements flaky_site 2 fuel (init page_a)
         = Finished f ->
       retried_after_failure flaky_site f).
Proof.
  intros H.
  destruct (observe_finished
              (fun f => bool_decide (fetched f = [page_a]))
              (crawl any_bracketed_netloc elements flaky_site 2 5 (init page_a)))
    as (f & E & X); [vm_compute; reflexivity|].
  apply bool_decide_eq_true in X. specialize (H 5%nat f E page_a).
  rewrite X in H.
  assert (Hlt : (1 < count_occ string_dec [page_a] page_a)%nat).
  { apply H; [left|reflexivity]. }
  vm_compute in Hlt. lia.
Qed.

(** The crawl of [flaky_site] after its first iteration: the request for [a]
    failed, and [a] was requested once and has no outgoing edge. *)
Lemma failed_fetch_is_terminal_witness :
  flaky_site page_a 0%nat = None /\
  match run any_bracketed_netloc elements flaky_site 2 1 (init page_a) with
  | Some st =>
      count_occ string_dec (fetched st) page_a = 1%nat /\
      forall v, (page_a, v) ∉ edges (graph st)
  | None => False
  end.
Proof.
  split; [reflexivity|].
  destruct (observe_state
              (fun st => bool_decide (page_a ∈ fetched st))
              (run any_bracketed_netloc elements flaky_site 2 1 (init page_a)))
    as (st & E & X); [vm_compute; reflexivity|].
  rewrite E. apply bool_decide_eq_true in X.
  destruct (failed_fetch_is_terminal any_bracketed_netloc elements flaky_site 2
              page_a st page_a) as (_ & Hc & _ & He).
  - exists 1%nat. exact E.
  - exact X.
  - reflexivity.
  - split; assumption.
Defined.

(** The crawl of [triangle_site], where [b] is enqueued twice, ends having
    requested [b] at most once. *)
Lemma each_url_fetched_at_most_once_witness :
  match crawl any_bracketed_netloc elements triangle_site 2 9 (init page_a) with
  | Finished f => (count_occ string_dec (fetched f) page_b <= 1)%nat
  | _ => False
  end.
Proof.
  destruct (observe_finished (fun _ => true)
              (crawl any_bracketed_netloc elements triangle_site 2 9 (init page_a)))
    as (f & E & _); [vm_compute; reflexivity|].
  rewrite E.
  apply (proj2 (each_url_fetched_at_most_once any_bracketed_netloc elements
                  triangle_site 2 page_a) 9%nat f).
  left. exact E.
Defined.

(** A result of [crawl] stays what it is when the loop is given more
    iterations. *)
Lemma crawl_more_fuel (check : string -> bool)
    (list_of_set : gset string -> list string)
    (net : string -> nat -> option (list string)) (max_depth : Z) (fuel : nat) :
  forall st r,
    crawl check list_of_set net max_depth fuel st = r -> r <> OutOfFuel ->
    forall m, (fuel <= m)%nat -> crawl check list_of_set net max_depth m st = r.
Proof.
  induction fuel as [|fuel IH]; intros st r H Hne m Hm.
  - cbn [crawl] in H. subst r. contradiction.
  - destruct m as [|m]; [lia|]. cbn [crawl] in H |- *.
    destruct (crawl_step check list_of_set net max_depth st) as [st1|st1|].
    + apply (IH st1 r H Hne). lia.
    + exact H.
    + exact H.
Qed.



(** * Further properties *)

Import Rows.

(** ** Graph assembly: nodes, edges and depths *)

Lemma has_node_true (g : DiGraph) (n : string) :
  has_node g n = true <-> is_Some (nodes g !! n).
Proof. unfold has_node. apply bool_decide_eq_true. Qed.

Lemma has_node_false (g : DiGraph) (n : string) :
  has_node g n = false <-> nodes g !! n = None.
Proof.
  unfold has_node. split; intros H.
  - apply bool_decide_eq_false in H. apply eq_None_not_Some. exact H.
  - apply bool_decide_eq_false. apply eq_None_not_Some. exact H.
Qed.

Lemma add_node_present (g : DiGraph) (n : string) :
  has_node g n = true -> add_node g n = g.
Proof. intros H. unfold add_node. rewrite H. reflexivity. Qed.

Lemma has_node_add_node_depth (g : DiGraph) (n m : string) (d : Z) :
  has_node (add_node_depth g n d) m = (bool_decide (n = m) || has_node g m)%bool.
Proof.
  unfold has_node, add_node_depth. cbn [nodes].
  destruct (decide (n = m)) as [->|Hne].
  - rewrite lookup_insert_eq.
    rewrite (bool_decide_eq_true_2 (m = m)) by reflexivity.
    rewrite (bool_decide_eq_true_2 (is_Some _)) by (eexists; reflexivity).
    reflexivity.
  - rewrite lookup_insert_ne by exact Hne.
    rewrite (bool_decide_eq_false_2 (n = m)) by exact Hne. reflexivity.
Qed.

(** [add_row] gives the source a depth when it is new, then the target, and
    adds the edge; nothing else changes. *)
Lemma add_row_spec (g : DiGraph) (row : Row) :
  let d := default 0 (crawl_depth row) in
  let g1 := if has_node g (source_url row) then g
            else add_node_depth g (source_url row) d in
  let g2 := if has_node g1 (target_url row) then g1
            else add_node_depth g1 (target_url row) (d + 1) in
  add_row g row =
  mkGraph (nodes g2) (edges g ∪ {[(source_url row, target_url row)]}).
Proof.
  intros d g1 g2. unfold add_row. fold d.
  assert (E1 : (if negb (has_node g (source_url row))
                then add_node_depth g (source_url row) d else g) = g1).
  { unfold g1. destruct (has_node g (source_url row)); reflexivity. }
  rewrite E1.
  assert (E2 : (if negb (has_node g1 (target_url row))
    then if negb (has_node g1 (target_url row))
      then add_node_depth g1 (target_url row) (d + 1)
      else match nodes g1 !! target_url row with
           | Some (Some current_target_depth) =>
               if d + 1 <? current_target_depth
               then add_node_depth g1 (target_url row) (d + 1) else g1
           | _ => add_node_depth g1 (target_url row) (d + 1)
           end
    else g1) = g2).
  { unfold g2. destruct (has_node g1 (target_url row)); reflexivity. }
  rewrite E2.
  assert (Hs1 : has_node g1 (source_url row) = true).
  { unfold g1. destruct (has_node g (source_url row)) eqn:E; [exact E|].
    rewrite has_node_add_node_depth.
    rewrite (bool_decide_eq_true_2 (_ = _)) by reflexivity. reflexivity. }
  assert (Hs2 : has_node g2 (source_url row) = true).
  { unfold g2. destruct (has_node g1 (target_url row)); [exact Hs1|].
    rewrite has_node_add_node_depth, Hs1. apply orb_true_r. }
  assert (Ht2 : has_node g2 (target_url row) = true).
  { unfold g2. destruct (has_node g1 (target_url row)) eqn:E; [exact E|].
    rewrite has_node_add_node_depth.
    rewrite (bool_decide_eq_true_2 (_ = _)) by reflexivity. reflexivity. }
  assert (Ee : edges g2 = edges g).
  { unfold g2, g1.
    destruct (has_node g (source_url row));
      destruct (has_node _ (target_url row)); reflexivity. }
  unfold add_edge. rewrite (add_node_present g2 _ Hs2).
  rewrite (add_node_present g2 _ Ht2). rewrite Ee. reflexivity.
Qed.

Lemma add_row_edges (g : DiGraph) (row : Row) :
  edges (add_row g row) = edges g ∪ {[(source_url row, target_url row)]}.
Proof. rewrite add_row_spec. reflexivity. Qed.

Lemma depth_add_node_depth (g : DiGraph) (n m : string) (d : Z) :
  depth (add_node_depth g n d) m =
  if bool_decide (n = m) then Some d else depth g m.
Proof.
  unfold depth, add_node_depth. cbn [nodes].
  destruct (decide (n = m)) as [->|Hne].
  - rewrite lookup_insert_eq.
    rewrite (bool_decide_eq_true_2 (m = m)) by reflexivity. reflexivity.
  - rewrite lookup_insert_ne by exact Hne.
    rewrite (bool_decide_eq_false_2 (n = m)) by exact Hne. reflexivity.
Qed.

Lemma attributed_add_node_depth (g : DiGraph) (n : string) (d : Z) :
  attributed g -> attributed (add_node_depth g n d).
Proof.
  intros H m. unfold add_node_depth. cbn [nodes].
  destruct (decide (n = m)) as [->|Hne].
  - rewrite lookup_insert_eq. discriminate.
  - rewrite lookup_insert_ne by exact Hne. apply H.
Qed.

Lemma attributed_add_row (g : DiGraph) (row : Row) :
  attributed g -> attributed (add_row g row).
Proof.
  intros H. rewrite add_row_spec. unfold attributed. cbn [nodes].
  destruct (has_node g (source_url row));
    destruct (has_node _ (target_url row));
    repeat apply attributed_add_node_depth; exact H.
Qed.

Lemma attributed_depth (g : DiGraph) (n : string) :
  attributed g -> (has_node g n = true <-> is_Some (depth g n)).
Proof.
  intros H. rewrite has_node_true. unfold depth. specialize (H n).
  destruct (nodes g !! n) as [[d|]|].
  - split; intros _; eexists; reflexivity.
  - congruence.
  - split; intros [x Hx]; discriminate.
Qed.

Lemma dom_add_node_depth (g : DiGraph) (n : string) (d : Z) :
  dom (nodes (add_node_depth g n d)) = dom (nodes g) ∪ {[n]}.
Proof.
  unfold add_node_depth. cbn [nodes]. rewrite dom_insert_L.
  apply leibniz_equiv. apply (comm (∪)).
Qed.

Lemma dom_has_node (g : DiGraph) (n : string) :
  has_node g n = true -> dom (nodes g) ∪ {[n]} = dom (nodes g).
Proof.
  intros H. apply has_node_true in H. apply elem_of_dom in H.
  apply leibniz_equiv. intros x. rewrite elem_of_union, elem_of_singleton.
  split; [intros [Hx| ->]; assumption | intros Hx; left; exact Hx].
Qed.

Lemma add_row_nodes (g : DiGraph) (row : Row) :
  dom (nodes (add_row g row)) =
  dom (nodes g) ∪ {[source_url row]} ∪ {[target_url row]}.
Proof.
  rewrite add_row_spec. cbn [nodes].
  destruct (has_node g (source_url row)) eqn:Es.
  - rewrite (dom_has_node g _ Es).
    destruct (has_node g (target_url row)) eqn:Et.
    + rewrite (dom_has_node g _ Et). reflexivity.
    + rewrite dom_add_node_depth. reflexivity.
  - rewrite <- (dom_add_node_depth g (source_url row)
                  (default 0 (crawl_depth row))).
    destruct (has_node _ (target_url row)) eqn:Et.
    + rewrite (dom_has_node _ _ Et). reflexivity.
    + rewrite dom_add_node_depth. reflexivity.
Qed.

Lemma depth_ensure (g : DiGraph) (m n : string) (d : Z) :
  attributed g ->
  depth (if has_node g m then g else add_node_depth g m d) n =
  match depth g n with
  | Some x => Some x
  | None => if String.eqb m n then Some d else None
  end.
Proof.
  intros Hg. destruct (has_node g m) eqn:Hm.
  - apply (attributed_depth g m Hg) in Hm. destruct Hm as [x Hx].
    destruct (String.eqb_spec m n) as [->|Hne].
    + rewrite Hx. reflexivity.
    + destruct (depth g n); reflexivity.
  - assert (Hd : depth g m = None).
    { destruct (depth g m) eqn:E; [|reflexivity].
      assert (Hs : is_Some (depth g m)) by (rewrite E; eexists; reflexivity).
      apply (attributed_depth g m Hg) in Hs. congruence. }
    rewrite depth_add_node_depth.
    destruct (String.eqb_spec m n) as [->|Hne].
    + rewrite (bool_decide_eq_true_2 (n = n)) by reflexivity.
      rewrite Hd. reflexivity.
    + rewrite (bool_decide_eq_false_2 (m = n)) by exact Hne.
      destruct (depth g n); reflexivity.
Qed.

Lemma attributed_ensure (g : DiGraph) (m : string) (d : Z) :
  attributed g ->
  attributed (if has_node g m then g else add_node_depth g m d).
Proof.
  intros H. destruct (has_node g m);
    [exact H | apply attributed_add_node_depth; exact H].
Qed.

(** A node keeps the depth it has; a node without one gets the first depth
    the row observes for it. *)
Lemma add_row_depth (g : DiGraph) (row : Row) (n : string) :
  attributed g ->
  depth (add_row g row) n =
  match depth g n with
  | Some d => Some d
  | None => head (observed_depths [row] n)
  end.
Proof.
  intros Hg. rewrite add_row_spec. unfold observed_depths.
  cbn [flat_map]. rewrite app_nil_r.
  set (d := default 0 (crawl_depth row)).
  change (depth (mkGraph ?ns ?es) n) with (depth (mkGraph ns ∅) n).
  match goal with
  | |- depth (mkGraph (nodes ?g2) ∅) n = _ =>
      change (depth (mkGraph (nodes g2) ∅) n) with (depth g2 n)
  end.
  rewrite depth_ensure by (apply attributed_ensure; exact Hg).
  rewrite depth_ensure by exact Hg.
  destruct (depth g n); [reflexivity|].
  destruct (String.eqb (source_url row) n);
    destruct (String.eqb (target_url row) n); reflexivity.
Qed.

Lemma fold_add_row_attributed (data : list Row) (g : DiGraph) :
  attributed g -> attributed (fold_left add_row data g).
Proof.
  revert g. induction data as [|row data IH]; intros g Hg; [exact Hg|].
  cbn [fold_left]. apply IH. apply attributed_add_row. exact Hg.
Qed.

Lemma fold_add_row_edges (data : list Row) (g : DiGraph) :
  edges (fold_left add_row data g) = edges g ∪ row_edges data.
Proof.
  revert g. induction data as [|row data IH]; intros g.
  - unfold row_edges. cbn. rewrite (right_id_L ∅ (∪)). reflexivity.
  - cbn [fold_left]. rewrite IH, add_row_edges. unfold row_edges.
    cbn [map list_to_set]. rewrite (assoc_L (∪)). reflexivity.
Qed.

Lemma fold_add_row_nodes (data : list Row) (g : DiGraph) :
  dom (nodes (fold_left add_row data g)) = dom (nodes g) ∪ row_nodes data.
Proof.
  revert g. induction data as [|row data IH]; intros g.
  - unfold row_nodes. cbn. rewrite (right_id_L ∅ (∪)). reflexivity.
  - cbn [fold_left]. rewrite IH, add_row_nodes. unfold row_nodes.
    cbn [flat_map app list_to_set]. rewrite !(assoc_L (∪)). reflexivity.
Qed.

Lemma observed_depths_cons (row : Row) (data : list Row) (n : string) :
  observed_depths (row :: data) n =
  (observed_depths [row] n ++ observed_depths data n)%list.
Proof.
  unfold observed_depths. cbn [flat_map]. rewrite app_nil_r. reflexivity.
Qed.

Lemma fold_add_row_depth (data : list Row) (g : DiGraph) (n : string) :
  attributed g ->
  depth (fold_left add_row data g) n =
  match depth g n with
  | Some d => Some d
  | None => head (observed_depths data n)
  end.
Proof.
  revert g. induction data as [|row data IH]; intros g Hg.
  - cbn. destruct (depth g n); reflexivity.
  - cbn [fold_left]. rewrite IH by (apply attributed_add_row; exact Hg).
    rewrite add_row_depth by exact Hg.
    rewrite (observed_depths_cons row data n).
    destruct (depth g n); [reflexivity|].
    destruct (observed_depths [row] n); reflexivity.
Qed.

Lemma attributed_empty : attributed Nx.empty.
Proof. intros n. unfold Nx.empty. cbn [nodes]. rewrite lookup_empty. discriminate. Qed.

(** X1: the edges of the assembled graph are the (source, target) pairs of
    the rows, each once however often a row repeats: a set, whatever the
    seed. *)
Theorem assembled_edges_are_row_pairs (data : list Row) (start_url : string) :
  edges (create_graph_from_duckdb data start_url) = row_edges data
  /\ forall u v, (u, v) ∈ edges (create_graph_from_duckdb data start_url) <->
       exists row, row ∈ data /\ source_url row = u /\ target_url row = v.
Proof.
  assert (E : edges (create_graph_from_duckdb data start_url) = row_edges data).
  { unfold create_graph_from_duckdb.
    destruct (has_node _ start_url); cbn [edges add_node_depth];
      rewrite fold_add_row_edges; unfold Nx.empty; cbn [edges];
      apply (left_id_L ∅ (∪)). }
  split; [exact E|]. intros u v. rewrite E. unfold row_edges.
  rewrite elem_of_list_to_set, list_elem_of_fmap. split.
  - intros [row [Hp Hr]]. exists row. inversion Hp. auto.
  - intros [row [Hr [<- <-]]]. exists row. auto.
Qed.

(** X2: the nodes of the assembled graph are the URLs the rows mention, as
    source or as target; the seed is a node only when a row mentions it, so
    no rows give the empty graph. *)
Theorem assembled_nodes_are_row_endpoints (data : list Row) (start_url : string) :
  forall n, has_node (create_graph_from_duckdb data start_url) n = true <->
    exists row, row ∈ data /\ (source_url row = n \/ target_url row = n).
Proof.
  intros n.
  assert (E : dom (nodes (create_graph_from_duckdb data start_url))
              = row_nodes data).
  { unfold create_graph_from_duckdb.
    destruct (has_node _ start_url) eqn:Hs.
    - rewrite dom_add_node_depth, (dom_has_node _ _ Hs), fold_add_row_nodes.
      unfold Nx.empty; cbn [nodes]. rewrite dom_empty_L.
      apply (left_id_L ∅ (∪)).
    - rewrite fold_add_row_nodes.
      unfold Nx.empty; cbn [nodes]. rewrite dom_empty_L.
      apply (left_id_L ∅ (∪)). }
  rewrite has_node_true, <- elem_of_dom, E. unfold row_nodes.
  rewrite elem_of_list_to_set, list_elem_of_In, in_flat_map. split.
  - intros [row [Hr Hn]]. exists row. rewrite list_elem_of_In.
    split; [exact Hr|]. cbn in Hn. destruct Hn as [H|[H|[]]]; auto.
  - intros [row [Hr Hn]]. exists row. rewrite list_elem_of_In in Hr.
    split; [exact Hr|]. cbn. destruct Hn as [H|H]; auto.
Qed.

(** X3: in the assembled graph the seed has depth 0 when a row mentions it,
    and any other URL has the depth of the first row that mentions it (the
    recorded depth where it is the source, one more where it is the target);
    a URL no row mentions has none. *)
Theorem assembled_depth_is_first_observation
    (data : list Row) (start_url n : string) :
  depth (create_graph_from_duckdb data start_url) n =
  if String.eqb n start_url
  then (if has_node (create_graph_from_duckdb data start_url) n
        then Some 0 else None)
  else head (observed_depths data n).
Proof.
  pose proof (fold_add_row_depth data Nx.empty n attributed_empty) as Hd.
  assert (He : depth Nx.empty n = None).
  { unfold depth, Nx.empty. cbn [nodes]. rewrite lookup_empty. reflexivity. }
  rewrite He in Hd.
  pose proof (fold_add_row_attributed data Nx.empty attributed_empty) as Ha.
  unfold create_graph_from_duckdb.
  set (g := fold_left add_row data Nx.empty) in *.
  destruct (String.eqb_spec n start_url) as [->|Hne].
  - destruct (has_node g start_url) eqn:Hs.
    + rewrite has_node_add_node_depth, depth_add_node_depth.
      rewrite (bool_decide_eq_true_2 (start_url = start_url)) by reflexivity.
      reflexivity.
    + rewrite Hs. destruct (depth g start_url) eqn:E; [|reflexivity].
      assert (Hx : is_Some (depth g start_url)) by (rewrite E; eexists; reflexivity).
      apply (attributed_depth g _ Ha) in Hx. congruence.
  - destruct (has_node g start_url).
    + rewrite depth_add_node_depth.
      rewrite (bool_decide_eq_false_2 (start_url = n)) by congruence.
      exact Hd.
    + exact Hd.
Qed.

(** ** The crawl as a breadth-first search *)

Import Bfs.

Lemma depth_add_node (g : DiGraph) (n m : string) :
  depth (add_node g n) m = depth g m.
Proof.
  unfold add_node. destruct (has_node g n) eqn:E; [reflexivity|].
  apply has_node_false in E. unfold depth. cbn [nodes].
  destruct (decide (n = m)) as [->|Hne].
  - rewrite lookup_insert_eq, E. reflexivity.
  - rewrite lookup_insert_ne by exact Hne. reflexivity.
Qed.

Lemma depth_add_edge (g : DiGraph) (u v n : string) :
  depth (add_edge g u v) n = depth g n.
Proof.
  unfold add_edge. cbn zeta.
  change (depth (mkGraph ?ns ?es) n) with (depth (mkGraph ns ∅) n).
  match goal with
  | |- depth (mkGraph (nodes ?g2) ∅) n = _ =>
      change (depth (mkGraph (nodes g2) ∅) n) with (depth g2 n)
  end.
  rewrite !depth_add_node. reflexivity.
Qed.

Lemma dom_add_node (g : DiGraph) (n : string) :
  dom (nodes (add_node g n)) = dom (nodes g) ∪ {[n]}.
Proof.
  unfold add_node. destruct (has_node g n) eqn:E.
  - symmetry. apply dom_has_node. exact E.
  - cbn [nodes]. rewrite dom_insert_L. apply leibniz_equiv. apply (comm (∪)).
Qed.

Lemma dom_add_edge (g : DiGraph) (u v : string) :
  dom (nodes (add_edge g u v)) = dom (nodes g) ∪ {[u]} ∪ {[v]}.
Proof.
  unfold add_edge. cbn [nodes]. rewrite !dom_add_node. reflexivity.
Qed.

Lemma process_links_graph (visited : gset string) (u : string) (d : Z)
    (links : list string) :
  forall g rows queue,
    snd (fst (process_links visited u d links g rows queue))
      = (rows ++ new_rows u d links)%list /\
    (forall n, depth (fst (fst (process_links visited u d links g rows queue))) n
               = depth g n) /\
    (has_node g u = true ->
     dom (nodes (fst (fst (process_links visited u d links g rows queue))))
       = dom (nodes g) ∪ list_to_set links).
Proof.
  induction links as [|link rest IH]; intros g rows queue;
    cbn [process_links fst snd].
  - split; [|split].
    + unfold new_rows. cbn. rewrite app_nil_r. reflexivity.
    + reflexivity.
    + intros _. cbn. rewrite (right_id_L ∅ (∪)). reflexivity.
  - destruct (IH (add_edge g u link)
                 (rows ++ [mkRow u link (Some d)])%list
                 (if bool_decide (link ∈ visited) then queue
                  else (queue ++ [(link, d + 1)])%list)) as (Hr & Hd & Hn).
    split; [|split].
    + rewrite Hr. unfold new_rows. cbn [map]. rewrite <- app_assoc. reflexivity.
    + intros n. rewrite Hd. apply depth_add_edge.
    + intros Hu. rewrite Hn.
      * rewrite dom_add_edge, (dom_has_node g u Hu). cbn [list_to_set].
        rewrite (assoc_L (∪)). reflexivity.
      * apply has_node_true. apply elem_of_dom. rewrite dom_add_edge.
        rewrite (dom_has_node g u Hu). apply elem_of_union_l.
        apply elem_of_dom. apply has_node_true. exact Hu.
Qed.

Lemma visit_graph (st : CrawlManager) (u : string) (d : Z) (links : list string) :
  website_links (visit st u d links) = (website_links st ++ new_rows u d links)%list /\
  (forall n, depth (graph (visit st u d links)) n =
             if bool_decide (u = n) then Some d else depth (graph st) n) /\
  dom (nodes (graph (visit st u d links))) =
    dom (nodes (graph st)) ∪ {[u]} ∪ list_to_set links.
Proof.
  unfold visit.
  pose proof (process_links_graph (visited_urls st ∪ {[u]}) u d links
                (add_node_depth (graph st) u d) [] (urls_to_visit st)) as H.
  destruct (process_links (visited_urls st ∪ {[u]}) u d links
              (add_node_depth (graph st) u d) [] (urls_to_visit st))
    as [[g rows] queue].
  cbn [fst snd] in H. destruct H as (Hr & Hd & Hn).
  cbn [website_links graph]. split; [|split].
  - rewrite Hr. reflexivity.
  - intros n. rewrite Hd. apply depth_add_node_depth.
  - rewrite Hn.
    + rewrite dom_add_node_depth. reflexivity.
    + rewrite has_node_add_node_depth.
      rewrite (bool_decide_eq_true_2 (u = u)) by reflexivity. reflexivity.
Qed.

Lemma elem_of_new_entries (visited : gset string) (d : Z) (links : list string)
    (n : string) (e : Z) :
  (n, e) ∈ new_entries visited d links <->
  e = d + 1 /\ n ∈ links /\ n ∉ visited.
Proof.
  unfold new_entries. rewrite list_elem_of_fmap. split.
  - intros [l [Hp Hl]]. inversion Hp; subst. apply list_elem_of_In in Hl.
    apply List.filter_In in Hl. destruct Hl as [Hl Hv].
    split; [reflexivity|]. split; [apply list_elem_of_In; exact Hl|].
    intros Hin. rewrite (bool_decide_eq_true_2 _ Hin) in Hv. discriminate.
  - intros (-> & Hl & Hv). exists n. split; [reflexivity|].
    apply list_elem_of_In. apply List.filter_In.
    split; [apply list_elem_of_In; exact Hl|].
    rewrite (bool_decide_eq_false_2 _ Hv). reflexivity.
Qed.

Lemma elem_of_new_edges (u : string) (links : list string) (x y : string) :
  (x, y) ∈ new_edges u links <-> x = u /\ y ∈ links.
Proof.
  unfold new_edges. rewrite elem_of_list_to_set, list_elem_of_fmap. split.
  - intros [l [Hp Hl]]. inversion Hp; subst. auto.
  - intros [-> Hl]. exists y. auto.
Qed.

Lemma elem_of_new_rows (u : string) (d : Z) (links : list string) (row : Row) :
  row ∈ new_rows u d links <-> exists l, l ∈ links /\ row = mkRow u l (Some d).
Proof.
  unfold new_rows. rewrite list_elem_of_fmap. split.
  - intros [l [-> Hl]]. exists l. auto.
  - intros [l [Hl ->]]. exists l. auto.
Qed.

Lemma row_edges_app (rows1 rows2 : list Row) :
  row_edges (rows1 ++ rows2) = row_edges rows1 ∪ row_edges rows2.
Proof.
  unfold row_edges. rewrite map_app. apply leibniz_equiv.
  apply list_to_set_app.
Qed.

Lemma row_edges_new_rows (u : string) (d : Z) (links : list string) :
  row_edges (new_rows u d links) = new_edges u links.
Proof.
  unfold row_edges, new_rows, new_edges. rewrite map_map. reflexivity.
Qed.

Lemma StronglySorted_app_intro {A : Type} (R : A -> A -> Prop) (l1 l2 : list A) :
  StronglySorted R l1 -> StronglySorted R l2 ->
  (forall a b, In a l1 -> In b l2 -> R a b) ->
  StronglySorted R (l1 ++ l2).
Proof.
  induction l1 as [|x l1 IH]; intros H1 H2 H; [exact H2|].
  cbn [app]. apply StronglySorted_inv in H1 as [H1 Hx]. constructor.
  - apply IH; [exact H1|exact H2|]. intros a b Ha Hb. apply H; [right; exact Ha|exact Hb].
  - apply Forall_app. split; [exact Hx|].
    apply List.Forall_forall. intros b Hb. apply H; [left; reflexivity|exact Hb].
Qed.

Lemma StronglySorted_constant {A : Type} (R : A -> A -> Prop) (l : list A) :
  (forall a b, In a l -> In b l -> R a b) -> StronglySorted R l.
Proof.
  induction l as [|x l IH]; intros H; constructor.
  - apply IH. intros a b Ha Hb. apply H; right; assumption.
  - apply List.Forall_forall. intros b Hb. apply H; [left; reflexivity|right; exact Hb].
Qed.

Lemma bfs_inv_init (max_depth : Z) (start_url : string) :
  bfs_inv max_depth start_url (init start_url).
Proof.
  constructor; unfold init; cbn [urls_to_visit visited_urls graph website_links].
  - constructor; constructor.
  - intros a b Ha Hb. apply list_elem_of_singleton in Ha, Hb. subst. cbn. lia.
  - intros a Ha. apply list_elem_of_singleton in Ha. subst. cbn. lia.
  - intros u Hu. apply not_elem_of_empty in Hu. destruct Hu.
  - intros u _. unfold depth, Nx.empty. cbn [nodes]. rewrite lookup_empty. reflexivity.
  - intros n. split.
    + intros H. apply has_node_true in H. unfold Nx.empty in H. cbn [nodes] in H.
      rewrite lookup_empty in H. destruct H as [x Hx]. discriminate.
    + intros [H|[u H]]; apply not_elem_of_empty in H; destruct H.
  - reflexivity.
  - intros row Hr. apply not_elem_of_nil in Hr. destruct Hr.
  - right. repeat split; try reflexivity. left. reflexivity.
  - intros n e H. apply list_elem_of_singleton in H. inversion H; subst.
    left. repeat split; reflexivity.
  - intros u v d H. apply not_elem_of_empty in H. destruct H.
  - intros v e H. unfold depth, Nx.empty in H. cbn [nodes] in H.
    rewrite lookup_empty in H. discriminate.
Qed.

Lemma bfs_inv_skip (max_depth : Z) (start_url : string) (st : CrawlManager)
    (u : string) (d : Z) (rest : list (string * Z)) :
  bfs_inv max_depth start_url st ->
  urls_to_visit st = (u, d) :: rest ->
  u ∈ visited_urls st \/ max_depth < d ->
  bfs_inv max_depth start_url (with_queue st rest).
Proof.
  intros [Hs Hsp Hnn Hc Hu Hn He Hr Hst Ho Hrl Hp] Hq Hcase.
  rewrite Hq in *.
  constructor; unfold with_queue;
    cbn [urls_to_visit visited_urls graph website_links].
  - apply StronglySorted_inv in Hs. tauto.
  - intros a b Ha Hb. apply Hsp; right; assumption.
  - intros a Ha. apply Hnn; right; assumption.
  - intros x Hx. destruct (Hc x Hx) as (e & He1 & He2 & He3).
    exists e. split; [exact He1|]. split; [exact He2|].
    intros a Ha. apply He3. right. exact Ha.
  - exact Hu.
  - exact Hn.
  - exact He.
  - exact Hr.
  - destruct Hst as [H|(Hv & Hw & Hg & Hq')]; [left; exact H|].
    right. repeat split; try assumption.
    destruct Hq' as [Hq'|Hq']; [|discriminate].
    inversion Hq'; subst. right. reflexivity.
  - intros n e Hin. apply Ho. right. exact Hin.
  - intros x v dx Hxv Hdx. destruct (Hrl x v dx Hxv Hdx) as [H|[Hv H]];
      [left; exact H|].
    right. split; [exact Hv|]. destruct H as [H|H]; [|right; exact H].
    apply elem_of_cons in H as [H|H]; [|left; exact H].
    inversion H; subst. destruct Hcase as [Hin|Hlt]; [contradiction|].
    right. exact Hlt.
  - exact Hp.
Qed.

Lemma bfs_inv_visit (max_depth : Z) (start_url : string) (st : CrawlManager)
    (u : string) (d : Z) (rest : list (string * Z)) (links : list string) :
  bfs_inv max_depth start_url st ->
  urls_to_visit st = (u, d) :: rest ->
  u ∉ visited_urls st -> d <= max_depth ->
  bfs_inv max_depth start_url (visit (with_queue st rest) u d links).
Proof.
  intros [Hs Hsp Hnn Hc Hu Hn He Hr Hst Ho Hrl Hp] Hq Hnv Hd.
  rewrite Hq in *.
  destruct (visit_fields (with_queue st rest) u d links)
    as (Ev & _ & _ & Eq & Ee).
  destruct (visit_graph (with_queue st rest) u d links) as (Er & Ed & En).
  set (st' := visit (with_queue st rest) u d links) in *.
  unfold with_queue in Ev, Eq, Ee, Er, Ed, En.
  cbn [urls_to_visit visited_urls graph website_links] in Ev, Eq, Ee, Er, Ed, En.
  assert (Hd0 : 0 <= d) by (apply (Hnn (u, d)); left).
  assert (Hrest : forall a, a ∈ rest -> d <= snd a <= d + 1).
  { intros a Ha. split.
    - apply StronglySorted_inv in Hs as [_ Hs].
      rewrite List.Forall_forall in Hs. apply Hs. apply list_elem_of_In. exact Ha.
    - apply (Hsp (u, d) a); [left|right; exact Ha]. }
  assert (Hq' : forall a, a ∈ urls_to_visit st' -> d <= snd a <= d + 1).
  { intros a Ha. rewrite Eq in Ha. apply elem_of_app in Ha as [Ha|Ha].
    - apply Hrest. exact Ha.
    - destruct a as [n e]. apply elem_of_new_entries in Ha as [-> _]. cbn. lia. }
  assert (Hsrc : forall v, (u, v) ∉ edges (graph st)).
  { intros v Hv. rewrite He in Hv. unfold row_edges in Hv.
    apply elem_of_list_to_set, list_elem_of_fmap in Hv as [row [Hp' Hin]].
    inversion Hp'; subst. destruct (Hr row Hin) as (e & _ & Hde).
    rewrite (Hu _ Hnv) in Hde. discriminate. }
  constructor.
  - (* sorted *)
    rewrite Eq. apply StronglySorted_app_intro.
    + apply StronglySorted_inv in Hs. tauto.
    + apply StronglySorted_constant. intros [n e] [m f] Ha Hb.
      apply list_elem_of_In, elem_of_new_entries in Ha as [-> _].
      apply list_elem_of_In, elem_of_new_entries in Hb as [-> _].
      unfold by_depth. cbn. lia.
    + intros a [m f] Ha Hb. apply list_elem_of_In in Ha.
      apply list_elem_of_In, elem_of_new_entries in Hb as [-> _].
      unfold by_depth. cbn. apply Hrest. exact Ha.
  - (* span *)
    intros a b Ha Hb. apply Hq' in Ha, Hb. lia.
  - (* nonneg *)
    intros a Ha. apply Hq' in Ha. lia.
  - (* crawled *)
    intros x Hx. rewrite Ev in Hx. rewrite Ed.
    destruct (decide (u = x)) as [->|Hne].
    + rewrite (bool_decide_eq_true_2 (x = x)) by reflexivity.
      exists d. split; [reflexivity|]. split; [lia|].
      intros a Ha. apply Hq' in Ha. lia.
    + rewrite (bool_decide_eq_false_2 (u = x)) by exact Hne.
      apply elem_of_union in Hx as [Hx|Hx];
        [|apply elem_of_singleton in Hx; congruence].
      destruct (Hc x Hx) as (e & He1 & He2 & He3).
      exists e. split; [exact He1|]. split; [exact He2|].
      intros a Ha. apply Hq' in Ha.
      specialize (He3 (u, d)). cbn in He3.
      assert (e <= d) by (apply He3; left). lia.
  - (* uncrawled *)
    intros x Hx. rewrite Ev in Hx. rewrite Ed.
    apply not_elem_of_union in Hx as [Hx1 Hx2].
    apply not_elem_of_singleton in Hx2.
    rewrite (bool_decide_eq_false_2 (u = x)) by congruence.
    apply Hu. exact Hx1.
  - (* nodes *)
    intros n. rewrite has_node_true, <- elem_of_dom, En, Ev, Ee.
    rewrite !elem_of_union, elem_of_singleton, elem_of_list_to_set.
    rewrite elem_of_dom, <- has_node_true, Hn. split.
    + intros [[[H|[x H]]|H]|H].
      * left. left. exact H.
      * right. exists x. apply elem_of_union_l. exact H.
      * left. right. exact H.
      * right. exists u. apply elem_of_union_r. apply elem_of_new_edges. auto.
    + intros [[H|H]|[x H]].
      * left. left. left. exact H.
      * left. right. exact H.
      * apply elem_of_union in H as [H|H].
        -- left. left. right. exists x. exact H.
        -- apply elem_of_new_edges in H as [_ H]. right. exact H.
  - (* edges *)
    rewrite Ee, Er, row_edges_app, row_edges_new_rows, He. reflexivity.
  - (* rows *)
    intros row Hrow. rewrite Er in Hrow. rewrite Ed.
    apply elem_of_app in Hrow as [Hrow|Hrow].
    + destruct (Hr row Hrow) as (e & He1 & He2). exists e.
      split; [exact He1|].
      destruct (decide (u = source_url row)) as [Heq|Hne].
      * rewrite <- Heq in He2. rewrite (Hu _ Hnv) in He2. discriminate.
      * rewrite (bool_decide_eq_false_2 _ Hne). exact He2.
    + apply elem_of_new_rows in Hrow as [l [_ ->]]. exists d.
      cbn [crawl_depth source_url].
      rewrite (bool_decide_eq_true_2 (u = u)) by reflexivity. auto.
  - (* start *)
    left. rewrite Ed.
    destruct Hst as [H|(Hv & Hw & Hg & Hq0)].
    + destruct (decide (u = start_url)) as [->|Hne].
      * rewrite (Hu _ Hnv) in H. discriminate.
      * rewrite (bool_decide_eq_false_2 _ Hne). exact H.
    + destruct Hq0 as [Hq0|Hq0]; [|discriminate]. inversion Hq0; subst.
      rewrite (bool_decide_eq_true_2 (start_url = start_url)) by reflexivity.
      reflexivity.
  - (* origin *)
    intros n e Hin. right. rewrite Eq in Hin.
    apply elem_of_app in Hin as [Hin|Hin].
    + destruct (Ho n e) as [(-> & -> & Hv)|(x & Hx1 & Hx2)];
        [right; exact Hin| |].
      * exfalso. destruct Hst as [H|(_ & _ & _ & Hq0)].
        -- assert (Hs0 : start_url ∉ visited_urls st)
             by (rewrite Hv; apply not_elem_of_empty).
           rewrite (Hu _ Hs0) in H. discriminate.
        -- destruct Hq0 as [Hq0|Hq0]; [|discriminate].
           inversion Hq0; subst. apply not_elem_of_nil in Hin. exact Hin.
      * exists x. split; [rewrite Ee; apply elem_of_union_l; exact Hx1|].
        rewrite Ed. destruct (decide (u = x)) as [->|Hne].
        -- rewrite (Hu _ Hnv) in Hx2. discriminate.
        -- rewrite (bool_decide_eq_false_2 _ Hne). exact Hx2.
    + apply elem_of_new_entries in Hin as (-> & Hl & _).
      exists u. split; [rewrite Ee; apply elem_of_union_r;
                        apply elem_of_new_edges; auto|].
      rewrite Ed. rewrite (bool_decide_eq_true_2 (u = u)) by reflexivity.
      f_equal. lia.
  - (* relax *)
    intros x v dx Hxv Hdx. rewrite Ee in Hxv. rewrite Ed in Hdx.
    rewrite (Ed v), Ev, Eq.
    apply elem_of_union in Hxv as [Hxv|Hxv].
    + destruct (decide (u = x)) as [->|Hne]; [destruct (Hsrc v Hxv)|].
      rewrite (bool_decide_eq_false_2 _ Hne) in Hdx.
      destruct (decide (u = v)) as [->|Hnv'].
      * rewrite (bool_decide_eq_true_2 (v = v)) by reflexivity.
        left. exists d. split; [reflexivity|].
        destruct (Hrl x v dx Hxv Hdx) as [(e & He1 & _)|[_ [H|H]]].
        -- rewrite (Hu _ Hnv) in He1. discriminate.
        -- apply StronglySorted_inv in Hs as [_ Hs].
           apply elem_of_cons in H as [H|H]; [inversion H; lia|].
           apply Hrest in H. cbn in H. lia.
        -- lia.
      * rewrite (bool_decide_eq_false_2 _ Hnv').
        destruct (Hrl x v dx Hxv Hdx) as [H|[Hv [H|H]]].
        -- left. exact H.
        -- right. split.
           ++ intros Hin. apply elem_of_union in Hin as [Hin|Hin];
                [contradiction|apply elem_of_singleton in Hin; congruence].
           ++ left. apply elem_of_app. left.
              apply elem_of_cons in H as [H|H]; [inversion H; congruence|exact H].
        -- right. split.
           ++ intros Hin. apply elem_of_union in Hin as [Hin|Hin];
                [contradiction|apply elem_of_singleton in Hin; congruence].
           ++ right. exact H.
    + apply elem_of_new_edges in Hxv as [-> Hl].
      rewrite (bool_decide_eq_true_2 (u = u)) in Hdx by reflexivity.
      inversion Hdx; subst dx.
      destruct (decide (u = v)) as [->|Hnv'].
      * rewrite (bool_decide_eq_true_2 (v = v)) by reflexivity.
        left. exists d. split; [reflexivity|lia].
      * rewrite (bool_decide_eq_false_2 _ Hnv').
        destruct (decide (v ∈ visited_urls st)) as [Hv|Hv].
        -- left. destruct (Hc v Hv) as (e & He1 & _ & He3).
           exists e. split; [exact He1|].
           specialize (He3 (u, d)). cbn in He3.
           assert (e <= d) by (apply He3; left). lia.
        -- right. split.
           ++ intros Hin. apply elem_of_union in Hin as [Hin|Hin];
                [contradiction|apply elem_of_singleton in Hin; congruence].
           ++ left. apply elem_of_app. right. apply elem_of_new_entries.
              split; [reflexivity|]. split; [exact Hl|].
              intros Hin. apply elem_of_union in Hin as [Hin|Hin];
                [contradiction|apply elem_of_singleton in Hin; congruence].
  - (* parent *)
    intros v e Hv Hne. rewrite Ed in Hv.
    assert (Hmono : forall x f, depth (graph st) x = Some f ->
                      depth (graph st') x = Some f).
    { intros x f Hx. rewrite Ed. destruct (decide (u = x)) as [->|Hux].
      - rewrite (Hu _ Hnv) in Hx. discriminate.
      - rewrite (bool_decide_eq_false_2 _ Hux). exact Hx. }
    destruct (decide (u = v)) as [->|Hnv'].
    + rewrite (bool_decide_eq_true_2 (v = v)) in Hv by reflexivity.
      inversion Hv; subst e.
      destruct (Ho v d) as [(-> & _)|(x & Hx1 & Hx2)]; [left|congruence|].
      exists x. split; [rewrite Ee; apply elem_of_union_l; exact Hx1|].
      apply Hmono. exact Hx2.
    + rewrite (bool_decide_eq_false_2 _ Hnv') in Hv.
      destruct (Hp v e Hv Hne) as (x & Hx1 & Hx2).
      exists x. split; [rewrite Ee; apply elem_of_union_l; exact Hx1|].
      apply Hmono. exact Hx2.
Qed.

Section CrawlBfs.

Variable check : string -> bool.
Variable list_of_set : gset string -> list string.
Variable net : string -> nat -> option (list string).
Variable max_depth : Z.

Local Abbreviation step := (crawl_step check list_of_set net max_depth).
Local Abbreviation links_of := (page_links check list_of_set net).
Local Abbreviation inv := (crawl_inv check list_of_set net).
Local Abbreviation crawl_loop := (crawl check list_of_set net max_depth).
Local Abbreviation run_loop := (run check list_of_set net max_depth).
Local Abbreviation reach := (reachable check list_of_set net max_depth).
Local Abbreviation links_at_first := (first_links check list_of_set net).

Lemma bfs_inv_step (start_url : string) (st st' : CrawlManager) :
  bfs_inv max_depth start_url st -> step st = Running st' ->
  bfs_inv max_depth start_url st'.
Proof.
  intros Hi Hs.
  destruct (crawl_step_running check list_of_set net max_depth st st' Hs)
    as (u & d & rest & Hq & [[Hc ->]|(Hnv & Hd & links & _ & ->)]).
  - apply (bfs_inv_skip max_depth start_url st u d rest Hi Hq Hc).
  - apply (bfs_inv_visit max_depth start_url st u d rest links Hi Hq Hnv Hd).
Qed.

Lemma bfs_inv_run (start_url : string) (n : nat) :
  forall st st', bfs_inv max_depth start_url st ->
    run_loop n st = Some st' -> bfs_inv max_depth start_url st'.
Proof.
  induction n as [|n IH]; intros st st' Hi Hr; cbn [run] in Hr.
  - inversion Hr; subst. exact Hi.
  - destruct (step st) as [st1| |] eqn:Hs; try discriminate.
    apply (IH st1 st'); [|exact Hr].
    apply (bfs_inv_step start_url st st1 Hi Hs).
Qed.

Lemma bfs_inv_reachable (start_url : string) (st : CrawlManager) :
  reach start_url st -> bfs_inv max_depth start_url st.
Proof.
  intros [n Hr].
  apply (bfs_inv_run start_url n (init start_url) st); [|exact Hr].
  apply bfs_inv_init.
Qed.

Lemma depth_crawled (start_url : string) (st : CrawlManager) (n : string) :
  bfs_inv max_depth start_url st ->
  (n ∈ visited_urls st <-> is_Some (depth (graph st) n)).
Proof.
  intros Hi. split.
  - intros Hn. destruct (bfs_crawled _ _ _ Hi n Hn) as (d & Hd & _).
    rewrite Hd. eexists; reflexivity.
  - intros [d Hd]. destruct (decide (n ∈ visited_urls st)) as [H|H]; [exact H|].
    rewrite (bfs_uncrawled _ _ _ Hi n H) in Hd. discriminate.
Qed.

Lemma edge_row (st : CrawlManager) (u v : string) :
  edges (graph st) = row_edges (website_links st) ->
  ((u, v) ∈ edges (graph st) <->
   exists row, row ∈ website_links st /\ source_url row = u /\ target_url row = v).
Proof.
  intros ->. unfold row_edges.
  rewrite elem_of_list_to_set, list_elem_of_fmap. split.
  - intros [row [Hp Hr]]. exists row. inversion Hp. auto.
  - intros [row [Hr [<- <-]]]. exists row. auto.
Qed.

Lemma edge_source_depth (start_url : string) (st : CrawlManager) (u v : string) :
  bfs_inv max_depth start_url st -> (u, v) ∈ edges (graph st) ->
  exists d, depth (graph st) u = Some d.
Proof.
  intros Hi He. apply (edge_row st u v (bfs_edges _ _ _ Hi)) in He.
  destruct He as (row & Hr & <- & _).
  destruct (bfs_rows _ _ _ Hi row Hr) as (d & _ & Hd). exists d. exact Hd.
Qed.

(** X4: at every point of a crawl the graph has an edge exactly where the
    crawl has inserted a row, and a row carries the depth at which its
    source was crawled, between 0 and [max_depth]. *)
Theorem rows_record_the_edges (start_url : string) (st : CrawlManager) :
  reach start_url st ->
  (forall u v, (u, v) ∈ edges (graph st) <->
     exists row, row ∈ website_links st /\
       source_url row = u /\ target_url row = v) /\
  (forall row, row ∈ website_links st ->
     exists d, crawl_depth row = Some d /\
       depth (graph st) (source_url row) = Some d /\
       source_url row ∈ visited_urls st /\ 0 <= d <= max_depth).
Proof.
  intros Hr. pose proof (bfs_inv_reachable start_url st Hr) as Hi. split.
  - intros u v. apply edge_row. apply (bfs_edges _ _ _ Hi).
  - intros row Hrow. destruct (bfs_rows _ _ _ Hi row Hrow) as (d & Hd1 & Hd2).
    exists d. split; [exact Hd1|]. split; [exact Hd2|].
    assert (Hv : source_url row ∈ visited_urls st).
    { apply (depth_crawled start_url st _ Hi). rewrite Hd2. eexists; reflexivity. }
    split; [exact Hv|].
    destruct (bfs_crawled _ _ _ Hi _ Hv) as (e & He1 & He2 & _).
    rewrite Hd2 in He1. inversion He1; subst. exact He2.
Qed.

(** X5: the queue of a crawl is a breadth-first frontier: its depths never
    decrease from front to back, they span two consecutive levels at most,
    none is negative, and no crawled URL lies deeper than a pending entry. *)
Theorem frontier_sorted_by_depth (start_url : string) (st : CrawlManager) :
  reach start_url st ->
  StronglySorted by_depth (urls_to_visit st) /\
  (forall a b, a ∈ urls_to_visit st -> b ∈ urls_to_visit st ->
     snd b <= snd a + 1) /\
  (forall a, a ∈ urls_to_visit st -> 0 <= snd a) /\
  (forall u d a, depth (graph st) u = Some d -> a ∈ urls_to_visit st ->
     d <= snd a).
Proof.
  intros Hr. pose proof (bfs_inv_reachable start_url st Hr) as Hi.
  split; [apply (bfs_sorted _ _ _ Hi)|].
  split; [apply (bfs_span _ _ _ Hi)|].
  split; [apply (bfs_nonneg _ _ _ Hi)|].
  intros u d a Hd Ha.
  assert (Hv : u ∈ visited_urls st).
  { apply (depth_crawled start_url st _ Hi). rewrite Hd. eexists; reflexivity. }
  destruct (bfs_crawled _ _ _ Hi _ Hv) as (e & He1 & _ & He3).
  rewrite Hd in He1. inversion He1; subst. apply He3. exact Ha.
Qed.

(** X6: in the graph of a crawl the URLs with a [depth] attribute are the
    crawled ones, the attribute lies between 0 and [max_depth], and the
    other nodes are the link targets not crawled (yet). *)
Theorem depth_attribute_marks_crawled (start_url : string) (st : CrawlManager)
    (n : string) :
  reach start_url st ->
  (n ∈ visited_urls st <-> is_Some (depth (graph st) n)) /\
  (forall d, depth (graph st) n = Some d -> 0 <= d <= max_depth) /\
  (has_node (graph st) n = true <->
   n ∈ visited_urls st \/ exists u, (u, n) ∈ edges (graph st)).
Proof.
  intros Hr. pose proof (bfs_inv_reachable start_url st Hr) as Hi.
  split; [apply (depth_crawled start_url st n Hi)|].
  split; [|apply (bfs_nodes _ _ _ Hi)].
  intros d Hd.
  assert (Hv : n ∈ visited_urls st).
  { apply (depth_crawled start_url st _ Hi). rewrite Hd. eexists; reflexivity. }
  destruct (bfs_crawled _ _ _ Hi _ Hv) as (e & He1 & He2 & _).
  rewrite Hd in He1. inversion He1; subst. exact He2.
Qed.

Lemma walk_depth_lower (start_url : string) (st : CrawlManager) :
  bfs_inv max_depth start_url st ->
  forall v k, walk (edges (graph st)) start_url v k ->
  forall e, depth (graph st) v = Some e -> e <= Z.of_nat k.
Proof.
  intros Hi v k Hw. induction Hw as [|v w k Hw IH Hvw]; intros e He.
  - destruct (bfs_start _ _ _ Hi) as [H|(Hv & _)].
    + rewrite H in He. inversion He. lia.
    + assert (Hs : start_url ∉ visited_urls st)
        by (rewrite Hv; apply not_elem_of_empty).
      rewrite (bfs_uncrawled _ _ _ Hi _ Hs) in He. discriminate.
  - destruct (edge_source_depth start_url st v w Hi Hvw) as [dv Hdv].
    specialize (IH dv Hdv).
    destruct (bfs_relax _ _ _ Hi v w dv Hvw Hdv) as [(e' & He1 & He2)|[Hnv _]].
    + rewrite He in He1. inversion He1; subst. lia.
    + rewrite (bfs_uncrawled _ _ _ Hi _ Hnv) in He. discriminate.
Qed.

Lemma walk_depth_upper (start_url : string) (st : CrawlManager) :
  bfs_inv max_depth start_url st ->
  forall k v e, depth (graph st) v = Some e -> Z.to_nat e = k ->
  walk (edges (graph st)) start_url v k.
Proof.
  intros Hi k. induction k as [|k IH]; intros v e He Hk.
  - assert (Hv : v ∈ visited_urls st).
    { apply (depth_crawled start_url st _ Hi). rewrite He. eexists; reflexivity. }
    destruct (bfs_crawled _ _ _ Hi _ Hv) as (e' & He1 & He2 & _).
    rewrite He in He1. inversion He1; subst e'.
    destruct (decide (v = start_url)) as [->|Hne]; [constructor|].
    destruct (bfs_parent _ _ _ Hi v e He Hne) as (u & _ & Hu).
    assert (Huv : u ∈ visited_urls st).
    { apply (depth_crawled start_url st _ Hi). rewrite Hu. eexists; reflexivity. }
    destruct (bfs_crawled _ _ _ Hi _ Huv) as (e' & He1' & He2' & _).
    rewrite Hu in He1'. inversion He1'; subst e'. lia.
  - destruct (decide (v = start_url)) as [->|Hne].
    + destruct (bfs_start _ _ _ Hi) as [H|(Hv & _)].
      * rewrite H in He. inversion He; subst. discriminate.
      * assert (Hs : start_url ∉ visited_urls st)
          by (rewrite Hv; apply not_elem_of_empty).
        rewrite (bfs_uncrawled _ _ _ Hi _ Hs) in He. discriminate.
    + destruct (bfs_parent _ _ _ Hi v e He Hne) as (u & Huv & Hu).
      apply (walk_step _ _ u v k); [|exact Huv].
      apply (IH u (e - 1) Hu). lia.
Qed.

(** X7: the [depth] attribute of a crawled URL is its distance from the
    start URL in the graph of the crawl: a walk of that many edges leads
    from the start URL to it, and no walk does with fewer. *)
Theorem crawl_depth_is_distance (start_url : string) (st : CrawlManager)
    (v : string) (e : Z) :
  reach start_url st -> depth (graph st) v = Some e ->
  0 <= e /\
  walk (edges (graph st)) start_url v (Z.to_nat e) /\
  forall k, walk (edges (graph st)) start_url v k -> (Z.to_nat e <= k)%nat.
Proof.
  intros Hr He. pose proof (bfs_inv_reachable start_url st Hr) as Hi.
  assert (H0 : 0 <= e).
  { assert (Hv : v ∈ visited_urls st).
    { apply (depth_crawled start_url st _ Hi). rewrite He. eexists; reflexivity. }
    destruct (bfs_crawled _ _ _ Hi _ Hv) as (e' & He1 & He2 & _).
    rewrite He in He1. inversion He1; subst e'. lia. }
  split; [exact H0|]. split.
  - apply (walk_depth_upper start_url st Hi _ v e He). reflexivity.
  - intros k Hw. pose proof (walk_depth_lower start_url st Hi v k Hw e He). lia.
Qed.

End CrawlBfs.

(** *** The properties on the sample crawls *)

Lemma rows_record_the_edges_witness :
  match run any_bracketed_netloc elements small_site 2 4 (init page_a) with
  | Some st =>
      (forall u v, (u, v) ∈ edges (graph st) <->
         exists row, row ∈ website_links st /\
           source_url row = u /\ target_url row = v) /\
      (forall row, row ∈ website_links st ->
         exists d, crawl_depth row = Some d /\
           depth (graph st) (source_url row) = Some d /\
           source_url row ∈ visited_urls st /\ 0 <= d <= 2)
  | None => False
  end.
Proof.
  destruct (observe_state (fun _ => true)
              (run any_bracketed_netloc elements small_site 2 4 (init page_a)))
    as (st & E & _); [vm_compute; reflexivity|].
  rewrite E.
  apply (rows_record_the_edges any_bracketed_netloc elements small_site 2
           page_a st).
  exists 4%nat. exact E.
Defined.

(** The crawl of [triangle_site] after two iterations: [b] is pending at
    depth 1 and at depth 2. *)
Lemma frontier_sorted_by_depth_witness :
  match run any_bracketed_netloc elements triangle_site 2 2 (init page_a) with
  | Some st =>
      urls_to_visit st = [(page_b, 1); (page_b, 2)] /\
      StronglySorted by_depth (urls_to_visit st) /\
      (forall a b, a ∈ urls_to_visit st -> b ∈ urls_to_visit st ->
         snd b <= snd a + 1) /\
      (forall a, a ∈ urls_to_visit st -> 0 <= snd a) /\
      (forall u d a, depth (graph st) u = Some d -> a ∈ urls_to_visit st ->
         d <= snd a)
  | None => False
  end.
Proof.
  destruct (observe_state
              (fun st => bool_decide
                 (urls_to_visit st = [(page_b, 1); (page_b, 2)]))
              (run any_bracketed_netloc elements triangle_site 2 2 (init page_a)))
    as (st & E & X); [vm_compute; reflexivity|].
  rewrite E. apply bool_decide_eq_true in X. split; [exact X|].
  apply (frontier_sorted_by_depth any_bracketed_netloc elements triangle_site 2
           page_a st).
  exists 2%nat. exact E.
Defined.

(** The crawl of [small_site] after two iterations: [b] is a node, not yet
    crawled. *)
Lemma depth_attribute_marks_crawled_witness :
  match run any_bracketed_netloc elements small_site 2 2 (init page_a) with
  | Some st =>
      (page_b ∈ visited_urls st <-> is_Some (depth (graph st) page_b)) /\
      (forall d, depth (graph st) page_b = Some d -> 0 <= d <= 2) /\
      (has_node (graph st) page_b = true <->
       page_b ∈ visited_urls st \/ exists u, (u, page_b) ∈ edges (graph st))
  | None => False
  end.
Proof.
  destruct (observe_state (fun _ => true)
              (run any_bracketed_netloc elements small_site 2 2 (init page_a)))
    as (st & E & _); [vm_compute; reflexivity|].
  rewrite E.
  apply (depth_attribute_marks_crawled any_bracketed_netloc elements small_site
           2 page_a st page_b).
  exists 2%nat. exact E.
Defined.

(** The crawl of [small_site] to depth 2 after its four requests: [d] lies
    two edges from [a]. *)
Lemma crawl_depth_is_distance_witness :
  match run any_bracketed_netloc elements small_site 2 4 (init page_a) with
  | Some st =>
      depth (graph st) page_d = Some 2 /\
      walk (edges (graph st)) page_a page_d 2 /\
      forall k, walk (edges (graph st)) page_a page_d k -> (2 <= k)%nat
  | None => False
  end.
Proof.
  destruct (observe_state
              (fun st => bool_decide (depth (graph st) page_d = Some 2))
              (run any_bracketed_netloc elements small_site 2 4 (init page_a)))
    as (st & E & X); [vm_compute; reflexivity|].
  rewrite E. apply bool_decide_eq_true in X. split; [exact X|].
  apply (crawl_depth_is_distance any_bracketed_netloc elements small_site 2
           page_a st page_d 2).
  - exists 4%nat. exact E.
  - exact X.
Defined.

(** ** What a finished crawl has crawled *)

Section CrawlClosure.

Variable check : string -> bool.
Variable list_of_set : gset string -> list string.
Variable net : string -> nat -> option (list string).
Variable max_depth : Z.

Local Abbreviation step := (crawl_step check list_of_set net max_depth).
Local Abbreviation links_of := (page_links check list_of_set net).
Local Abbreviation inv := (crawl_inv check list_of_set net).
Local Abbreviation crawl_loop := (crawl check list_of_set net max_depth).
Local Abbreviation run_loop := (run check list_of_set net max_depth).
Local Abbreviation reach := (reachable check list_of_set net max_depth).
Local Abbreviation links_at_first := (first_links check list_of_set net).

Lemma links_are_edges_step (st st' : CrawlManager) :
  inv st ->
  (forall u v, u ∈ visited_urls st -> v ∈ links_at_first u ->
     (u, v) ∈ edges (graph st)) ->
  step st = Running st' ->
  forall u v, u ∈ visited_urls st' -> v ∈ links_at_first u ->
    (u, v) ∈ edges (graph st').
Proof.
  intros Hi HP Hs.
  destruct (crawl_step_running check list_of_set net max_depth st st' Hs)
    as (x & d & rest & Hq & [[Hc ->]|(Hnv & Hd & links & Hl & Est)]).
  - exact HP.
  - destruct (visit_fields (with_queue st rest) x d links)
      as (Ev & _ & _ & _ & Ee).
    rewrite <- Est in Ev, Ee.
    unfold with_queue in Ev, Ee. cbn [visited_urls graph] in Ev, Ee.
    rewrite (not_fetched_count check list_of_set net st x Hi Hnv) in Hl.
    intros u v Hu Hv. rewrite Ee. rewrite Ev in Hu.
    apply elem_of_union in Hu as [Hu|Hu].
    + apply elem_of_union_l. apply HP; assumption.
    + apply elem_of_singleton in Hu. subst u.
      apply elem_of_union_r. apply elem_of_new_edges. split; [reflexivity|].
      unfold first_links in Hv. rewrite Hl in Hv. exact Hv.
Qed.

Lemma links_are_edges_run (n : nat) :
  forall st st', inv st ->
    (forall u v, u ∈ visited_urls st -> v ∈ links_at_first u ->
       (u, v) ∈ edges (graph st)) ->
    run_loop n st = Some st' ->
    forall u v, u ∈ visited_urls st' -> v ∈ links_at_first u ->
      (u, v) ∈ edges (graph st').
Proof.
  induction n as [|n IH]; intros st st' Hi HP Hr; cbn [run] in Hr.
  - inversion Hr; subst. exact HP.
  - destruct (step st) as [st1| |] eqn:Hs; try discriminate.
    apply (IH st1 st'); [| |exact Hr].
    + apply (inv_step check list_of_set net max_depth st st1 Hi Hs).
    + apply (links_are_edges_step st st1 Hi HP Hs).
Qed.

Lemma links_are_edges (start_url : string) (st : CrawlManager) :
  reach start_url st ->
  forall u v, u ∈ visited_urls st -> v ∈ links_at_first u ->
    (u, v) ∈ edges (graph st).
Proof.
  intros [n Hr].
  apply (links_are_edges_run n (init start_url) st); [| |exact Hr].
  - apply inv_init.
  - intros u v Hu. unfold init in Hu. cbn [visited_urls] in Hu.
    apply not_elem_of_empty in Hu. destruct Hu.
Qed.

Lemma crawl_finished_done (fuel : nat) :
  forall st f, crawl_loop fuel st = Finished f -> urls_to_visit f = [].
Proof.
  induction fuel as [|fuel IH]; intros st f H; cbn [crawl] in H;
    [discriminate|].
  destruct (step st) as [st1|st1|] eqn:Hs.
  - apply (IH st1 f H).
  - discriminate.
  - inversion H; subst.
    apply (crawl_step_done check list_of_set net max_depth). exact Hs.
Qed.

Lemma finished_links_closed (start_url : string) (fuel : nat)
    (f : CrawlManager) (u v : string) (d : Z) :
  crawl_loop fuel (init start_url) = Finished f ->
  depth (graph f) u = Some d -> d < max_depth ->
  v ∈ links_at_first u ->
  v ∈ visited_urls f /\
  exists e, depth (graph f) v = Some e /\ e <= d + 1.
Proof.
  intros Hf Hd Hlt Hv.
  assert (Hr : reach start_url f)
    by (apply (crawl_finished_run check list_of_set net max_depth fuel);
        exact Hf).
  pose proof (bfs_inv_reachable check list_of_set net max_depth start_url f Hr)
    as Hi.
  assert (Hu : u ∈ visited_urls f).
  { apply (depth_crawled max_depth start_url f _ Hi). rewrite Hd.
    eexists; reflexivity. }
  pose proof (links_are_edges start_url f Hr u v Hu Hv) as He.
  destruct (bfs_relax _ _ _ Hi u v d He Hd) as [(e & He1 & He2)|[_ [H|H]]].
  - split; [|exists e; auto].
    apply (depth_crawled max_depth start_url f _ Hi). rewrite He1.
    eexists; reflexivity.
  - rewrite (crawl_finished_done fuel _ f Hf) in H.
    apply not_elem_of_nil in H. destruct H.
  - lia.
Qed.

(** X8: when the crawl ends normally, every link found on a page crawled
    above the depth bound has been crawled too, no deeper than one level
    below that page. *)
Theorem links_crawled_within_depth (start_url : string) (fuel : nat)
    (f : CrawlManager) (u v : string) (d : Z) :
  crawl_loop fuel (init start_url) = Finished f ->
  depth (graph f) u = Some d -> d < max_depth ->
  v ∈ links_at_first u ->
  v ∈ visited_urls f /\
  exists e, depth (graph f) v = Some e /\ e <= d + 1.
Proof. intros. eapply finished_links_closed; eassumption. Qed.

End CrawlClosure.

(** The crawl of [small_site] to depth 2: the link [d] of the page [b]. *)
Lemma links_crawled_within_depth_witness :
  match crawl any_bracketed_netloc elements small_site 2 9 (init page_a) with
  | Finished f =>
      depth (graph f) page_b = Some 1 /\
      page_d ∈ first_links any_bracketed_netloc elements small_site page_b /\
      page_d ∈ visited_urls f /\
      exists e, depth (graph f) page_d = Some e /\ e <= 1 + 1
  | _ => False
  end.
Proof.
  destruct (observe_finished
              (fun f => bool_decide (depth (graph f) page_b = Some 1))
              (crawl any_bracketed_netloc elements small_site 2 9 (init page_a)))
    as (f & E & X); [vm_compute; reflexivity|].
  rewrite E. apply bool_decide_eq_true in X.
  assert (Hl : page_d ∈ first_links any_bracketed_netloc elements small_site
                         page_b) by by_evaluation.
  split; [exact X|]. split; [exact Hl|].
  apply (links_crawled_within_depth any_bracketed_netloc elements small_site 2
           page_a 9 f page_b page_d 1 E X); [lia|exact Hl].
Defined.

(** ** The crawl and the graph rebuilt from its rows *)

Import Replay.

Lemma assembled_edges (data : list Row) (start_url : string) :
  edges (create_graph_from_duckdb data start_url) = row_edges data.
Proof.
  unfold create_graph_from_duckdb.
  destruct (has_node _ start_url); cbn [edges add_node_depth];
    rewrite fold_add_row_edges; unfold Nx.empty; cbn [edges];
    apply (left_id_L ∅ (∪)).
Qed.

Lemma assembled_dom (data : list Row) (start_url : string) :
  dom (nodes (create_graph_from_duckdb data start_url)) = row_nodes data.
Proof.
  unfold create_graph_from_duckdb.
  destruct (has_node _ start_url) eqn:Hs.
  - rewrite dom_add_node_depth, (dom_has_node _ _ Hs), fold_add_row_nodes.
    unfold Nx.empty; cbn [nodes]. rewrite dom_empty_L.
    apply (left_id_L ∅ (∪)).
  - rewrite fold_add_row_nodes.
    unfold Nx.empty; cbn [nodes]. rewrite dom_empty_L.
    apply (left_id_L ∅ (∪)).
Qed.

Lemma elem_of_row_nodes (data : list Row) (n : string) :
  n ∈ row_nodes data <->
  exists row, row ∈ data /\ (source_url row = n \/ target_url row = n).
Proof.
  unfold row_nodes.
  rewrite elem_of_list_to_set, list_elem_of_In, in_flat_map. split.
  - intros [row [Hr Hn]]. exists row. rewrite list_elem_of_In.
    split; [exact Hr|]. cbn in Hn. destruct Hn as [H|[H|[]]]; auto.
  - intros [row [Hr Hn]]. exists row. rewrite list_elem_of_In in Hr.
    split; [exact Hr|]. cbn. destruct Hn as [H|H]; auto.
Qed.

Lemma assembled_has_node (data : list Row) (start_url n : string) :
  has_node (create_graph_from_duckdb data start_url) n = true <->
  exists row, row ∈ data /\ (source_url row = n \/ target_url row = n).
Proof.
  rewrite has_node_true, <- elem_of_dom, assembled_dom.
  apply elem_of_row_nodes.
Qed.

Lemma assembled_depth (data : list Row) (start_url n : string) :
  depth (create_graph_from_duckdb data start_url) n =
  if String.eqb n start_url
  then (if has_node (create_graph_from_duckdb data start_url) n
        then Some 0 else None)
  else first_observed data n.
Proof.
  unfold first_observed.
  pose proof (fold_add_row_depth data Nx.empty n attributed_empty) as Hd.
  assert (He : depth Nx.empty n = None).
  { unfold depth, Nx.empty. cbn [nodes]. rewrite lookup_empty. reflexivity. }
  rewrite He in Hd.
  pose proof (fold_add_row_attributed data Nx.empty attributed_empty) as Ha.
  unfold create_graph_from_duckdb.
  set (g := fold_left add_row data Nx.empty) in *.
  destruct (String.eqb_spec n start_url) as [->|Hne].
  - destruct (has_node g start_url) eqn:Hs.
    + rewrite has_node_add_node_depth, depth_add_node_depth.
      rewrite (bool_decide_eq_true_2 (start_url = start_url)) by reflexivity.
      reflexivity.
    + rewrite Hs. destruct (depth g start_url) eqn:E; [|reflexivity].
      assert (Hx : is_Some (depth g start_url)) by (rewrite E; eexists; reflexivity).
      apply (attributed_depth g _ Ha) in Hx. congruence.
  - destruct (has_node g start_url).
    + rewrite depth_add_node_depth.
      rewrite (bool_decide_eq_false_2 (start_url = n)) by congruence.
      exact Hd.
    + exact Hd.
Qed.

Lemma observed_depths_app (rows1 rows2 : list Row) (n : string) :
  observed_depths (rows1 ++ rows2) n =
  (observed_depths rows1 n ++ observed_depths rows2 n)%list.
Proof. unfold observed_depths. apply flat_map_app. Qed.

Lemma first_observed_app (rows1 rows2 : list Row) (n : string) :
  first_observed (rows1 ++ rows2) n =
  match first_observed rows1 n with
  | Some e => Some e
  | None => first_observed rows2 n
  end.
Proof.
  unfold first_observed. rewrite observed_depths_app.
  destruct (observed_depths rows1 n); reflexivity.
Qed.

Lemma elem_of_observed_depths (data : list Row) (n : string) (e : Z) :
  In e (observed_depths data n) <->
  exists row, row ∈ data /\
    ((source_url row = n /\ e = default 0 (crawl_depth row)) \/
     (target_url row = n /\ e = default 0 (crawl_depth row) + 1)).
Proof.
  unfold observed_depths. rewrite in_flat_map. split.
  - intros [row [Hr He]]. exists row. split; [apply list_elem_of_In; exact Hr|].
    apply in_app_or in He as [He|He].
    + destruct (String.eqb_spec (source_url row) n) as [Hs|Hs]; [|destruct He].
      destruct He as [He|[]]. left. auto.
    + destruct (String.eqb_spec (target_url row) n) as [Ht|Ht]; [|destruct He].
      destruct He as [He|[]]. right. auto.
  - intros [row [Hr He]]. exists row. split; [apply list_elem_of_In; exact Hr|].
    apply in_or_app. destruct He as [[Hs ->]|[Ht ->]].
    + left. rewrite (proj2 (String.eqb_eq _ _) Hs). left. reflexivity.
    + right. rewrite (proj2 (String.eqb_eq _ _) Ht). left. reflexivity.
Qed.

Lemma first_observed_in (data : list Row) (n : string) (e : Z) :
  first_observed data n = Some e -> In e (observed_depths data n).
Proof.
  unfold first_observed. destruct (observed_depths data n); [discriminate|].
  cbn. intros H. inversion H. left. reflexivity.
Qed.

Lemma first_observed_some (data : list Row) (n : string) (e : Z) :
  In e (observed_depths data n) -> is_Some (first_observed data n).
Proof.
  unfold first_observed. destruct (observed_depths data n); [intros []|].
  intros _. eexists; reflexivity.
Qed.

Lemma first_observed_new_rows (u : string) (d : Z) (links : list string)
    (n : string) :
  n <> u ->
  first_observed (new_rows u d links) n =
  if bool_decide (n ∈ links) then Some (d + 1) else None.
Proof.
  intros Hne. destruct (decide (n ∈ links)) as [Hin|Hin].
  - rewrite (bool_decide_eq_true_2 _ Hin).
    assert (Hs : is_Some (first_observed (new_rows u d links) n)).
    { apply (first_observed_some _ _ (d + 1)). apply elem_of_observed_depths.
      exists (mkRow u n (Some d)). split.
      - apply elem_of_new_rows. exists n. auto.
      - right. cbn. auto. }
    destruct Hs as [e He]. rewrite He. f_equal.
    apply first_observed_in, elem_of_observed_depths in He.
    destruct He as (row & Hr & [[Hs He]|[Ht He]]);
      apply elem_of_new_rows in Hr as (l & _ & ->); cbn in *; congruence.
  - rewrite (bool_decide_eq_false_2 _ Hin).
    destruct (first_observed (new_rows u d links) n) as [e|] eqn:He;
      [|reflexivity].
    apply first_observed_in, elem_of_observed_depths in He.
    destruct He as (row & Hr & [[Hs He]|[Ht He]]);
      apply elem_of_new_rows in Hr as (l & Hl & ->); cbn in *; congruence.
Qed.

Lemma replay_inv_init (max_depth : Z) (start_url : string) :
  replay_inv max_depth start_url (init start_url).
Proof.
  constructor; unfold init;
    cbn [urls_to_visit visited_urls graph website_links].
  - intros n d _ H. unfold depth, Nx.empty in H. cbn [nodes] in H.
    rewrite lookup_empty in H. discriminate.
  - intros n e _ H. discriminate.
  - intros n e H _. apply list_elem_of_singleton in H. inversion H; subst.
    left. auto.
  - left. reflexivity.
Qed.

Lemma replay_inv_skip (max_depth : Z) (start_url : string) (st : CrawlManager)
    (u : string) (d : Z) (rest : list (string * Z)) :
  replay_inv max_depth start_url st ->
  urls_to_visit st = (u, d) :: rest ->
  u ∈ visited_urls st \/ max_depth < d ->
  replay_inv max_depth start_url (with_queue st rest).
Proof.
  intros [H1 H2 H3 H4] Hq Hcase. rewrite Hq in *.
  constructor; unfold with_queue;
    cbn [urls_to_visit visited_urls graph website_links].
  - exact H1.
  - intros n e Hn He. destruct (H2 n e Hn He) as [H|H]; [|right; exact H].
    apply elem_of_cons in H as [H|H]; [|left; exact H].
    inversion H; subst. destruct Hcase as [Hin|Hlt]; [contradiction|].
    right. exact Hlt.
  - intros n e Hin Hn. apply H3; [right; exact Hin|exact Hn].
  - exact H4.
Qed.

Lemma replay_inv_visit (max_depth : Z) (start_url : string) (st : CrawlManager)
    (u : string) (d : Z) (rest : list (string * Z)) (links : list string) :
  bfs_inv max_depth start_url st ->
  replay_inv max_depth start_url st ->
  urls_to_visit st = (u, d) :: rest ->
  u ∉ visited_urls st -> d <= max_depth ->
  replay_inv max_depth start_url (visit (with_queue st rest) u d links).
Proof.
  intros [Hs Hsp Hnn Hc Hu Hn He Hr Hst Ho Hrl Hp] [H1 H2 H3 H4] Hq Hnv Hd.
  rewrite Hq in *.
  destruct (visit_fields (with_queue st rest) u d links)
    as (Ev & _ & _ & Eq & Ee).
  destruct (visit_graph (with_queue st rest) u d links) as (Er & Ed & _).
  set (st' := visit (with_queue st rest) u d links) in *.
  unfold with_queue in Ev, Eq, Ee, Er, Ed.
  cbn [urls_to_visit visited_urls graph website_links] in Ev, Eq, Ee, Er, Ed.
  assert (Hrest : forall a, a ∈ rest -> d <= snd a).
  { intros a Ha. apply StronglySorted_inv in Hs as [_ Hs].
    rewrite List.Forall_forall in Hs. apply Hs. apply list_elem_of_In. exact Ha. }
  assert (HK : u <> start_url -> first_observed (website_links st) u = Some d).
  { intros Hne.
    destruct (H3 u d) as [[Hx _]|(e0 & He0 & Hle)]; [left|exact Hnv|congruence|].
    rewrite He0. f_equal.
    destruct (H2 u e0 Hnv He0) as [H|H].
    - apply elem_of_cons in H as [H|H]; [inversion H; reflexivity|].
      apply Hrest in H. cbn in H. lia.
    - lia. }
  assert (HB : forall n e, first_observed (website_links st) n = Some e ->
                 e <= d + 1).
  { intros n e Hne. apply first_observed_in, elem_of_observed_depths in Hne.
    destruct Hne as (row & Hrow & Hcases).
    destruct (Hr row Hrow) as (c & Hc1 & Hc2).
    assert (Hv : source_url row ∈ visited_urls st).
    { destruct (decide (source_url row ∈ visited_urls st)) as [H|H]; [exact H|].
      rewrite (Hu _ H) in Hc2. discriminate. }
    destruct (Hc _ Hv) as (c' & Hc1' & _ & Hc3).
    rewrite Hc2 in Hc1'. inversion Hc1'; subst c'.
    specialize (Hc3 (u, d)). cbn in Hc3.
    assert (c <= d) by (apply Hc3; left).
    rewrite Hc1 in Hcases. cbn in Hcases.
    destruct Hcases as [[_ ->]|[_ ->]]; lia. }
  assert (Hnot : forall n, n ∉ visited_urls st' ->
                   (n ∉ visited_urls st) /\ n <> u).
  { intros n Hn'. rewrite Ev in Hn'. apply not_elem_of_union in Hn' as [Ha Hb].
    apply not_elem_of_singleton in Hb. auto. }
  constructor.
  - (* crawled *)
    intros n dn Hne Hdn. rewrite Ed in Hdn. rewrite Er, first_observed_app.
    destruct (decide (u = n)) as [->|Hun].
    + rewrite (bool_decide_eq_true_2 (n = n)) in Hdn by reflexivity.
      inversion Hdn; subst dn. rewrite (HK Hne). reflexivity.
    + rewrite (bool_decide_eq_false_2 _ Hun) in Hdn.
      rewrite (H1 n dn Hne Hdn). reflexivity.
  - (* pending *)
    intros n e Hn' Hfe. destruct (Hnot n Hn') as [Hnv' Hnu].
    rewrite Er, first_observed_app in Hfe. rewrite Eq.
    destruct (first_observed (website_links st) n) as [e0|] eqn:E0.
    + inversion Hfe; subst e0.
      destruct (H2 n e Hnv' E0) as [H|H]; [|right; exact H].
      left. apply elem_of_app. left.
      apply elem_of_cons in H as [H|H]; [inversion H; congruence|exact H].
    + rewrite (first_observed_new_rows u d links n Hnu) in Hfe.
      destruct (decide (n ∈ links)) as [Hin|Hin].
      * rewrite (bool_decide_eq_true_2 _ Hin) in Hfe. inversion Hfe; subst e.
        left. apply elem_of_app. right. apply elem_of_new_entries.
        split; [reflexivity|]. split; [exact Hin|]. rewrite <- Ev. exact Hn'.
      * rewrite (bool_decide_eq_false_2 _ Hin) in Hfe. discriminate.
  - (* entry *)
    intros n e Hin Hn'. destruct (Hnot n Hn') as [Hnv' Hnu].
    right. rewrite Er, first_observed_app. rewrite Eq in Hin.
    apply elem_of_app in Hin as [Hin|Hin].
    + destruct (H3 n e) as [[-> Hv]|(e0 & He0 & Hle)];
        [right; exact Hin|exact Hnv'| |].
      * exfalso. destruct Hst as [H|(_ & _ & _ & Hq0)].
        -- rewrite (Hu _ Hnv') in H. discriminate.
        -- destruct Hq0 as [Hq0|Hq0]; [|discriminate].
           inversion Hq0; subst. apply not_elem_of_nil in Hin. exact Hin.
      * exists e0. rewrite He0. auto.
    + apply elem_of_new_entries in Hin as (-> & Hl & _).
      destruct (first_observed (website_links st) n) as [e0|] eqn:E0.
      * exists e0. split; [reflexivity|]. apply (HB n e0 E0).
      * exists (d + 1). split; [|lia].
        rewrite (first_observed_new_rows u d links n Hnu).
        rewrite (bool_decide_eq_true_2 _ Hl). reflexivity.
  - (* start *)
    rewrite Er, Ee. destruct H4 as [H|[v Hv]].
    + destruct links as [|l links]; [left; rewrite H; reflexivity|].
      right. exists l. apply elem_of_union_r. apply elem_of_new_edges.
      split; [|left].
      destruct (Ho u d) as [(-> & _)|(x & Hx & _)]; [left|reflexivity|].
      rewrite He, H in Hx. unfold row_edges in Hx. cbn in Hx.
      apply not_elem_of_empty in Hx. destruct Hx.
    + right. exists v. apply elem_of_union_l. exact Hv.
Qed.

Section CrawlReplay.

Variable check : string -> bool.
Variable list_of_set : gset string -> list string.
Variable net : string -> nat -> option (list string).
Variable max_depth : Z.

Local Abbreviation step := (crawl_step check list_of_set net max_depth).
Local Abbreviation crawl_loop := (crawl check list_of_set net max_depth).
Local Abbreviation run_loop := (run check list_of_set net max_depth).
Local Abbreviation reach := (reachable check list_of_set net max_depth).

Lemma replay_inv_run (start_url : string) (n : nat) :
  forall st st',
    bfs_inv max_depth start_url st -> replay_inv max_depth start_url st ->
    run_loop n st = Some st' -> replay_inv max_depth start_url st'.
Proof.
  induction n as [|n IH]; intros st st' Hb Hi Hr; cbn [run] in Hr.
  - inversion Hr; subst. exact Hi.
  - destruct (step st) as [st1| |] eqn:Hs; try discriminate.
    apply (IH st1 st'); [| |exact Hr].
    + apply (bfs_inv_step check list_of_set net max_depth start_url st st1 Hb Hs).
    + destruct (crawl_step_running check list_of_set net max_depth st st1 Hs)
        as (u & d & rest & Hq & [[Hc ->]|(Hnv & Hd & links & _ & ->)]).
      * apply (replay_inv_skip max_depth start_url st u d rest Hi Hq Hc).
      * apply (replay_inv_visit max_depth start_url st u d rest links
                 Hb Hi Hq Hnv Hd).
Qed.

Lemma replay_inv_reachable (start_url : string) (st : CrawlManager) :
  reach start_url st -> replay_inv max_depth start_url st.
Proof.
  intros [n Hr].
  apply (replay_inv_run start_url n (init start_url) st); [| |exact Hr].
  - apply bfs_inv_init.
  - apply replay_inv_init.
Qed.

Lemma crawled_is_mentioned (start_url : string) (st : CrawlManager) (n : string) :
  bfs_inv max_depth start_url st -> replay_inv max_depth start_url st ->
  website_links st <> [] -> n ∈ visited_urls st ->
  exists row, row ∈ website_links st /\
    (source_url row = n \/ target_url row = n).
Proof.
  intros Hb Hi Hne Hn.
  destruct (bfs_crawled _ _ _ Hb n Hn) as (d & Hd & _).
  destruct (decide (n = start_url)) as [->|Hns].
  - destruct (replay_start _ _ _ Hi) as [H|[v Hv]]; [contradiction|].
    apply (edge_row st start_url v (bfs_edges _ _ _ Hb)) in Hv.
    destruct Hv as (row & Hr & Hs & _). exists row. auto.
  - destruct (bfs_parent _ _ _ Hb n d Hd Hns) as (u & Hu & _).
    apply (edge_row st u n (bfs_edges _ _ _ Hb)) in Hu.
    destruct Hu as (row & Hr & _ & Ht). exists row. auto.
Qed.

(** X9: the graph [create_graph_from_duckdb] builds from the rows of a
    crawl has the edges of the crawl's graph and no node the crawl's graph
    lacks; once the crawl has written a row, the two have the same nodes. *)
Theorem rebuilt_graph_matches_crawl (start_url : string) (st : CrawlManager) :
  reach start_url st ->
  edges (create_graph_from_duckdb (website_links st) start_url)
    = edges (graph st) /\
  (forall n,
     has_node (create_graph_from_duckdb (website_links st) start_url) n = true ->
     has_node (graph st) n = true) /\
  (website_links st <> [] ->
   forall n,
     has_node (graph st) n = true ->
     has_node (create_graph_from_duckdb (website_links st) start_url) n = true).
Proof.
  intros Hr.
  pose proof (bfs_inv_reachable check list_of_set net max_depth start_url st Hr)
    as Hb.
  pose proof (replay_inv_reachable start_url st Hr) as Hi.
  split; [|split].
  - rewrite assembled_edges. symmetry. apply (bfs_edges _ _ _ Hb).
  - intros n Hn. apply assembled_has_node in Hn as (row & Hrow & Hcase).
    apply (bfs_nodes _ _ _ Hb).
    assert (He : (source_url row, target_url row) ∈ edges (graph st)).
    { apply (edge_row st _ _ (bfs_edges _ _ _ Hb)). exists row. auto. }
    destruct Hcase as [<-|<-].
    + left. destruct (bfs_rows _ _ _ Hb row Hrow) as (d & _ & Hd).
      apply (depth_crawled max_depth start_url st _ Hb). rewrite Hd.
      eexists; reflexivity.
    + right. exists (source_url row). exact He.
  - intros Hne n Hn. apply assembled_has_node.
    apply (bfs_nodes _ _ _ Hb) in Hn as [Hn|[u Hu]].
    + apply (crawled_is_mentioned start_url st n Hb Hi Hne Hn).
    + apply (edge_row st u n (bfs_edges _ _ _ Hb)) in Hu.
      destruct Hu as (row & Hrow & _ & Ht). exists row. auto.
Qed.

Lemma replay_depth_crawled (start_url : string) (st : CrawlManager)
    (n : string) (d : Z) :
  reach start_url st -> website_links st <> [] ->
  depth (graph st) n = Some d ->
  depth (create_graph_from_duckdb (website_links st) start_url) n = Some d.
Proof.
  intros Hr Hne Hd.
  pose proof (bfs_inv_reachable check list_of_set net max_depth start_url st Hr)
    as Hb.
  pose proof (replay_inv_reachable start_url st Hr) as Hi.
  assert (Hn : n ∈ visited_urls st).
  { apply (depth_crawled max_depth start_url st _ Hb). rewrite Hd.
    eexists; reflexivity. }
  rewrite assembled_depth.
  destruct (String.eqb_spec n start_url) as [->|Hns].
  - rewrite (proj2 (assembled_has_node (website_links st) start_url start_url)
               (crawled_is_mentioned start_url st start_url Hb Hi Hne Hn)).
    destruct (bfs_start _ _ _ Hb) as [H|(Hv & _)].
    + rewrite H in Hd. exact Hd.
    + rewrite Hv in Hn. apply not_elem_of_empty in Hn. destruct Hn.
  - apply (replay_crawled _ _ _ Hi n d Hns Hd).
Qed.

(** X10: read in the order of insertion, the rows of a crawl give every
    crawled URL, in the graph [create_graph_from_duckdb] builds, the depth
    the crawl gave it. *)
Theorem rebuilt_depth_of_crawled (start_url : string) (st : CrawlManager)
    (n : string) (d : Z) :
  reach start_url st -> website_links st <> [] ->
  depth (graph st) n = Some d ->
  depth (create_graph_from_duckdb (website_links st) start_url) n = Some d.
Proof. intros. eapply replay_depth_crawled; eassumption. Qed.

Lemma replay_depth_uncrawled (start_url : string) (fuel : nat)
    (f : CrawlManager) (n : string) :
  crawl_loop fuel (init start_url) = Finished f ->
  has_node (graph f) n = true -> n ∉ visited_urls f ->
  depth (graph f) n = None /\
  depth (create_graph_from_duckdb (website_links f) start_url) n
    = Some (max_depth + 1).
Proof.
  intros Hf Hn Hnv.
  assert (Hr : reach start_url f)
    by (apply (crawl_finished_run check list_of_set net max_depth fuel);
        exact Hf).
  pose proof (bfs_inv_reachable check list_of_set net max_depth start_url f Hr)
    as Hb.
  pose proof (replay_inv_reachable start_url f Hr) as Hi.
  split; [apply (bfs_uncrawled _ _ _ Hb n Hnv)|].
  apply (bfs_nodes _ _ _ Hb) in Hn as [Hn|[u Hu]]; [contradiction|].
  pose proof Hu as Hrow.
  apply (edge_row f u n (bfs_edges _ _ _ Hb)) in Hrow.
  destruct Hrow as (row & Hrow & Hs & Ht).
  destruct (bfs_rows _ _ _ Hb row Hrow) as (c & Hc1 & Hc2).
  assert (Hns : n <> start_url).
  { intros ->. destruct (bfs_start _ _ _ Hb) as [H|(_ & Hw & _)].
    - rewrite (bfs_uncrawled _ _ _ Hb _ Hnv) in H. discriminate.
    - rewrite Hw in Hrow. apply not_elem_of_nil in Hrow. exact Hrow. }
  rewrite assembled_depth.
  rewrite (proj2 (String.eqb_neq n start_url) Hns).
  destruct (first_observed_some (website_links f) n (c + 1)) as [e He].
  { apply elem_of_observed_depths. exists row. split; [exact Hrow|].
    right. rewrite Hc1. cbn. auto. }
  rewrite He. f_equal.
  assert (Hlow : max_depth < e).
  { destruct (replay_pending _ _ _ Hi n e Hnv He) as [H|H]; [|exact H].
    rewrite (crawl_finished_done check list_of_set net max_depth fuel _ f Hf) in H.
    apply not_elem_of_nil in H. destruct H. }
  apply first_observed_in, elem_of_observed_depths in He.
  destruct He as (row' & Hrow' & Hcases).
  destruct (bfs_rows _ _ _ Hb row' Hrow') as (c' & Hc1' & Hc2').
  assert (Hv' : source_url row' ∈ visited_urls f).
  { apply (depth_crawled max_depth start_url f _ Hb). rewrite Hc2'.
    eexists; reflexivity. }
  destruct (bfs_crawled _ _ _ Hb _ Hv') as (c'' & Hc1'' & Hc2'' & _).
  rewrite Hc2' in Hc1''. inversion Hc1''; subst c''.
  rewrite Hc1' in Hcases. cbn in Hcases.
  destruct Hcases as [[_ ->]|[_ ->]]; lia.
Qed.

(** X11: when the crawl has ended normally, a node of its graph that was
    not crawled has no depth there, and depth [max_depth + 1] in the graph
    [create_graph_from_duckdb] builds from the rows in the order of
    insertion. *)
Theorem rebuilt_depth_of_uncrawled (start_url : string) (fuel : nat)
    (f : CrawlManager) (n : string) :
  crawl_loop fuel (init start_url) = Finished f ->
  has_node (graph f) n = true -> n ∉ visited_urls f ->
  depth (graph f) n = None /\
  depth (create_graph_from_duckdb (website_links f) start_url) n
    = Some (max_depth + 1).
Proof. intros. eapply replay_depth_uncrawled; eassumption. Qed.

(** X12: with a negative [max_depth] the crawl ends at once: nothing is
    requested, not even the start URL, and the graph and the table stay
    empty. *)
Theorem negative_max_depth_crawls_nothing (start_url : string) (fuel : nat) :
  max_depth < 0 ->
  exists f,
    crawl_loop (S (S fuel)) (init start_url) = Finished f /\
    fetched f = [] /\ visited_urls f = ∅ /\
    graph f = Nx.empty /\ website_links f = [].
Proof.
  intros Hlt. exists (with_queue (init start_url) []).
  split; [|repeat split].
  cbn [crawl]. unfold crawl_step at 1. unfold init at 1.
  cbn [urls_to_visit with_queue visited_urls].
  assert (Hb : (max_depth <? 0) = true) by (apply Z.ltb_lt; exact Hlt).
  rewrite Hb, orb_true_r. unfold crawl_step, with_queue, init.
  cbn [urls_to_visit]. reflexivity.
Qed.

End CrawlReplay.

(** The crawl of [small_site] to depth 2 after its four requests, and the
    graph rebuilt from its rows. *)
Lemma rebuilt_graph_matches_crawl_witness :
  match run any_bracketed_netloc elements small_site 2 4 (init page_a) with
  | Some st =>
      website_links st <> [] /\
      edges (create_graph_from_duckdb (website_links st) page_a)
        = edges (graph st) /\
      (forall n,
         has_node (create_graph_from_duckdb (website_links st) page_a) n = true
         <-> has_node (graph st) n = true)
  | None => False
  end.
Proof.
  destruct (observe_state
              (fun st => bool_decide (website_links st <> []))
              (run any_bracketed_netloc elements small_site 2 4 (init page_a)))
    as (st & E & X); [vm_compute; reflexivity|].
  rewrite E. apply bool_decide_eq_true in X. split; [exact X|].
  destruct (rebuilt_graph_matches_crawl any_bracketed_netloc elements
              small_site 2 page_a st) as (He & Hn1 & Hn2).
  - exists 4%nat. exact E.
  - split; [exact He|]. intros n. split; [apply Hn1|apply (Hn2 X)].
Defined.

(** The same crawl: [d] has depth 2 in both graphs. *)
Lemma rebuilt_depth_of_crawled_witness :
  match run any_bracketed_netloc elements small_site 2 4 (init page_a) with
  | Some st =>
      depth (graph st) page_d = Some 2 /\
      depth (create_graph_from_duckdb (website_links st) page_a) page_d
        = Some 2
  | None => False
  end.
Proof.
  destruct (observe_state
              (fun st => bool_decide (website_links st <> [])
                         && bool_decide (depth (graph st) page_d = Some 2))%bool
              (run any_bracketed_netloc elements small_site 2 4 (init page_a)))
    as (st & E & X); [vm_compute; reflexivity|].
  rewrite E. apply andb_true_iff in X as [X1 X2].
  apply bool_decide_eq_true in X1. apply bool_decide_eq_true in X2.
  split; [exact X2|].
  apply (rebuilt_depth_of_crawled any_bracketed_netloc elements small_site 2
           page_a st page_d 2); [exists 4%nat; exact E|exact X1|exact X2].
Defined.

(** The crawl of [small_site] to depth 1: [d] is recorded and not crawled. *)
Lemma rebuilt_depth_of_uncrawled_witness :
  match crawl any_bracketed_netloc elements small_site 1 5 (init page_a) with
  | Finished f =>
      has_node (graph f) page_d = true /\ (page_d ∉ visited_urls f) /\
      depth (graph f) page_d = None /\
      depth (create_graph_from_duckdb (website_links f) page_a) page_d
        = Some (1 + 1)
  | _ => False
  end.
Proof.
  destruct (observe_finished
              (fun f => has_node (graph f) page_d
                        && bool_decide (page_d ∉ visited_urls f))%bool
              (crawl any_bracketed_netloc elements small_site 1 5 (init page_a)))
    as (f & E & X); [vm_compute; reflexivity|].
  rewrite E. apply andb_true_iff in X as [X1 X2].
  apply bool_decide_eq_true in X2.
  split; [exact X1|]. split; [exact X2|].
  apply (rebuilt_depth_of_uncrawled any_bracketed_netloc elements small_site 1
           page_a 5 f page_d E X1 X2).
Defined.

(** The crawl of [small_site] with [max_depth = -1]. *)
Lemma negative_max_depth_crawls_nothing_witness :
  exists f,
    crawl any_bracketed_netloc elements small_site (-1) 2 (init page_a)
      = Finished f /\
    fetched f = [] /\ visited_urls f = ∅ /\
    graph f = Nx.empty /\ website_links f = [].
Proof.
  apply (negative_max_depth_crawls_nothing any_bracketed_netloc elements
           small_site (-1) page_a 0).
  lia.
Defined.

(** ** Link extraction on a whole page *)

Section PageLinks.

Variable check : string -> bool.
Variable list_of_set : gset string -> list string.

Lemma collect_links_some (url : string) (hrefs : list string) :
  forall acc links,
    collect_links check url hrefs acc = Some links ->
    (forall l, l ∈ links <->
       l ∈ acc \/ exists href, href ∈ hrefs /\
                    clean_link check url href = Some (Some l)) /\
    (forall href, href ∈ hrefs -> clean_link check url href <> None).
Proof.
  induction hrefs as [|href rest IH]; intros acc links H; cbn [collect_links] in H.
  - inversion H; subst. split.
    + intros l. split; [auto|]. intros [Hl|(h & Hh & _)]; [exact Hl|].
      apply not_elem_of_nil in Hh. destruct Hh.
    + intros h Hh. apply not_elem_of_nil in Hh. destruct Hh.
  - destruct (clean_link check url href) as [[key|]|] eqn:Ec; [| |discriminate].
    + destruct (IH _ _ H) as [IH1 IH2]. split.
      * intros l. rewrite IH1, elem_of_union, elem_of_singleton. split.
        -- intros [[Hl| ->]|(h & Hh & Hc)].
           ++ left. exact Hl.
           ++ right. exists href. split; [left|exact Ec].
           ++ right. exists h. split; [right; exact Hh|exact Hc].
        -- intros [Hl|(h & Hh & Hc)]; [left; left; exact Hl|].
           apply elem_of_cons in Hh as [-> |Hh].
           ++ rewrite Ec in Hc. inversion Hc. left. right. reflexivity.
           ++ right. exists h. auto.
      * intros h Hh. apply elem_of_cons in Hh as [-> |Hh];
          [rewrite Ec; discriminate|apply IH2; exact Hh].
    + destruct (IH _ _ H) as [IH1 IH2]. split.
      * intros l. rewrite IH1. split.
        -- intros [Hl|(h & Hh & Hc)]; [left; exact Hl|].
           right. exists h. split; [right; exact Hh|exact Hc].
        -- intros [Hl|(h & Hh & Hc)]; [left; exact Hl|].
           apply elem_of_cons in Hh as [-> |Hh].
           ++ rewrite Ec in Hc. discriminate.
           ++ right. exists h. auto.
      * intros h Hh. apply elem_of_cons in Hh as [-> |Hh];
          [rewrite Ec; discriminate|apply IH2; exact Hh].
Qed.

Lemma collect_links_none (url : string) (hrefs : list string) :
  forall acc,
    collect_links check url hrefs acc = None ->
    exists href, href ∈ hrefs /\ clean_link check url href = None.
Proof.
  induction hrefs as [|href rest IH]; intros acc H; cbn [collect_links] in H;
    [discriminate|].
  destruct (clean_link check url href) as [[key|]|] eqn:Ec.
  - destruct (IH _ H) as (h & Hh & Hc). exists h. split; [right; exact Hh|exact Hc].
  - destruct (IH _ H) as (h & Hh & Hc). exists h. split; [right; exact Hh|exact Hc].
  - exists href. split; [left|exact Ec].
Qed.

(** X13: the links a page gives are, without repetition, the keys of its
    accepted hrefs; and the function raises exactly when the resolution of
    one of the hrefs of the page does, whatever the other hrefs are. *)
Theorem page_links_are_the_accepted_keys (url : string) (hrefs : list string) :
  (forall s, list_of_set s ≡ₚ elements s) ->
  match get_links_from_single_page check list_of_set (Some hrefs) url with
  | Some links =>
      NoDup links /\
      (forall l, l ∈ links <->
         exists href, href ∈ hrefs /\
           clean_link check url href = Some (Some l)) /\
      (forall href, href ∈ hrefs -> clean_link check url href <> None)
  | None =>
      exists href, href ∈ hrefs /\ clean_link check url href = None
  end.
Proof.
  intros Hperm. unfold get_links_from_single_page.
  destruct (collect_links check url hrefs ∅) as [links|] eqn:Ec.
  - destruct (collect_links_some url hrefs ∅ links Ec) as [H1 H2].
    split; [|split; [|exact H2]].
    + rewrite (Hperm links). apply NoDup_elements.
    + intros l. rewrite (Hperm links), elem_of_elements, H1. split.
      * intros [H|H]; [apply not_elem_of_empty in H; destruct H|exact H].
      * intros H. right. exact H.
  - apply (collect_links_none url hrefs ∅ Ec).
Qed.

End PageLinks.

(** A page with two hrefs of one key, a mail address and a relative href
    with a query. *)
Lemma page_links_are_the_accepted_keys_witness :
  match get_links_from_single_page any_bracketed_netloc elements
          (Some ["/b"; "/b#top"; "mailto:x@example.com"; "c?q=1"]) page_a with
  | Some links =>
      NoDup links /\
      (forall l, l ∈ links <->
         exists href,
           href ∈ ["/b"; "/b#top"; "mailto:x@example.com"; "c?q=1"] /\
           clean_link any_bracketed_netloc page_a href = Some (Some l)) /\
      (forall href,
         href ∈ ["/b"; "/b#top"; "mailto:x@example.com"; "c?q=1"] ->
         clean_link any_bracketed_netloc page_a href <> None)
  | None =>
      exists href,
        href ∈ ["/b"; "/b#top"; "mailto:x@example.com"; "c?q=1"] /\
        clean_link any_bracketed_netloc page_a href = None
  end.
Proof.
  apply (page_links_are_the_accepted_keys any_bracketed_netloc elements page_a
           ["/b"; "/b#top"; "mailto:x@example.com"; "c?q=1"]).
  intros s. reflexivity.
Defined.

(** ** Link extraction: the fragment *)

Lemma urlsplit_hash_free (check : string -> bool) (url d : string)
    (r : SplitResult) :
  urlsplit check url d = Some r ->
  contains "#" (s_netloc r) = false /\
  contains "#" (s_path r) = false /\
  contains "#" (s_query r) = false.
Proof.
  unfold urlsplit.
  set (u0 := PyStr.remove unsafe_url_byte (lstrip c0_control_or_space url)).
  set (d' := PyStr.remove unsafe_url_byte (strip c0_control_or_space d)).
  destruct (split_scheme u0 d') as [sch u1].
  destruct (split_netloc_checked check u1) as [[nl u2]|] eqn:En; [|discriminate].
  destruct (split_netloc_checked_shape check (lacks "#") u1 nl u2 En)
    as (_ & Hnl & _).
  pose proof (cut_fst_lacks "#" u2) as Hh3.
  destruct (cut "#" u2) as [u3 frag]. cbn [fst] in Hh3.
  apply lacks_contains in Hh3.
  pose proof (cut_forallb (lacks "#") "?" u3 Hh3) as [Hh4 Hh5].
  destruct (cut "?" u3) as [u4 qry]. cbn [fst snd] in Hh4, Hh5.
  intros H. injection H as <-. cbn [s_path s_netloc s_query].
  split; [apply (not_delim_lacks "#" nl eq_refl Hnl)|].
  split; apply lacks_contains; assumption.
Qed.

Lemma urlparse_hash_free (check : string -> bool) (url d : string)
    (r : ParseResult) :
  urlparse check url d = Some r ->
  contains "#" (netloc r) = false /\
  contains "#" (path r) = false /\
  contains "#" (params r) = false /\
  contains "#" (query r) = false.
Proof.
  unfold urlparse.
  destruct (urlsplit check url d) as [sr|] eqn:Es; [|discriminate].
  destruct (urlsplit_hash_free check url d sr Es) as (Hn & Hp & Hq).
  pose proof Hp as Hp'. apply lacks_contains in Hp'.
  pose proof (splitparams_forallb _ (s_path sr) Hp') as [Hh1 Hh2].
  destruct (mem (s_scheme sr) uses_params && contains ";" (s_path sr))%bool.
  - destruct (_splitparams (s_path sr)) as [p prm]. cbn [fst snd] in *.
    intros H. injection H as <-. cbn [path netloc params query].
    split; [exact Hn|]. split; [apply lacks_contains, Hh1|].
    split; [apply lacks_contains, Hh2|exact Hq].
  - intros H. injection H as <-. cbn [path netloc params query].
    split; [exact Hn|]. split; [exact Hp|]. split; [reflexivity|exact Hq].
Qed.

Lemma urlunparse_lacks_fragment (r : ParseResult) :
  fragment r = "" ->
  contains "#" (scheme r) = false -> contains "#" (netloc r) = false ->
  contains "#" (path r) = false -> contains "#" (params r) = false ->
  contains "#" (query r) = false ->
  contains "#" (urlunparse r) = false.
Proof.
  destruct r as [sch nl p prm qry frag].
  cbn [query fragment scheme netloc path params].
  intros -> Hs Hn Hp Hm Hq. unfold urlunparse, urlunsplit.
  cbn [query fragment scheme netloc path params truthy].
  set (url := if truthy prm then p ++ ";" ++ prm else p).
  assert (Hu : contains "#" url = false).
  { unfold url. destruct (truthy prm); [|exact Hp].
    rewrite !lacks_append, Hp, Hm. reflexivity. }
  clearbody url.
  assert (Hu' : contains "#" (if (truthy url && negb (starts_slash url))%bool
                              then String "/" url else url) = false).
  { destruct (truthy url && negb (starts_slash url))%bool; [|exact Hu].
    cbn [contains]. exact Hu. }
  destruct (truthy nl || truthy sch && mem sch uses_netloc
            && negb (starts_slashslash url))%bool;
    destruct (truthy sch); destruct (truthy qry);
    rewrite ?lacks_append, ?Hs, ?Hn, ?Hu, ?Hu', ?Hq; reflexivity.
Qed.

Lemma resolved_path_lacks_fragment (segments : list string) :
  Forall (fun w => PyStr.forallb (lacks "#") w = true) segments ->
  contains "#" (resolved_path segments) = false.
Proof.
  intros H. unfold resolved_path.
  set (r := resolve segments []).
  assert (Hr : Forall (fun w => PyStr.forallb (lacks "#") w = true) r).
  { apply resolve_forall; [exact H|constructor]. }
  clearbody r.
  set (r' := if (String.eqb (List.last segments "") "."
                 || String.eqb (List.last segments "") "..")%bool
             then (r ++ [""])%list else r).
  assert (Hr' : Forall (fun w => PyStr.forallb (lacks "#") w = true) r').
  { unfold r'. destruct (_ || _)%bool; [|exact Hr].
    apply Forall_app. split; [exact Hr|]. constructor; [reflexivity|constructor]. }
  clearbody r'.
  pose proof (forallb_join (lacks "#") "/" r' eq_refl Hr') as Hj.
  apply lacks_contains in Hj.
  destruct (truthy (join "/" r')); [exact Hj|reflexivity].
Qed.

(** The key [urljoin] builds from a parsed URL and its own non-empty path
    has no number sign. *)
Lemma urljoin_path_key_fragment (check : string -> bool) (b u : ParseResult) :
  mem (scheme b) ["http"; "https"] = true ->
  contains "#" (netloc b) = false -> contains "#" (params b) = false ->
  contains "#" (query b) = false ->
  starts_slash (path b) = true ->
  contains "?" (path b) = false -> contains "#" (path b) = false ->
  PyStr.forallb (fun a => negb (unsafe_url_byte a)) (path b) = true ->
  urlparse check (path b) (scheme b) = Some u ->
  contains "#" (urljoin_parsed b u (path b)) = false.
Proof.
  intros Hsch Hnb Hmb Hqb Hs Hq Hh Hsafe Hu.
  destruct (urlparse_of_path check (path b) (scheme b) u Hs Hq Hh Hsafe Hsch Hu)
    as (Es & Eq & Ef & _ & _ & _ & Hpath).
  destruct (urlparse_hash_free check (path b) (scheme b) u Hu)
    as (Hnu & Hpu & Hmu & Hqu).
  assert (Hrel : mem (scheme b) uses_relative = true
                 /\ mem (scheme b) uses_netloc = true
                 /\ contains "#" (scheme b) = false).
  { destruct (http_or_https _ Hsch) as [E|E]; rewrite E; repeat split; reflexivity. }
  destruct Hrel as (Hrel & Hnet & Hhs).
  unfold urljoin_parsed.
  rewrite Es, String.eqb_refl, Hrel, Hnet. cbn [negb orb andb].
  destruct (truthy (netloc u)) eqn:Et.
  - apply urlunparse_lacks_fragment; try assumption. rewrite Es. exact Hhs.
  - destruct (negb (truthy (path u)) && negb (truthy (params u)))%bool eqn:Ee.
    + apply urlunparse_lacks_fragment;
        cbn [query fragment scheme netloc path params]; try assumption.
      rewrite Eq. cbn [truthy]. exact Hqb.
    + assert (Hne : path b <> "//").
      { intros E. rewrite E in Hu.
        destruct (http_or_https _ Hsch) as [E'|E']; rewrite E' in Hu;
          vm_compute in Hu; injection Hu as <-; discriminate. }
      rewrite (Hpath eq_refl Hne).
      apply urlunparse_lacks_fragment;
        cbn [query fragment scheme netloc path params]; try assumption.
      apply resolved_path_lacks_fragment, forallb_split, lacks_contains, Hpu.
Qed.

Lemma urlparse_no_fragment (check : string -> bool) (url d : string)
    (r : ParseResult) :
  contains "#" url = false -> urlparse check url d = Some r -> fragment r = "".
Proof.
  intros Hh. unfold urlparse, urlsplit.
  apply lacks_contains in Hh.
  pose proof (forallb_remove_keep (lacks "#") unsafe_url_byte _
                (forallb_lstrip (lacks "#") c0_control_or_space url Hh)) as H0.
  set (u0 := PyStr.remove unsafe_url_byte (lstrip c0_control_or_space url)) in *.
  set (d' := PyStr.remove unsafe_url_byte (strip c0_control_or_space d)).
  pose proof (split_scheme_forallb _ u0 d' H0) as H1.
  destruct (split_scheme u0 d') as [sch u1]. cbn [snd] in H1.
  destruct (split_netloc_checked check u1) as [[nl u2]|] eqn:En; [|discriminate].
  destruct (split_netloc_checked_shape check (lacks "#") u1 nl u2 En)
    as (Hq & _ & _).
  destruct (Hq H1) as [_ H2]. apply lacks_contains in H2.
  rewrite (cut_none "#" u2 H2).
  destruct (cut "?" u2) as [u4 qry].
  cbn [s_scheme s_path s_netloc s_query s_fragment].
  destruct (mem sch uses_params && contains ";" u4)%bool;
    [destruct (_splitparams u4) as [p prm]|];
    intros H; injection H as <-; reflexivity.
Qed.

(** X14: the cleaned URL of an accepted href has no number sign, hence no
    fragment, whenever the path of the resolved URL is not empty. *)
Theorem fragment_discarded (check : string -> bool)
    (url href absolute_url : string) (parsed_url : ParseResult)
    (clean_url : string) :
  urljoin check url href = Some absolute_url ->
  urlparse check absolute_url "" = Some parsed_url ->
  path parsed_url <> "" ->
  clean_link check url href = Some (Some clean_url) ->
  contains "#" clean_url = false /\
  forall r, urlparse check clean_url "" = Some r -> fragment r = "".
Proof.
  intros J U Hne Hc.
  unfold clean_link in Hc. rewrite J, U in Hc.
  destruct (mem (scheme parsed_url) ["http"; "https"]
            && truthy (netloc parsed_url))%bool eqn:Eacc; [|discriminate].
  apply andb_true_iff in Eacc as [Hsch Hnl].
  destruct (urlparse_shape check absolute_url "" parsed_url U)
    as (Hq & Hh & Hsafe & _ & _ & Hpath).
  destruct (urlparse_hash_free check absolute_url "" parsed_url U)
    as (Hn & _ & Hm & Hqy).
  destruct (Hpath Hnl) as [E|Hs]; [contradiction|].
  assert (Ht : truthy (path parsed_url) = true).
  { destruct (starts_slash_inv _ Hs) as [r ->]. reflexivity. }
  rewrite (urljoin_unfold check absolute_url (path parsed_url) parsed_url
             (parsed_netloc_truthy check absolute_url parsed_url U Hnl) Ht U)
    in Hc.
  destruct (urlparse check (path parsed_url) (scheme parsed_url)) as [u|] eqn:Eu;
    [|discriminate].
  injection Hc as <-.
  pose proof (urljoin_path_key_fragment check parsed_url u Hsch Hn Hm Hqy Hs
                Hq Hh Hsafe Eu) as K.
  split; [exact K|].
  intros r Hr. apply (urlparse_no_fragment check _ "" r K Hr).
Qed.

(** An href with a query and a fragment. *)
Lemma fragment_discarded_witness :
  clean_link any_bracketed_netloc "http://example.com/" "/a/b?x=1#frag"
    = Some (Some "http://example.com/a/b") /\
  contains "#" "http://example.com/a/b" = false /\
  forall r, urlparse any_bracketed_netloc "http://example.com/a/b" "" = Some r ->
            fragment r = "".
Proof.
  split; [vm_compute; reflexivity|].
  apply (fragment_discarded any_bracketed_netloc
           "http://example.com/" "/a/b?x=1#frag"
           "http://example.com/a/b?x=1#frag"
           (mkParse "http" "example.com" "/a/b" "" "x=1" "frag")).
  - vm_compute. reflexivity.
  - vm_compute. reflexivity.
  - cbn [path]. discriminate.
  - vm_compute. reflexivity.
Defined.

(** ** Link extraction: the scheme and the network location *)

Lemma urlparse_single_slash_netloc (check : string -> bool) (P sch : string)
    (u : ParseResult) :
  starts_slash P = true -> starts_slashslash P = false ->
  PyStr.forallb (fun a => negb (unsafe_url_byte a)) P = true ->
  mem sch ["http"; "https"] = true ->
  urlparse check P sch = Some u -> netloc u = "".
Proof.
  intros Hs Hss Hsafe Hsch.
  unfold urlparse, urlsplit.
  assert (E1 : lstrip c0_control_or_space P = P).
  { destruct (starts_slash_inv P Hs) as [r ->]. reflexivity. }
  rewrite E1, (remove_id unsafe_url_byte P Hsafe).
  assert (E2 : PyStr.remove unsafe_url_byte (strip c0_control_or_space sch) = sch).
  { destruct (http_or_https sch Hsch) as [-> | ->]; reflexivity. }
  rewrite E2, (split_scheme_slash P sch Hs).
  unfold split_netloc_checked. rewrite Hss.
  destruct (cut "#" P) as [u3 frag]. destruct (cut "?" u3) as [u4 qry].
  cbn [s_scheme s_path s_netloc s_query s_fragment].
  destruct (mem sch uses_params && contains ";" u4)%bool;
    [destruct (_splitparams u4) as [p prm]|];
    intros H; injection H as <-; reflexivity.
Qed.

Lemma truthy_append (x y : string) : truthy x = true -> truthy (x ++ y) = true.
Proof. destruct x; [discriminate|]. reflexivity. Qed.

Lemma resolved_path_truthy (segments : list string) :
  truthy (resolved_path segments) = true.
Proof.
  unfold resolved_path.
  match goal with
  | |- truthy (if truthy ?j then _ else _) = true => destruct (truthy j) eqn:E
  end; [exact E|reflexivity].
Qed.

(** X15: when the path of the resolved URL of an accepted href is not empty
    and does not begin with two slashes, the cleaned URL is the scheme of
    the resolved URL, [://], its network location, and a path that begins
    with a slash. *)
Theorem clean_url_keeps_scheme_and_netloc (check : string -> bool)
    (url href absolute_url : string) (parsed_url : ParseResult)
    (clean_url : string) :
  urljoin check url href = Some absolute_url ->
  urlparse check absolute_url "" = Some parsed_url ->
  path parsed_url <> "" -> starts_slashslash (path parsed_url) = false ->
  clean_link check url href = Some (Some clean_url) ->
  exists tail,
    starts_slash tail = true /\
    clean_url = scheme parsed_url ++ "://" ++ netloc parsed_url ++ tail.
Proof.
  intros J U Hne Hss Hc.
  unfold clean_link in Hc. rewrite J, U in Hc.
  destruct (mem (scheme parsed_url) ["http"; "https"]
            && truthy (netloc parsed_url))%bool eqn:Eacc; [|discriminate].
  apply andb_true_iff in Eacc as [Hsch Hnl].
  destruct (urlparse_shape check absolute_url "" parsed_url U)
    as (Hq & Hh & Hsafe & _ & _ & Hpath).
  destruct (Hpath Hnl) as [E|Hs]; [contradiction|].
  assert (Ht : truthy (path parsed_url) = true).
  { destruct (starts_slash_inv _ Hs) as [r ->]. reflexivity. }
  rewrite (urljoin_unfold check absolute_url (path parsed_url) parsed_url
             (parsed_netloc_truthy check absolute_url parsed_url U Hnl) Ht U)
    in Hc.
  destruct (urlparse check (path parsed_url) (scheme parsed_url)) as [u|] eqn:Eu;
    [|discriminate].
  injection Hc as <-.
  destruct (urlparse_of_path check (path parsed_url) (scheme parsed_url) u
              Hs Hq Hh Hsafe Hsch Eu) as (Es & Eq & Ef & _ & _ & _ & Hpu).
  pose proof (urlparse_single_slash_netloc check _ _ u Hs Hss Hsafe Hsch Eu)
    as En.
  assert (Hne2 : path parsed_url <> "//").
  { intros E. rewrite E in Hss. discriminate. }
  assert (Hsu : starts_slash (path u) = true).
  { apply Hpu; [rewrite En; reflexivity|exact Hne2]. }
  assert (Htu : truthy (path u) = true).
  { destruct (starts_slash_inv _ Hsu) as [r ->]. reflexivity. }
  assert (Hrel : mem (scheme parsed_url) uses_relative = true
                 /\ mem (scheme parsed_url) uses_netloc = true
                 /\ truthy (scheme parsed_url) = true).
  { destruct (http_or_https _ Hsch) as [E|E]; rewrite E; repeat split; reflexivity. }
  destruct Hrel as (Hrel & Hnet & Hts).
  unfold urljoin_parsed.
  rewrite Es, String.eqb_refl, Hrel, Hnet, En, Htu, Hsu, Eq, Ef.
  cbn [negb orb andb truthy].
  unfold urlunparse, urlunsplit.
  cbn [query fragment scheme netloc path params truthy].
  rewrite Hnl, Hts. cbn [orb].
  set (rp := resolved_path (PyStr.split "/" (path u))).
  set (p := if truthy (params u) then rp ++ ";" ++ params u else rp).
  assert (Hp : truthy p = true).
  { unfold p. destruct (truthy (params u)).
    - apply truthy_append. apply resolved_path_truthy.
    - apply resolved_path_truthy. }
  exists (if (truthy p && negb (starts_slash p))%bool then String "/" p else p).
  split; [|reflexivity].
  rewrite Hp. cbn [andb]. destruct (starts_slash p) eqn:E; [exact E|reflexivity].
Qed.

(** A relative href with dot segments, resolved against a page. *)
Lemma clean_url_keeps_scheme_and_netloc_witness :
  clean_link any_bracketed_netloc "https://example.com/x/y" "../a/./b?q=1#f"
    = Some (Some "https://example.com/a/b") /\
  exists tail,
    starts_slash tail = true /\
    "https://example.com/a/b" = "https" ++ "://" ++ "example.com" ++ tail.
Proof.
  split; [vm_compute; reflexivity|].
  apply (clean_url_keeps_scheme_and_netloc any_bracketed_netloc
           "https://example.com/x/y" "../a/./b?q=1#f"
           "https://example.com/a/b?q=1#f"
           (mkParse "https" "example.com" "/a/b" "" "q=1" "f")).
  - vm_compute. reflexivity.
  - vm_compute. reflexivity.
  - cbn [path]. discriminate.
  - reflexivity.
  - vm_compute. reflexivity.
Defined.

(** ** Node labels *)

Lemma length_append (x y : string) :
  String.length (x ++ y) = (String.length x + String.length y)%nat.
Proof.
  induction x as [|a x IH]; [reflexivity|].
  rewrite append_cons. cbn [String.length]. rewrite IH. reflexivity.
Qed.

Lemma length_prefix (n : nat) (s : string) :
  (String.length (Render.prefix n s) <= n)%nat.
Proof.
  unfold Render.prefix. revert s. induction n as [|n IH]; intros s.
  - destruct s; cbn; lia.
  - destruct s as [|a s]; cbn [substring String.length]; [lia|].
    specialize (IH s). lia.
Qed.

Lemma prefix_short (n : nat) (s : string) :
  (String.length s <= n)%nat -> Render.prefix n s = s.
Proof.
  unfold Render.prefix. revert s. induction n as [|n IH]; intros s H.
  - destruct s; [reflexivity|cbn in H; lia].
  - destruct s as [|a s]; [reflexivity|]. cbn [substring]. f_equal.
    apply IH. cbn in H. lia.
Qed.

(** X16: whatever the URL of a node, its label has 40 characters at
    most. *)
Theorem display_label_bounded (check : string -> bool) (node_id label : string) :
  Render.display_label check node_id = Some label ->
  (String.length label <= 40)%nat.
Proof.
  unfold Render.display_label.
  destruct (urlparse check node_id "") as [p|]; [|discriminate].
  intros H. injection H as <-.
  match goal with
  | |- (String.length (if (40 <? String.length ?l)%nat then _ else _) <= 40)%nat =>
      destruct (Nat.ltb_spec 40 (String.length l)) as [Hl|Hl]
  end.
  - rewrite length_append.
    match goal with
    | |- (String.length (Render.prefix 37 ?l) + _ <= 40)%nat =>
        pose proof (length_prefix 37 l) as Hp
    end.
    cbn [String.length]. lia.
  - exact Hl.
Qed.

(** A URL with a long path and a query. *)
Lemma display_label_bounded_witness :
  Render.display_label any_bracketed_netloc
    "http://www.example.com/a/very/long/path/to/some/page.php?x=1"
    = Some "www.example.com/a/very/long/pa..." /\
  (String.length "www.example.com/a/very/long/pa..." <= 40)%nat.
Proof.
  split; [vm_compute; reflexivity|].
  apply (display_label_bounded any_bracketed_netloc
           "http://www.example.com/a/very/long/path/to/some/page.php?x=1").
  vm_compute. reflexivity.
Defined.

(** ** The graph of one page *)

Lemma has_node_dom (g : DiGraph) (n : string) :
  has_node g n = true <-> n ∈ dom (nodes g).
Proof. rewrite has_node_true, elem_of_dom. reflexivity. Qed.

(** The loop [for link in extracted_links] of
    [create_single_page_link_graph]. *)
Lemma add_links_spec (target_url : string) (links : list string) :
  forall g,
    has_node g target_url = true ->
    let g' := fold_left (fun graph link =>
                           add_edge (add_node graph link) target_url link)
                        links g in
    edges g' = edges g ∪ new_edges target_url links /\
    dom (nodes g') = dom (nodes g) ∪ list_to_set links /\
    (forall n, depth g' n = depth g n).
Proof.
  induction links as [|link rest IH]; intros g Hg; cbn [fold_left].
  - split; [|split].
    + unfold new_edges. cbn. rewrite (right_id_L ∅ (∪)). reflexivity.
    + cbn. rewrite (right_id_L ∅ (∪)). reflexivity.
    + reflexivity.
  - assert (Hg' : has_node (add_edge (add_node g link) target_url link)
                           target_url = true).
    { apply has_node_dom. rewrite dom_add_edge, dom_add_node.
      apply elem_of_union_l, elem_of_union_l, elem_of_union_l.
      apply has_node_dom. exact Hg. }
    destruct (IH _ Hg') as (He & Hn & Hd). split; [|split].
    + rewrite He, edges_add_edge, edges_add_node. unfold new_edges.
      cbn [map list_to_set]. rewrite (assoc_L (∪)). reflexivity.
    + rewrite Hn, dom_add_edge, dom_add_node. cbn [list_to_set].
      apply leibniz_equiv. intros x.
      rewrite !elem_of_union, !elem_of_singleton.
      split.
      * intros [[[[H|H]|H]|H]|H]; auto.
        subst x. left. apply has_node_dom. exact Hg.
      * intros [H|[H|H]]; auto 6.
    + intros n. rewrite Hd, depth_add_edge, depth_add_node. reflexivity.
Qed.

Section SinglePageGraph.

Variable check : string -> bool.
Variable list_of_set : gset string -> list string.

(** The cleaned URLs of the accepted hrefs of the page. *)
Local Abbreviation accepted response target_url l :=
  (exists hrefs href, response = Some hrefs /\ href ∈ hrefs /\
                      clean_link check target_url href = Some (Some l)).

Lemma extracted_links_accepted (response : option (list string))
    (target_url : string) (links : list string) :
  (forall s, list_of_set s ≡ₚ elements s) ->
  get_links_from_single_page check list_of_set response target_url = Some links ->
  forall l, l ∈ links <-> accepted response target_url l.
Proof.
  intros Hperm H l. unfold get_links_from_single_page in H.
  destruct response as [hrefs|].
  - destruct (collect_links check target_url hrefs ∅) as [set|] eqn:Ec;
      [|discriminate].
    injection H as <-.
    destruct (collect_links_some check target_url hrefs ∅ set Ec) as [H1 _].
    rewrite (Hperm set), elem_of_elements, H1. split.
    + intros [H|(href & Hh & Hc)]; [apply not_elem_of_empty in H; destruct H|].
      exists hrefs, href. auto.
    + intros (hrefs' & href & E & Hh & Hc). injection E as <-.
      right. exists href. auto.
  - injection H as <-. split.
    + intros H. apply not_elem_of_nil in H. destruct H.
    + intros (hrefs & href & E & _). discriminate.
Qed.

Lemma single_page_graph_unfold (response : option (list string))
    (target_url : string) :
  ScrapeRps.create_single_page_link_graph check list_of_set response target_url =
  match get_links_from_single_page check list_of_set response target_url with
  | None => None
  | Some links =>
      Some (fold_left (fun graph link =>
                         add_edge (add_node graph link) target_url link)
                      links (add_node Nx.empty target_url))
  end.
Proof.
  unfold ScrapeRps.create_single_page_link_graph.
  destruct (get_links_from_single_page check list_of_set response target_url)
    as [[|l links]|]; reflexivity.
Qed.

Lemma has_node_seed (target_url : string) :
  has_node (add_node Nx.empty target_url) target_url = true.
Proof.
  apply has_node_dom. rewrite dom_add_node. apply elem_of_union_r.
  apply elem_of_singleton. reflexivity.
Qed.

(** X17: the graph of one page is a star: its nodes are the page and the
    cleaned URLs of its accepted hrefs, its edges lead from the page to each
    of them, and no node has a depth; a page that cannot be fetched, or has
    no accepted href, gives the page alone. *)
Theorem single_page_graph_is_a_star (response : option (list string))
    (target_url : string) (g : DiGraph) :
  (forall s, list_of_set s ≡ₚ elements s) ->
  ScrapeRps.create_single_page_link_graph check list_of_set response target_url
    = Some g ->
  has_node g target_url = true /\
  (forall u v, (u, v) ∈ edges g <->
     u = target_url /\ accepted response target_url v) /\
  (forall n, has_node g n = true <->
     n = target_url \/ accepted response target_url n) /\
  (forall n, depth g n = None).
Proof.
  intros Hperm H. rewrite single_page_graph_unfold in H.
  destruct (get_links_from_single_page check list_of_set response target_url)
    as [links|] eqn:El; [|discriminate].
  injection H as <-.
  pose proof (extracted_links_accepted response target_url links Hperm El) as Hl.
  destruct (add_links_spec target_url links (add_node Nx.empty target_url)
              (has_node_seed target_url)) as (He & Hn & Hd).
  cbn zeta in He, Hn, Hd.
  assert (Hnodes : forall n,
            has_node (fold_left (fun graph link =>
                        add_edge (add_node graph link) target_url link)
                      links (add_node Nx.empty target_url)) n = true <->
            n = target_url \/ accepted response target_url n).
  { intros n. rewrite has_node_dom, Hn, dom_add_node.
    unfold Nx.empty. cbn [nodes]. rewrite dom_empty_L.
    rewrite !elem_of_union, elem_of_singleton, elem_of_list_to_set, Hl.
    split.
    - intros [[H|H]|H]; [apply not_elem_of_empty in H; destruct H|auto|auto].
    - intros [H|H]; auto. }
  split; [apply Hnodes; left; reflexivity|].
  split; [|split; [exact Hnodes|]].
  - intros u v. rewrite He, edges_add_node. unfold Nx.empty. cbn [edges].
    rewrite elem_of_union, elem_of_new_edges, Hl. split.
    + intros [H|H]; [apply not_elem_of_empty in H; destruct H|exact H].
    + intros H. right. exact H.
  - intros n. rewrite Hd, depth_add_node. unfold depth, Nx.empty.
    cbn [nodes]. rewrite lookup_empty. reflexivity.
Qed.

Lemma record_link_fold (target_url : string) (links : list string) :
  forall g data,
    fold_left (ScrapeToDuckdb.record_link target_url) links (g, data) =
    (fold_left (fun graph link =>
                  add_edge (add_node graph link) target_url link) links g,
     (data ++ map (fun link => mkRow target_url link None) links)%list).
Proof.
  induction links as [|link rest IH]; intros g data; cbn [fold_left map].
  - rewrite app_nil_r. reflexivity.
  - cbn [ScrapeToDuckdb.record_link]. rewrite IH, <- app_assoc. reflexivity.
Qed.

Lemma single_page_db_unfold (response : option (list string))
    (target_url : string) (table : list Row) (insert_ok : bool) :
  ScrapeToDuckdb.create_single_page_link_graph check list_of_set response
    target_url table insert_ok =
  match get_links_from_single_page check list_of_set response target_url with
  | None => None
  | Some links =>
      Some (fold_left (fun graph link =>
                         add_edge (add_node graph link) target_url link)
                      links (add_node Nx.empty target_url),
            if insert_ok
            then (table ++ map (fun link => mkRow target_url link None) links)%list
            else table)
  end.
Proof.
  unfold ScrapeToDuckdb.create_single_page_link_graph.
  destruct (get_links_from_single_page check list_of_set response target_url)
    as [[|l links]|]; [| |reflexivity].
  - cbn [map fold_left]. rewrite app_nil_r. destruct insert_ok; reflexivity.
  - rewrite record_link_fold. reflexivity.
Qed.

(** X18: with a database, [create_single_page_link_graph] returns the
    graph it returns without one, whether the insertion succeeds or not; a
    failed insertion leaves the table as it was, a successful one appends
    one two-column row per link, in the order of the links. *)
Theorem single_page_graph_same_with_database (response : option (list string))
    (target_url : string) (table : list Row) (insert_ok : bool) :
  match ScrapeToDuckdb.create_single_page_link_graph check list_of_set
          response target_url table insert_ok with
  | Some (g, table') =>
      ScrapeRps.create_single_page_link_graph check list_of_set response
        target_url = Some g /\
      exists links,
        get_links_from_single_page check list_of_set response target_url
          = Some links /\
        table' =
          if insert_ok
          then (table ++ map (fun link => mkRow target_url link None) links)%list
          else table
  | None =>
      ScrapeRps.create_single_page_link_graph check list_of_set response
        target_url = None
  end.
Proof.
  rewrite single_page_db_unfold, single_page_graph_unfold.
  destruct (get_links_from_single_page check list_of_set response target_url)
    as [links|]; [|reflexivity].
  split; [reflexivity|]. exists links. split; reflexivity.
Qed.

End SinglePageGraph.

Lemma observe_some {A : Type} (o : option A) :
  from_option (fun _ => true) false o = true -> exists x, o = Some x.
Proof. destruct o as [x|]; [intros _; exists x; reflexivity|discriminate]. Qed.

(** The page [a] with an absolute href, one with a fragment, a relative one
    and a mail address. *)
Lemma single_page_graph_is_a_star_witness :
  match ScrapeRps.create_single_page_link_graph any_bracketed_netloc elements
          (Some [page_b; "/b#top"; "c"; "mailto:x@example.com"]) page_a with
  | Some g =>
      has_node g page_a = true /\
      (forall u v, (u, v) ∈ edges g <->
         u = page_a /\
         exists hrefs href,
           Some [page_b; "/b#top"; "c"; "mailto:x@example.com"] = Some hrefs /\
           href ∈ hrefs /\
           clean_link any_bracketed_netloc page_a href = Some (Some v)) /\
      (forall n, has_node g n = true <->
         n = page_a \/
         exists hrefs href,
           Some [page_b; "/b#top"; "c"; "mailto:x@example.com"] = Some hrefs /\
           href ∈ hrefs /\
           clean_link any_bracketed_netloc page_a href = Some (Some n)) /\
      (forall n, depth g n = None)
  | None => False
  end.
Proof.
  destruct (observe_some
              (ScrapeRps.create_single_page_link_graph any_bracketed_netloc
                 elements
                 (Some [page_b; "/b#top"; "c"; "mailto:x@example.com"]) page_a))
    as (g & E); [vm_compute; reflexivity|].
  rewrite E.
  apply (single_page_graph_is_a_star any_bracketed_netloc elements
           (Some [page_b; "/b#top"; "c"; "mailto:x@example.com"]) page_a g).
  - intros s. reflexivity.
  - exact E.
Defined.

(** ** The graph of one page, rebuilt from its rows *)

Lemma row_edges_two_columns (target_url : string) (links : list string) :
  row_edges (map (fun link => mkRow target_url link None) links)
    = new_edges target_url links.
Proof. unfold row_edges, new_edges. rewrite map_map. reflexivity. Qed.

Lemma elem_of_two_columns (target_url : string) (links : list string)
    (row : Row) :
  row ∈ map (fun link => mkRow target_url link None) links <->
  exists l, l ∈ links /\ row = mkRow target_url l None.
Proof.
  rewrite list_elem_of_fmap. split.
  - intros [l [-> Hl]]. exists l. auto.
  - intros [l [Hl ->]]. exists l. auto.
Qed.

Section SinglePageRebuilt.

Variable check : string -> bool.
Variable list_of_set : gset string -> list string.

(** X19: read back by [create_graph_from_duckdb], the rows that
    [create_single_page_link_graph] has written into an empty table give
    the edges of the graph it returned, the same nodes as soon as the page
    had a link, depth 0 for the page and depth 1 for every other node. *)
Theorem single_page_rows_rebuild_the_star (response : option (list string))
    (target_url : string) (g : DiGraph) (rows : list Row) :
  ScrapeToDuckdb.create_single_page_link_graph check list_of_set response
    target_url [] true = Some (g, rows) ->
  edges (create_graph_from_duckdb rows target_url) = edges g /\
  (forall n, has_node (create_graph_from_duckdb rows target_url) n = true ->
     has_node g n = true) /\
  (rows <> [] ->
   forall n, has_node g n = true ->
     has_node (create_graph_from_duckdb rows target_url) n = true) /\
  (forall n, has_node (create_graph_from_duckdb rows target_url) n = true ->
     depth (create_graph_from_duckdb rows target_url) n
       = Some (if String.eqb n target_url then 0 else 1)).
Proof.
  intros H. rewrite single_page_db_unfold in H.
  destruct (get_links_from_single_page check list_of_set response target_url)
    as [links|]; [|discriminate].
  injection H as <- <-. cbn [app].
  destruct (add_links_spec target_url links (add_node Nx.empty target_url)
              (has_node_seed target_url)) as (He & Hn & _).
  cbn zeta in He, Hn.
  set (g := fold_left (fun graph link =>
                         add_edge (add_node graph link) target_url link)
                      links (add_node Nx.empty target_url)) in *.
  set (rows := map (fun link => mkRow target_url link None) links).
  assert (Hg : forall n, has_node g n = true <-> n = target_url \/ n ∈ links).
  { intros n. rewrite has_node_dom, Hn, dom_add_node.
    unfold Nx.empty. cbn [nodes]. rewrite dom_empty_L.
    rewrite !elem_of_union, elem_of_singleton, elem_of_list_to_set. split.
    - intros [[H|H]|H]; [apply not_elem_of_empty in H; destruct H|auto|auto].
    - intros [H|H]; auto. }
  assert (Hr : forall n,
            has_node (create_graph_from_duckdb rows target_url) n = true <->
            (links <> [] /\ n = target_url) \/ n ∈ links).
  { intros n. rewrite assembled_has_node. split.
    - intros (row & Hrow & Hcase).
      apply elem_of_two_columns in Hrow as (l & Hl & ->).
      cbn in Hcase. destruct Hcase as [<-|<-].
      + left. split; [|reflexivity]. intros E. rewrite E in Hl.
        apply not_elem_of_nil in Hl. exact Hl.
      + right. exact Hl.
    - intros [[Hne ->]|Hl].
      + destruct links as [|l links']; [contradiction|].
        exists (mkRow target_url l None). split; [left|left; reflexivity].
      + exists (mkRow target_url n None). split; [|right; reflexivity].
        apply elem_of_two_columns. exists n. auto. }
  split; [|split; [|split]].
  - rewrite assembled_edges. unfold rows. rewrite row_edges_two_columns, He.
    rewrite edges_add_node. unfold Nx.empty. cbn [edges].
    rewrite (left_id_L ∅ (∪)). reflexivity.
  - intros n Hn'. apply Hg. apply Hr in Hn' as [[_ ->]|Hl]; auto.
  - intros Hne n Hn'. apply Hr. apply Hg in Hn' as [->|Hl]; [|auto].
    left. split; [|reflexivity]. intros E. apply Hne. unfold rows.
    rewrite E. reflexivity.
  - intros n Hn'. rewrite assembled_depth, Hn'.
    destruct (String.eqb_spec n target_url) as [->|Hne]; [reflexivity|].
    apply Hr in Hn' as [[_ ->]|Hl]; [contradiction|].
    destruct (first_observed_some rows n (0 + 1)) as [e He'].
    { apply elem_of_observed_depths. exists (mkRow target_url n None).
      split; [apply elem_of_two_columns; exists n; auto|].
      right. cbn. auto. }
    rewrite He'. f_equal.
    apply first_observed_in, elem_of_observed_depths in He'.
    destruct He' as (row & Hrow & Hcase).
    apply elem_of_two_columns in Hrow as (l & _ & ->).
    cbn in Hcase. destruct Hcase as [[E _]|[_ ->]]; [congruence|reflexivity].
Qed.

End SinglePageRebuilt.

(** The page [a] with three hrefs, two of them of one key. *)
Lemma single_page_rows_rebuild_the_star_witness :
  match ScrapeToDuckdb.create_single_page_link_graph any_bracketed_netloc
          elements (Some [page_b; "/b#top"; "c"]) page_a [] true with
  | Some (g, rows) =>
      rows <> [] /\
      edges (create_graph_from_duckdb rows page_a) = edges g /\
      (forall n, has_node (create_graph_from_duckdb rows page_a) n = true <->
         has_node g n = true) /\
      (forall n, has_node (create_graph_from_duckdb rows page_a) n = true ->
         depth (create_graph_from_duckdb rows page_a) n
           = Some (if String.eqb n page_a then 0 else 1))
  | None => False
  end.
Proof.
  destruct (observe_some
              (ScrapeToDuckdb.create_single_page_link_graph
                 any_bracketed_netloc elements
                 (Some [page_b; "/b#top"; "c"]) page_a [] true))
    as ([g rows] & E); [vm_compute; reflexivity|].
  rewrite E.
  destruct (single_page_rows_rebuild_the_star any_bracketed_netloc elements
              (Some [page_b; "/b#top"; "c"]) page_a g rows E)
    as (He & Hn1 & Hn2 & Hd).
  assert (Hne : rows <> []).
  { intros ->. vm_compute in E. discriminate. }
  split; [exact Hne|]. split; [exact He|]. split; [|exact Hd].
  intros n. split; [apply Hn1|apply (Hn2 Hne)].
Defined.

(** ** Rows that repeat a link *)

Lemma add_row_known (g : DiGraph) (row : Row) :
  has_node g (source_url row) = true -> has_node g (target_url row) = true ->
  (source_url row, target_url row) ∈ edges g ->
  add_row g row = g.
Proof.
  intros Hs Ht He. rewrite add_row_spec. cbn zeta. rewrite Hs, Ht.
  destruct g as [ns es]. cbn [nodes edges] in *. f_equal.
  apply leibniz_equiv. intros x. rewrite elem_of_union, elem_of_singleton.
  split; [intros [H| ->]; assumption|auto].
Qed.

Lemma fold_add_row_known (extra : list Row) (g : DiGraph) :
  (forall row, row ∈ extra ->
     has_node g (source_url row) = true /\ has_node g (target_url row) = true /\
     (source_url row, target_url row) ∈ edges g) ->
  fold_left add_row extra g = g.
Proof.
  induction extra as [|row extra IH]; intros H; cbn [fold_left]; [reflexivity|].
  destruct (H row) as (Hs & Ht & He); [left|].
  rewrite (add_row_known g row Hs Ht He). apply IH.
  intros r Hr. apply H. right. exact Hr.
Qed.

(** X20: rows that repeat links the table already holds, at whatever
    depth, change nothing in the graph [create_graph_from_duckdb] builds
    when they come after them: so a table filled twice by the same run gives
    the graph of the table filled once. *)
Theorem repeated_rows_change_nothing (data extra : list Row)
    (start_url : string) :
  (forall row, row ∈ extra ->
     exists row0, row0 ∈ data /\ source_url row0 = source_url row /\
                  target_url row0 = target_url row) ->
  create_graph_from_duckdb (data ++ extra) start_url
    = create_graph_from_duckdb data start_url.
Proof.
  intros H. unfold create_graph_from_duckdb. rewrite fold_left_app.
  rewrite fold_add_row_known; [reflexivity|].
  intros row Hrow. destruct (H row Hrow) as (row0 & H0 & Es & Et).
  assert (Hdom : forall n, n ∈ row_nodes data ->
            has_node (fold_left add_row data Nx.empty) n = true).
  { intros n Hn. apply has_node_dom. rewrite fold_add_row_nodes.
    apply elem_of_union_r. exact Hn. }
  split; [|split].
  - apply Hdom, elem_of_row_nodes. exists row0. auto.
  - apply Hdom, elem_of_row_nodes. exists row0. auto.
  - rewrite fold_add_row_edges. apply elem_of_union_r. unfold row_edges.
    apply elem_of_list_to_set, list_elem_of_fmap. exists row0.
    split; [rewrite Es, Et; reflexivity|exact H0].
Qed.

(** The rows of a crawl, read twice, the second time with other depths. *)
Lemma repeated_rows_change_nothing_witness :
  create_graph_from_duckdb
    (shuffled_rows ++ [mkRow seed page_a (Some 5); mkRow page_a page_b None])
    seed
  = create_graph_from_duckdb shuffled_rows seed.
Proof.
  apply (repeated_rows_change_nothing shuffled_rows
           [mkRow seed page_a (Some 5); mkRow page_a page_b None] seed).
  intros row Hrow.
  apply elem_of_cons in Hrow as [-> |Hrow].
  - exists (mkRow seed page_a (Some 0)). split; [right; left|].
    split; reflexivity.
  - apply elem_of_cons in Hrow as [-> |Hrow].
    + exists (mkRow page_a page_b (Some 1)). split; [left|].
      split; reflexivity.
    + apply not_elem_of_nil in Hrow. destruct Hrow.
Defined.

(** ** A crawl that a [ValueError] ends *)

Section CrawlCrash.

Variable check : string -> bool.
Variable list_of_set : gset string -> list string.
Variable net : string -> nat -> option (list string).
Variable max_depth : Z.

Local Abbreviation step := (crawl_step check list_of_set net max_depth).
Local Abbreviation crawl_loop := (crawl check list_of_set net max_depth).
Local Abbreviation run_loop := (run check list_of_set net max_depth).
Local Abbreviation reach := (reachable check list_of_set net max_depth).

(** X21: when a [ValueError] ends the crawl, what it has recorded is
    consistent: the table holds a row exactly for every edge of the graph,
    and the page whose links could not be extracted is marked visited, has
    its depth in the graph and no outgoing edge, and is the last URL
    requested. *)
Theorem crash_leaves_rows_and_edges_consistent (start_url : string)
    (fuel : nat) (f : CrawlManager) :
  crawl_loop fuel (init start_url) = Crashed f ->
  (forall u v, (u, v) ∈ edges (graph f) <->
     exists row, row ∈ website_links f /\
       source_url row = u /\ target_url row = v) /\
  exists u d,
    head (fetched f) = Some u /\ u ∈ visited_urls f /\
    depth (graph f) u = Some d /\ 0 <= d <= max_depth /\
    (forall v, (u, v) ∉ edges (graph f)) /\
    exists k hrefs href,
      net u k = Some hrefs /\ href ∈ hrefs /\ clean_link check u href = None.
Proof.
  intros Hf.
  destruct (crawl_crashed_run check list_of_set net max_depth fuel _ f Hf)
    as (n & st1 & Hrun & Hstep).
  assert (Hr : reach start_url st1) by (exists n; exact Hrun).
  pose proof (bfs_inv_reachable check list_of_set net max_depth start_url st1 Hr)
    as Hb.
  pose proof (inv_reachable check list_of_set net max_depth start_url st1 Hr)
    as Hi.
  destruct (crawl_step_raised_state check list_of_set net max_depth st1 f Hstep)
    as (u & d & rest & Hq & Hnv & ->).
  unfold interrupted, with_queue.
  cbn [visited_urls urls_to_visit graph website_links fetched].
  assert (Hedges : edges (add_node_depth (graph st1) u d) = edges (graph st1))
    by reflexivity.
  split.
  - intros x v. rewrite Hedges. apply edge_row. apply (bfs_edges _ _ _ Hb).
  - exists u, d. split; [reflexivity|].
    split; [apply elem_of_union_r, elem_of_singleton; reflexivity|].
    split; [rewrite depth_add_node_depth;
            rewrite (bool_decide_eq_true_2 (u = u)) by reflexivity;
            reflexivity|].
    split.
    { split.
      - apply (bfs_nonneg _ _ _ Hb (u, d)). rewrite Hq. left.
      - unfold crawl_step in Hstep. rewrite Hq in Hstep.
        cbn [with_queue visited_urls fetched] in Hstep.
        rewrite (bool_decide_eq_false_2 _ Hnv) in Hstep. cbn [orb] in Hstep.
        destruct (max_depth <? d) eqn:E; [discriminate|].
        apply Z.ltb_ge in E. exact E. }
    split.
    { intros v Hv. rewrite Hedges in Hv.
      destruct (edge_source_depth max_depth start_url st1 u v Hb Hv) as [e He].
      rewrite (bfs_uncrawled _ _ _ Hb u Hnv) in He. discriminate. }
    unfold crawl_step in Hstep. rewrite Hq in Hstep.
    cbn [with_queue visited_urls fetched] in Hstep.
    rewrite (bool_decide_eq_false_2 _ Hnv) in Hstep. cbn [orb] in Hstep.
    destruct (max_depth <? d); [discriminate|].
    destruct (page_links check list_of_set net u
                (count_occ string_dec (fetched st1) u)) as [links|] eqn:El;
      [discriminate|].
    unfold page_links, _get_links_from_page, get_links_from_single_page in El.
    destruct (net u (count_occ string_dec (fetched st1) u)) as [hrefs|] eqn:En;
      [|discriminate].
    destruct (collect_links check u hrefs ∅) as [set|] eqn:Ec; [discriminate|].
    destruct (collect_links_none check u hrefs ∅ Ec) as (href & Hh & Hc).
    exists (count_occ string_dec (fetched st1) u), hrefs, href. auto.
Qed.

End CrawlCrash.

(** The crawl of [malformed_site] from [b]: the page [b] is recorded, then
    the links of [a] cannot be extracted. *)
Lemma crash_leaves_rows_and_edges_consistent_witness :
  match crawl any_bracketed_netloc elements malformed_site 2 5 (init page_b) with
  | Crashed f =>
      website_links f = [mkRow page_b page_a (Some 0)] /\
      (forall u v, (u, v) ∈ edges (graph f) <->
         exists row, row ∈ website_links f /\
           source_url row = u /\ target_url row = v) /\
      exists u d,
        head (fetched f) = Some u /\ u ∈ visited_urls f /\
        depth (graph f) u = Some d /\ 0 <= d <= 2 /\
        (forall v, (u, v) ∉ edges (graph f)) /\
        exists k hrefs href,
          malformed_site u k = Some hrefs /\ href ∈ hrefs /\
          clean_link any_bracketed_netloc u href = None
  | _ => False
  end.
Proof.
  assert (X : exists f,
            crawl any_bracketed_netloc elements malformed_site 2 5 (init page_b)
              = Crashed f /\
            website_links f = [mkRow page_b page_a (Some 0)]).
  { destruct (crawl any_bracketed_netloc elements malformed_site 2 5
                (init page_b)) as [f|f|] eqn:E.
    - vm_compute in E. discriminate.
    - exists f. split; [reflexivity|].
      vm_compute in E. injection E as <-. reflexivity.
    - vm_compute in E. discriminate. }
  destruct X as (f & E & Hw). rewrite E. split; [exact Hw|].
  apply (crash_leaves_rows_and_edges_consistent any_bracketed_netloc elements
           malformed_site 2 page_b 5 f E).
Defined.

(** ** What a finished crawl has reached *)

Import Reach.

Section CrawlReach.

Variable check : string -> bool.
Variable list_of_set : gset string -> list string.
Variable net : string -> nat -> option (list string).
Variable max_depth : Z.

Local Abbreviation crawl_loop := (crawl check list_of_set net max_depth).
Local Abbreviation reach := (reachable check list_of_set net max_depth).
Local Abbreviation links_at_first := (first_links check list_of_set net).

Lemma walk_edges_links (start_url : string) (st : CrawlManager) :
  crawl_inv check list_of_set net st ->
  forall v k, walk (edges (graph st)) start_url v k ->
    link_walk links_at_first start_url v k.
Proof.
  intros Hi v k Hw. induction Hw as [|v w k Hw IH Hvw]; [constructor|].
  apply (link_walk_step _ _ v w k IH).
  apply (inv_edges _ _ _ _ Hi v w Hvw).
Qed.

Lemma finished_start_crawled (start_url : string) (fuel : nat)
    (f : CrawlManager) :
  crawl_loop fuel (init start_url) = Finished f -> 0 <= max_depth ->
  depth (graph f) start_url = Some 0.
Proof.
  intros Hf H0.
  assert (Hr : reach start_url f)
    by (apply (crawl_finished_run check list_of_set net max_depth fuel);
        exact Hf).
  pose proof (bfs_inv_reachable check list_of_set net max_depth start_url f Hr)
    as Hb.
  assert (Hv : start_url ∈ visited_urls f).
  { apply (crawl_finished_pending check list_of_set net max_depth fuel
             (init start_url) f Hf start_url 0); [left|exact H0]. }
  destruct (bfs_start _ _ _ Hb) as [H|(Hv' & _)]; [exact H|].
  rewrite Hv' in Hv. apply not_elem_of_empty in Hv. destruct Hv.
Qed.

Lemma link_walk_crawled (start_url : string) (fuel : nat) (f : CrawlManager) :
  crawl_loop fuel (init start_url) = Finished f ->
  forall v k, link_walk links_at_first start_url v k ->
    Z.of_nat k <= max_depth ->
    exists d, depth (graph f) v = Some d /\ d <= Z.of_nat k.
Proof.
  intros Hf v k Hw. induction Hw as [|v w k Hw IH Hvw]; intros Hk.
  - exists 0. split; [|lia].
    apply (finished_start_crawled start_url fuel f Hf). lia.
  - destruct IH as (d & Hd & Hle); [lia|].
    destruct (finished_links_closed check list_of_set net max_depth start_url
                fuel f v w d Hf Hd) as (_ & e & He & Hle'); [lia|exact Hvw|].
    exists e. split; [exact He|lia].
Qed.

Lemma finished_reach (start_url : string)
    (fuel : nat) (f : CrawlManager) :
  crawl_loop fuel (init start_url) = Finished f ->
  (forall v, v ∈ visited_urls f <->
     exists k, Z.of_nat k <= max_depth /\
               link_walk links_at_first start_url v k) /\
  (forall v d, depth (graph f) v = Some d ->
     0 <= d /\
     link_walk links_at_first start_url v (Z.to_nat d) /\
     forall k, link_walk links_at_first start_url v k -> (Z.to_nat d <= k)%nat).
Proof.
  intros Hf.
  assert (Hr : reach start_url f)
    by (apply (crawl_finished_run check list_of_set net max_depth fuel);
        exact Hf).
  pose proof (bfs_inv_reachable check list_of_set net max_depth start_url f Hr)
    as Hb.
  pose proof (inv_reachable check list_of_set net max_depth start_url f Hr)
    as Hi.
  assert (Hwalk : forall v d, depth (graph f) v = Some d ->
            0 <= d <= max_depth /\
            link_walk links_at_first start_url v (Z.to_nat d)).
  { intros v d Hd.
    assert (Hv : v ∈ visited_urls f).
    { apply (depth_crawled max_depth start_url f _ Hb). rewrite Hd.
      eexists; reflexivity. }
    destruct (bfs_crawled _ _ _ Hb _ Hv) as (d' & Hd' & Hrange & _).
    rewrite Hd in Hd'. inversion Hd'; subst d'. split; [exact Hrange|].
    apply (walk_edges_links start_url f Hi).
    apply (walk_depth_upper max_depth start_url f Hb _ v d Hd). reflexivity. }
  split.
  - intros v. split.
    + intros Hv. destruct (bfs_crawled _ _ _ Hb _ Hv) as (d & Hd & _).
      destruct (Hwalk v d Hd) as [Hrange Hw].
      exists (Z.to_nat d). split; [lia|exact Hw].
    + intros (k & Hk & Hw).
      destruct (link_walk_crawled start_url fuel f Hf v k Hw Hk) as (d & Hd & _).
      apply (depth_crawled max_depth start_url f _ Hb). rewrite Hd.
      eexists; reflexivity.
  - intros v d Hd. destruct (Hwalk v d Hd) as [Hrange Hw].
    split; [lia|]. split; [exact Hw|].
    intros k Hk. destruct (Z_le_gt_dec (Z.of_nat k) max_depth) as [Hle|Hgt].
    + destruct (link_walk_crawled start_url fuel f Hf v k Hk Hle)
        as (d' & Hd' & Hle').
      rewrite Hd in Hd'. inversion Hd'; subst d'. lia.
    + lia.
Qed.

(** X22: a crawl that ends normally has crawled exactly the URLs that a
    walk of at most [max_depth] links reaches from the start URL, and the
    depth of a crawled URL is the length of a shortest such walk. *)
Theorem crawl_reaches_what_is_within_max_depth (start_url : string)
    (fuel : nat) (f : CrawlManager) :
  crawl_loop fuel (init start_url) = Finished f ->
  (forall v, v ∈ visited_urls f <->
     exists k, Z.of_nat k <= max_depth /\
               link_walk links_at_first start_url v k) /\
  (forall v d, depth (graph f) v = Some d ->
     0 <= d /\
     link_walk links_at_first start_url v (Z.to_nat d) /\
     forall k, link_walk links_at_first start_url v k -> (Z.to_nat d <= k)%nat).
Proof. intros. eapply finished_reach; eassumption. Qed.

(** X23: in the graph [create_graph_from_duckdb] builds from the rows of a
    crawl that ended normally, read in the order of insertion, the start
    URL has depth 0 and every other node a depth from 1 to [max_depth + 1];
    so with [max_depth] up to 2 no node but the start URL gets the colour of
    the other depths. *)
Theorem rebuilt_depths_fit_the_colours (start_url : string)
    (fuel : nat) (f : CrawlManager) (n : string) :
  crawl_loop fuel (init start_url) = Finished f ->
  has_node (create_graph_from_duckdb (website_links f) start_url) n = true ->
  exists d,
    depth (create_graph_from_duckdb (website_links f) start_url) n = Some d /\
    ((n = start_url /\ d = 0) \/ (n <> start_url /\ 1 <= d <= max_depth + 1)) /\
    (max_depth <= 2 ->
     Render.node_color start_url n
       (Render.node_depth
          (create_graph_from_duckdb (website_links f) start_url) n)
       <> "lightblue").
Proof.
  intros Hf Hn.
  assert (Hr : reach start_url f)
    by (apply (crawl_finished_run check list_of_set net max_depth fuel);
        exact Hf).
  pose proof (bfs_inv_reachable check list_of_set net max_depth start_url f Hr)
    as Hb.
  pose proof Hn as Hrow. apply assembled_has_node in Hrow.
  destruct Hrow as (row & Hrow & Hcase).
  assert (Hne : website_links f <> []).
  { intros E. rewrite E in Hrow. apply not_elem_of_nil in Hrow. exact Hrow. }
  assert (Hg : has_node (graph f) n = true).
  { apply (bfs_nodes _ _ _ Hb).
    assert (He : (source_url row, target_url row) ∈ edges (graph f)).
    { apply (edge_row f _ _ (bfs_edges _ _ _ Hb)). exists row. auto. }
    destruct Hcase as [<-|<-].
    - left. destruct (bfs_rows _ _ _ Hb row Hrow) as (d & _ & Hd).
      apply (depth_crawled max_depth start_url f _ Hb). rewrite Hd.
      eexists; reflexivity.
    - right. exists (source_url row). exact He. }
  assert (H0 : 0 <= max_depth).
  { destruct (bfs_rows _ _ _ Hb row Hrow) as (c & _ & Hc).
    assert (Hv : source_url row ∈ visited_urls f).
    { apply (depth_crawled max_depth start_url f _ Hb). rewrite Hc.
      eexists; reflexivity. }
    destruct (bfs_crawled _ _ _ Hb _ Hv) as (c' & _ & Hrange & _). lia. }
  assert (Hcol : forall d,
            depth (create_graph_from_duckdb (website_links f) start_url) n
              = Some d ->
            (n = start_url /\ d = 0) \/ (n <> start_url /\ 1 <= d <= max_depth + 1) ->
            max_depth <= 2 ->
            Render.node_color start_url n
              (Render.node_depth
                 (create_graph_from_duckdb (website_links f) start_url) n)
              <> "lightblue").
  { intros d Hd Hrange Hmax. unfold Render.node_depth, Render.node_color.
    rewrite Hd. cbn [default from_option]. change (id d) with d.
    destruct Hrange as [[-> _]|[Hns Hrange]].
    - rewrite String.eqb_refl. discriminate.
    - rewrite (proj2 (String.eqb_neq n start_url) Hns).
      destruct (Z.eqb_spec d 1); [discriminate|].
      destruct (Z.eqb_spec d 2); [discriminate|].
      destruct (Z.eqb_spec d 3); [discriminate|]. lia. }
  destruct (decide (n ∈ visited_urls f)) as [Hv|Hv].
  - destruct (bfs_crawled _ _ _ Hb _ Hv) as (d & Hd & Hrange & _).
    pose proof (replay_depth_crawled check list_of_set net max_depth start_url
                  f n d Hr Hne Hd) as Hd'.
    assert (Hcases : (n = start_url /\ d = 0)
                     \/ (n <> start_url /\ 1 <= d <= max_depth + 1)).
    { destruct (decide (n = start_url)) as [->|Hns].
      - left. split; [reflexivity|].
        rewrite (finished_start_crawled start_url fuel f Hf H0) in Hd.
        inversion Hd. reflexivity.
      - right. split; [exact Hns|].
        destruct (bfs_parent _ _ _ Hb n d Hd Hns) as (u & _ & Hu).
        assert (Huv : u ∈ visited_urls f).
        { apply (depth_crawled max_depth start_url f _ Hb). rewrite Hu.
          eexists; reflexivity. }
        destruct (bfs_crawled _ _ _ Hb _ Huv) as (e & He & Hre & _).
        rewrite Hu in He. inversion He; subst e. lia. }
    exists d. split; [exact Hd'|]. split; [exact Hcases|].
    apply (Hcol d Hd' Hcases).
  - destruct (replay_depth_uncrawled check list_of_set net max_depth start_url
                fuel f n Hf Hg Hv) as [_ Hd'].
    assert (Hns : n <> start_url).
    { intros ->. apply Hv.
      apply (depth_crawled max_depth start_url f _ Hb).
      rewrite (finished_start_crawled start_url fuel f Hf H0).
      eexists; reflexivity. }
    assert (Hcases : (n = start_url /\ max_depth + 1 = 0)
                     \/ (n <> start_url /\ 1 <= max_depth + 1 <= max_depth + 1)).
    { right. split; [exact Hns|lia]. }
    exists (max_depth + 1). split; [exact Hd'|]. split; [exact Hcases|].
    apply (Hcol (max_depth + 1) Hd' Hcases).
Qed.

End CrawlReach.

(** The crawl of [small_site] to depth 1 reaches [a], [b] and [c]. *)
Lemma crawl_reaches_what_is_within_max_depth_witness :
  match crawl any_bracketed_netloc elements small_site 1 5 (init page_a) with
  | Finished f =>
      visited_urls f = {[page_a; page_b; page_c]} /\
      (forall v, v ∈ visited_urls f <->
         exists k, Z.of_nat k <= 1 /\
           link_walk (first_links any_bracketed_netloc elements small_site)
             page_a v k) /\
      (forall v d, depth (graph f) v = Some d ->
         0 <= d /\
         link_walk (first_links any_bracketed_netloc elements small_site)
           page_a v (Z.to_nat d) /\
         forall k,
           link_walk (first_links any_bracketed_netloc elements small_site)
             page_a v k -> (Z.to_nat d <= k)%nat)
  | _ => False
  end.
Proof.
  destruct (observe_finished
              (fun f => bool_decide
                 (visited_urls f = {[page_a; page_b; page_c]}))
              (crawl any_bracketed_netloc elements small_site 1 5 (init page_a)))
    as (f & E & X); [vm_compute; reflexivity|].
  rewrite E. apply bool_decide_eq_true in X. split; [exact X|].
  apply (crawl_reaches_what_is_within_max_depth any_bracketed_netloc elements
           small_site 1 page_a 5 f E).
Defined.

(** The crawl of [small_site] to depth 2: the node [d] of the rebuilt
    graph. *)
Lemma rebuilt_depths_fit_the_colours_witness :
  match crawl any_bracketed_netloc elements small_site 2 9 (init page_a) with
  | Finished f =>
      has_node (create_graph_from_duckdb (website_links f) page_a) page_d
        = true /\
      exists d,
        depth (create_graph_from_duckdb (website_links f) page_a) page_d
          = Some d /\
        ((page_d = page_a /\ d = 0) \/ (page_d <> page_a /\ 1 <= d <= 2 + 1)) /\
        Render.node_color page_a page_d
          (Render.node_depth
             (create_graph_from_duckdb (website_links f) page_a) page_d)
          <> "lightblue"
  | _ => False
  end.
Proof.
  destruct (observe_finished
              (fun f => has_node
                 (create_graph_from_duckdb (website_links f) page_a) page_d)
              (crawl any_bracketed_netloc elements small_site 2 9 (init page_a)))
    as (f & E & X); [vm_compute; reflexivity|].
  rewrite E. split; [exact X|].
  destruct (rebuilt_depths_fit_the_colours any_bracketed_netloc elements
              small_site 2 page_a 9 f page_d E X) as (d & Hd & Hr & Hc).
  exists d. split; [exact Hd|]. split; [exact Hr|]. apply Hc. lia.
Defined.

(** ** The order in which Python lists a set *)

Lemma link_walk_ext (links1 links2 : string -> list string) (u : string) :
  (forall x y, y ∈ links1 x -> y ∈ links2 x) ->
  forall v k, link_walk links1 u v k -> link_walk links2 u v k.
Proof.
  intros H v k Hw. induction Hw as [|v w k Hw IH Hvw]; [constructor|].
  apply (link_walk_step _ _ v w k IH). apply H. exact Hvw.
Qed.

Section SetOrder.

Variable check : string -> bool.
Variable net : string -> nat -> option (list string).
Variable max_depth : Z.

Lemma first_links_any_order (order1 order2 : gset string -> list string)
    (u v : string) :
  (forall s, order1 s ≡ₚ elements s) -> (forall s, order2 s ≡ₚ elements s) ->
  v ∈ first_links check order1 net u -> v ∈ first_links check order2 net u.
Proof.
  intros H1 H2. unfold first_links, page_links, _get_links_from_page,
    get_links_from_single_page.
  destruct (net u 0%nat) as [hrefs|]; [|auto].
  destruct (collect_links check u hrefs ∅) as [set|]; [|auto].
  cbn [default from_option]. change (id ?x) with x.
  rewrite (H1 set), (H2 set). auto.
Qed.

Lemma finished_visited_any_order (order1 order2 : gset string -> list string)
    (start_url : string) (fuel1 fuel2 : nat) (f1 f2 : CrawlManager) :
  (forall s, order1 s ≡ₚ elements s) -> (forall s, order2 s ≡ₚ elements s) ->
  crawl check order1 net max_depth fuel1 (init start_url) = Finished f1 ->
  crawl check order2 net max_depth fuel2 (init start_url) = Finished f2 ->
  (forall v, v ∈ visited_urls f1 -> v ∈ visited_urls f2) /\
  (forall v d, depth (graph f1) v = Some d ->
     exists d', depth (graph f2) v = Some d' /\ d' <= d) /\
  (forall u v, (u, v) ∈ edges (graph f1) -> (u, v) ∈ edges (graph f2)).
Proof.
  intros H1 H2 Hf1 Hf2.
  destruct (finished_reach check order1 net max_depth start_url fuel1 f1 Hf1)
    as [Hv1 Hd1].
  destruct (finished_reach check order2 net max_depth start_url fuel2 f2 Hf2)
    as [Hv2 Hd2].
  assert (Hr1 : reachable check order1 net max_depth start_url f1)
    by (apply (crawl_finished_run check order1 net max_depth fuel1); exact Hf1).
  assert (Hr2 : reachable check order2 net max_depth start_url f2)
    by (apply (crawl_finished_run check order2 net max_depth fuel2); exact Hf2).
  pose proof (bfs_inv_reachable check order1 net max_depth start_url f1 Hr1)
    as Hb1.
  pose proof (bfs_inv_reachable check order2 net max_depth start_url f2 Hr2)
    as Hb2.
  pose proof (inv_reachable check order1 net max_depth start_url f1 Hr1) as Hi1.
  assert (Hvis : forall v, v ∈ visited_urls f1 -> v ∈ visited_urls f2).
  { intros v Hv. apply Hv2. apply Hv1 in Hv as (k & Hk & Hw).
    exists k. split; [exact Hk|].
    apply (link_walk_ext (first_links check order1 net)); [|exact Hw].
    intros x y. apply first_links_any_order; assumption. }
  split; [exact Hvis|]. split.
  - intros v d Hd.
    assert (Hv : v ∈ visited_urls f1).
    { apply (depth_crawled max_depth start_url f1 _ Hb1). rewrite Hd.
      eexists; reflexivity. }
    destruct (bfs_crawled _ _ _ Hb2 _ (Hvis v Hv)) as (d' & Hd' & _).
    exists d'. split; [exact Hd'|].
    destruct (Hd1 v d Hd) as (H0 & Hw & _).
    destruct (Hd2 v d' Hd') as (H0' & _ & Hmin).
    assert (Hle : (Z.to_nat d' <= Z.to_nat d)%nat).
    { apply Hmin.
      apply (link_walk_ext (first_links check order1 net)); [|exact Hw].
      intros x y. apply first_links_any_order; assumption. }
    lia.
  - intros u v He.
    destruct (inv_edges _ _ _ _ Hi1 u v He) as [Hu Hl].
    apply (inv_fetched_visited _ _ _ _ Hi1) in Hu.
    apply (links_are_edges check order2 net max_depth start_url f2 Hr2 u v).
    + apply Hvis. exact Hu.
    + apply (first_links_any_order order1 order2); assumption.
Qed.

(** X24: the order in which Python lists the set of links of a page has no
    influence on what a crawl that ends normally leaves: the same URLs are
    crawled, at the same depths, and the graph has the same edges. *)
Theorem crawl_result_independent_of_set_order
    (order1 order2 : gset string -> list string)
    (start_url : string) (fuel1 fuel2 : nat) (f1 f2 : CrawlManager) :
  (forall s, order1 s ≡ₚ elements s) -> (forall s, order2 s ≡ₚ elements s) ->
  crawl check order1 net max_depth fuel1 (init start_url) = Finished f1 ->
  crawl check order2 net max_depth fuel2 (init start_url) = Finished f2 ->
  visited_urls f1 = visited_urls f2 /\
  edges (graph f1) = edges (graph f2) /\
  (forall v, depth (graph f1) v = depth (graph f2) v) /\
  (forall n, has_node (graph f1) n = has_node (graph f2) n).
Proof.
  intros H1 H2 Hf1 Hf2.
  destruct (finished_visited_any_order order1 order2 start_url fuel1 fuel2
              f1 f2 H1 H2 Hf1 Hf2) as (Va & Da & Ea).
  destruct (finished_visited_any_order order2 order1 start_url fuel2 fuel1
              f2 f1 H2 H1 Hf2 Hf1) as (Vb & Db & Eb).
  assert (Hr1 : reachable check order1 net max_depth start_url f1)
    by (apply (crawl_finished_run check order1 net max_depth fuel1); exact Hf1).
  assert (Hr2 : reachable check order2 net max_depth start_url f2)
    by (apply (crawl_finished_run check order2 net max_depth fuel2); exact Hf2).
  pose proof (bfs_inv_reachable check order1 net max_depth start_url f1 Hr1)
    as Hb1.
  pose proof (bfs_inv_reachable check order2 net max_depth start_url f2 Hr2)
    as Hb2.
  assert (Ev : visited_urls f1 = visited_urls f2).
  { apply leibniz_equiv. intros v. split; [apply Va|apply Vb]. }
  assert (Ee : edges (graph f1) = edges (graph f2)).
  { apply leibniz_equiv. intros [u v]. split; [apply Ea|apply Eb]. }
  split; [exact Ev|]. split; [exact Ee|]. split.
  - intros v. destruct (depth (graph f1) v) as [d|] eqn:E1.
    + destruct (Da v d E1) as (d' & Hd' & Hle).
      destruct (Db v d' Hd') as (d'' & Hd'' & Hle').
      rewrite E1 in Hd''. inversion Hd''; subst d''.
      rewrite Hd'. f_equal. lia.
    + destruct (depth (graph f2) v) as [d|] eqn:E2; [|reflexivity].
      destruct (Db v d E2) as (d' & Hd' & _). rewrite E1 in Hd'. discriminate.
  - intros n. apply eq_true_iff_eq.
    rewrite (bfs_nodes _ _ _ Hb1 n), (bfs_nodes _ _ _ Hb2 n), Ev, Ee.
    reflexivity.
Qed.

End SetOrder.

(** The crawl of [triangle_site] with the links of a page in the order of
    [elements] and in the reverse order: the rows are written in another
    order, the graph is the same. *)
Lemma crawl_result_independent_of_set_order_witness :
  exists f1 f2,
    crawl any_bracketed_netloc elements triangle_site 2 9 (init page_a)
      = Finished f1 /\
    crawl any_bracketed_netloc (fun s => reverse (elements s)) triangle_site 2 9
      (init page_a) = Finished f2 /\
    head (website_links f1) <> head (website_links f2) /\
    visited_urls f1 = visited_urls f2 /\
    edges (graph f1) = edges (graph f2) /\
    (forall v, depth (graph f1) v = depth (graph f2) v) /\
    (forall n, has_node (graph f1) n = has_node (graph f2) n).
Proof.
  destruct (observe_finished
              (fun f => bool_decide
                 (target_url <$> head (website_links f) = Some page_c))
              (crawl any_bracketed_netloc elements triangle_site 2 9
                 (init page_a)))
    as (f1 & E1 & X1); [vm_compute; reflexivity|].
  destruct (observe_finished
              (fun f => bool_decide
                 (target_url <$> head (website_links f) = Some page_b))
              (crawl any_bracketed_netloc (fun s => reverse (elements s))
                 triangle_site 2 9 (init page_a)))
    as (f2 & E2 & X2); [vm_compute; reflexivity|].
  apply bool_decide_eq_true in X1. apply bool_decide_eq_true in X2.
  exists f1, f2. split; [exact E1|]. split; [exact E2|]. split.
  - intros E. rewrite E in X1. rewrite X2 in X1. injection X1 as X1.
    discriminate X1.
  - apply (crawl_result_independent_of_set_order any_bracketed_netloc
             triangle_site 2 elements (fun s => reverse (elements s))
             page_a 9 9 f1 f2).
    + intros s. reflexivity.
    + intros s. apply reverse_Permutation.
    + exact E1.
    + exact E2.
Defined.
